(** * Mini tar (busybox tar.c): header codec, archive reader and writer

    A shallow embedding of [tar.c] and the properties of its octal field
    codec, header checksum, selection filter, block writer and the
    header/data state machine of the reader.

    Conventions of the embedding.
    - A [char] is its unsigned byte value, a [Z] in [0, 256).
    - A [const char *] that is only read is the list of bytes found from
      the pointer onwards: [*cp] is the head, [cp++] the tail.
    - A [long] is a [Z] that wraps around at 64 bits ([wrap_long]); an
      [int] and an [unsigned int] are the 32-bit conversions of it.
    - The C statics are the fields of one record, [globals]; everything the
      program does to the outside (messages, system calls, bytes written to
      the archive) is recorded in it as well. *)

From Stdlib Require Import String Ascii ZArith List Bool Lia.
Import ListNotations.
Open Scope Z_scope.

(** ** Bytes and C strings *)

Definition is_byte (b : Z) : Prop := 0 <= b < 256.

(** The byte values of a string literal (without the terminating NUL). *)
Definition cstr (s : string) : list Z :=
  map (fun c => Z.of_nat (nat_of_ascii c)) (list_ascii_of_string s).

(** [*cp] and [cp[i]]; a read outside the modelled memory yields 0. *)
Definition deref (cp : list Z) : Z := hd 0 cp.
Definition index (cp : list Z) (i : nat) : Z := nth i cp 0.

(** The characters of the C string that starts at [cp] (up to the first NUL). *)
Fixpoint cstring (cp : list Z) : list Z :=
  match cp with
  | [] => []
  | c :: cp' => if c =? 0 then [] else c :: cstring cp'
  end.

Definition strlen (cp : list Z) : nat := length (cstring cp).

(** [memcpy (buf + off, bytes, length bytes)] inside a buffer. *)
Definition poke (buf : list Z) (off : nat) (bytes : list Z) : list Z :=
  firstn off buf ++ bytes ++ skipn (off + length bytes) buf.

(** The [len] bytes of [buf] from offset [off]. *)
Definition peek (buf : list Z) (off len : nat) : list Z :=
  firstn len (skipn off buf).

(** ** Machine integers *)

Definition wrap_long (z : Z) : Z := (z + 2 ^ 63) mod 2 ^ 64 - 2 ^ 63.
Definition to_int (z : Z) : Z := (z + 2 ^ 31) mod 2 ^ 32 - 2 ^ 31.
Definition to_uint (z : Z) : Z := z mod 2 ^ 32.
Definition to_ulong (z : Z) : Z := z mod 2 ^ 64.
Definition LONG_MAX : Z := 2 ^ 63 - 1.

(** ** Tar file constants *)

Definition TAR_BLOCK_SIZE : nat := 512.
Definition TAR_NAME_SIZE : nat := 100.

Definition TAR_MAGIC : list Z := cstr "ustar".
Definition TAR_VERSION : list Z := cstr "00".

Definition TAR_TYPE_REGULAR : Z := 48.
Definition TAR_TYPE_HARD_LINK : Z := 49.
Definition TAR_TYPE_SOFT_LINK : Z := 50.

Definition SPACE : Z := 32.
Definition SLASH : Z := 47.

(** *** Layout of [TarHeader]: offset and size of each member.
    All members are [char] arrays, so the structure has no padding and
    [sizeof (TarHeader)] is 500. *)

Definition off_name : nat := 0.
Definition off_mode : nat := 100.
Definition off_uid : nat := 108.
Definition off_gid : nat := 116.
Definition off_size : nat := 124.
Definition off_mtime : nat := 136.
Definition off_checkSum : nat := 148.
Definition off_typeFlag : nat := 156.
Definition off_linkName : nat := 157.
Definition off_magic : nat := 257.
Definition off_version : nat := 263.
Definition off_uname : nat := 265.
Definition off_gname : nat := 297.
Definition off_devMajor : nat := 329.
Definition off_devMinor : nat := 337.
Definition off_prefix : nat := 345.
Definition sizeof_TarHeader : nat := 500.

Definition sz_mode : nat := 8.
Definition sz_uid : nat := 8.
Definition sz_gid : nat := 8.
Definition sz_size : nat := 12.
Definition sz_mtime : nat := 12.
Definition sz_checkSum : nat := 8.
Definition sz_magic : nat := 6.
Definition sz_version : nat := 2.
Definition sz_devMajor : nat := 8.
Definition sz_devMinor : nat := 8.

(** ** File modes ([<sys/stat.h>], Linux values) *)

Definition S_IFMT : Z := 61440.    (* 0170000 *)
Definition S_IFSOCK : Z := 49152.  (* 0140000 *)
Definition S_IFLNK : Z := 40960.   (* 0120000 *)
Definition S_IFREG : Z := 32768.   (* 0100000 *)
Definition S_IFBLK : Z := 24576.   (* 0060000 *)
Definition S_IFDIR : Z := 16384.   (* 0040000 *)
Definition S_IFCHR : Z := 8192.    (* 0020000 *)
Definition S_IFIFO : Z := 4096.    (* 0010000 *)

Definition S_ISDIR (m : Z) : bool := Z.land m S_IFMT =? S_IFDIR.
Definition S_ISREG (m : Z) : bool := Z.land m S_IFMT =? S_IFREG.
Definition S_ISCHR (m : Z) : bool := Z.land m S_IFMT =? S_IFCHR.
Definition S_ISBLK (m : Z) : bool := Z.land m S_IFMT =? S_IFBLK.
Definition S_ISSOCK (m : Z) : bool := Z.land m S_IFMT =? S_IFSOCK.
Definition S_ISFIFO (m : Z) : bool := Z.land m S_IFMT =? S_IFIFO.

(** ** getOctal *)

(** Modelled from the spec: the macro [isOctal] of internal.h, which is not
    part of the sources; an octal digit is one of the characters '0'..'7'. *)
Definition isOctal (ch : Z) : bool := (48 <=? ch) && (ch <=? 55).

(** [while ((len > 0) && ( *cp == ' ')) { cp++; len--; }] *)
Fixpoint skipSpaces (len : nat) (cp : list Z) : nat * list Z :=
  match len with
  | O => (O, cp)
  | S len' => if deref cp =? SPACE then skipSpaces len' (tl cp) else (len, cp)
  end.

(** [while ((len > 0) && isOctal ( *cp)) { val = val * 8 + *cp++ - '0'; len--; }] *)
Definition accumulate (val ch : Z) : Z := wrap_long (val * 8 + ch - 48).

Fixpoint readDigits (len : nat) (cp : list Z) (val : Z) : Z * nat * list Z :=
  match len with
  | O => (val, O, cp)
  | S len' =>
      if isOctal (deref cp)
      then readDigits len' (tl cp) (accumulate val (deref cp))
      else (val, len, cp)
  end.

Definition getOctal (cp : list Z) (len : nat) : Z :=
  let '(len1, cp1) := skipSpaces len cp in
  if (len1 =? 0)%nat || negb (isOctal (deref cp1)) then -1
  else
    let '(val, len2, cp2) := readDigits len1 cp1 0 in
    let '(len3, cp3) := skipSpaces len2 cp2 in
    if (0 <? len3)%nat && negb (deref cp3 =? 0) then -1
    else val.

(** ** putOctal *)

(** The digits that [printf] produces for [%lo]: the octal digits of an
    [unsigned long], most significant first, at least one. An unsigned long
    has at most 22 octal digits. *)
Fixpoint octal_digits (fuel : nat) (u : Z) : list Z :=
  match fuel with
  | O => []
  | S fuel' =>
      (if u <? 8 then [] else octal_digits fuel' (u / 8)) ++ [48 + u mod 8]
  end.

Definition ULONG_OCTAL_DIGITS : nat := 22.

(** [sprintf (tempString, " %0*lo", width, value)]: a space, the number
    padded with zeroes on the left to [width] digits, and the NUL. *)
Definition sprintf_octal (width : nat) (value : Z) : list Z :=
  let digits := octal_digits ULONG_OCTAL_DIGITS (to_ulong value) in
  [SPACE] ++ repeat 48 (width - length digits) ++ digits ++ [0].

(** [putOctal (cp, len, value)] is [Some bytes] when the function returns
    TRUE after copying the [len] bytes [bytes] to [cp], and [None] when it
    returns FALSE and leaves [cp] alone. The width passed to [sprintf] is
    [len - 2]; every field of the header has [len >= 2]. *)
Definition putOctal (len : nat) (value : Z) : option (list Z) :=
  let tempString := sprintf_octal (len - 2) value in
  let tempLength := (strlen tempString + 1)%nat in
  (* If the string is too large, suppress the leading space. *)
  let '(tempLength, tempString) :=
    if (len <? tempLength)%nat then ((tempLength - 1)%nat, tl tempString)
    else (tempLength, tempString) in
  (* If the string is still too large, suppress the trailing null. *)
  let tempLength :=
    if (len <? tempLength)%nat then (tempLength - 1)%nat else tempLength in
  (* If the string is still too large, fail. *)
  if (len <? tempLength)%nat then None
  else Some (firstn len tempString).

(** Storing the result of [putOctal] in a field of a buffer. The callers
    in tar.c ignore the return value: on failure the field keeps its
    previous contents. *)
Definition store_octal (buf : list Z) (off len : nat) (value : Z) : list Z :=
  match putOctal len value with
  | Some bytes => poke buf off bytes
  | None => buf
  end.

(** ** wantFileName *)

(** [memcmp (a, b, n) == 0] *)
Fixpoint memcmp_eq (a b : list Z) (n : nat) : bool :=
  match n with
  | O => true
  | S n' => (deref a =? deref b) && memcmp_eq (tl a) (tl b) n'
  end.

(** [strcmp (a, b) == 0] *)
Definition strcmp_eq (a b : list Z) : bool :=
  if list_eq_dec Z.eq_dec (cstring a) (cstring b) then true else false.

(** The loop [while (fileCount-- > 0) { pathName = *fileTable++; ... }].
    The table holds at least [fileCount] names (as [argv] does up to
    [argc]); the model stops where the table ends. *)
Fixpoint wantFileName_loop (fileName : list Z) (fileLength : nat)
    (fileCount : Z) (fileTable : list (list Z)) : bool :=
  match fileTable with
  | [] => false
  | pathName :: fileTable' =>
      if fileCount >? 0 then
        let pathLength := strlen pathName in
        if (fileLength <? pathLength)%nat
        then wantFileName_loop fileName fileLength (fileCount - 1) fileTable'
        else if negb (memcmp_eq fileName pathName pathLength)
        then wantFileName_loop fileName fileLength (fileCount - 1) fileTable'
        else if (fileLength =? pathLength)%nat
                  || (index fileName pathLength =? SLASH)
        then true
        else wantFileName_loop fileName fileLength (fileCount - 1) fileTable'
      else false
  end.

(** [if (fileCount == 0) return TRUE;] and then the loop: a count below
    zero selects nothing. *)
Definition wantFileName (fileName : list Z) (fileCount : Z)
    (fileTable : list (list Z)) : bool :=
  if fileCount =? 0 then true
  else wantFileName_loop fileName (strlen fileName) fileCount fileTable.

(** ** The outside world *)

(** *** Block I/O

    Modelled from the spec: [fullRead] and [fullWrite] of utility.c, which is
    not part of the sources ("guarantees full reads/writes against
    short-read/short-write conditions on the underlying stream"). The
    result of [fullRead] is the number of bytes read, fewer than asked
    for at the end of the file only, or a value below zero on an error
    (-1 here): [readTarFile] and [saveRegularFile] test it with [< 0] and
    [== 0]. The result of a [fullWrite] that succeeds is the number of
    bytes written. *)

(** A descriptor open for reading: the bytes still to come, and whether
    the stream breaks with an I/O error once they are exhausted (instead
    of reporting end of file). *)
Record source := mkSource { pending : list Z; broken : bool }.

Definition fullRead (s : source) (len : nat) : Z * list Z * source :=
  if (len <=? length (pending s))%nat
  then (Z.of_nat len, firstn len (pending s),
        mkSource (skipn len (pending s)) (broken s))
  else if broken s then (-1, [], mkSource [] true)
  else (Z.of_nat (length (pending s)), pending s, mkSource [] false).

(** A descriptor open for writing: the bytes written so far, and how many
    more it accepts ([None]: no limit). [fullWrite] is defined outside of
    tar.c, and its two callers test its result in two ways
    ([!fullWrite (...)] in [writeTarBlock], [fullWrite (...) < 0] in
    [readData]): what it returns when the descriptor does not take all
    the bytes is left open, as the field [failure]. *)
Record sink := mkSink {
  written : list Z;
  room : option nat;
  failure : Z
}.

Definition fullWrite (s : sink) (buf : list Z) : Z * sink :=
  match room s with
  | None =>
      (Z.of_nat (length buf), mkSink (written s ++ buf) None (failure s))
  | Some n =>
      if (length buf <=? n)%nat
      then (Z.of_nat (length buf),
            mkSink (written s ++ buf) (Some (n - length buf)%nat)
              (failure s))
      else (failure s,
            mkSink (written s ++ firstn n buf) (Some O) (failure s))
  end.

(** *** System calls and messages *)

(** The calls made while extracting. Their results come from an oracle;
    the calls themselves are recorded in the trace. *)
Inductive syscall : Type :=
| Sys_link (target name : list Z)
| Sys_symlink (target name : list Z)
| Sys_lchown (name : list Z) (uid gid : Z)
| Sys_utime (name : list Z) (time : Z)
| Sys_chown (name : list Z) (uid gid : Z)
| Sys_chmod (name : list Z) (mode : Z)
| Sys_umask (mask : Z)
| Sys_createPath (name : list Z) (mode : Z)
| Sys_mknod (name : list Z) (mode major minor : Z)
| Sys_mkfifo (name : list Z) (mode : Z)
| Sys_open (name : list Z) (mode : Z)
| Sys_close (fd : Z)
| Sys_fullWrite (fd : Z) (data : list Z).

Inductive event : Type :=
| Stderr (text : string)                      (* fprintf (stderr, text) *)
| StderrFor (name : list Z) (text : string)   (* a message about a file *)
| Perror (name : option (list Z))             (* perror (name) *)
| ListVerbose (mode uid gid : Z) (dev : option (Z * Z)) (size mtime : Z)
| ListName (name : list Z)
| ListLink (linkName : list Z)
| ListSymlink (linkName : list Z)
| ListEnd
| Extracting (name : list Z)                  (* "x %s\n" *)
| Archiving (name : list Z)                   (* "a %s\n" *)
| Call (c : syscall).

Definition msg_bad_header : event := Stderr "Bad tar header, skipping".
Definition msg_absolute_path : event :=
  Stderr "Absolute path detected, removing leading slashes".
Definition msg_unexpected_eof : event := Stderr "Unexpected end of file".
Definition msg_no_files : event := Stderr "No files specified to be saved".
Definition msg_archive_itself : event :=
  Stderr "Skipping saving of archive file itself".

(** *** [struct stat] *)
Record stat := mkStat {
  st_dev : Z; st_ino : Z; st_mode : Z; st_uid : Z; st_gid : Z;
  st_size : Z; st_mtime : Z
}.

(** ** Static data *)

(** The statics of tar.c. [tarOut] is the file behind [tarFd] while an
    archive is written, [trace] what the program has printed and called. *)
Record globals := mkGlobals {
  listFlag : bool;
  extractFlag : bool;
  createFlag : bool;
  verboseFlag : bool;
  tostdoutFlag : bool;
  inHeader : bool;
  badHeader : bool;
  errorFlag : bool;
  skipFileFlag : bool;
  warnedRoot : bool;
  eofFlag : bool;
  dataCc : Z;
  outFd : Z;
  outName : list Z;
  mode : Z;
  uid : Z;
  gid : Z;
  mtime : Z;
  tarName : option (list Z);
  tarDev : Z;
  tarInode : Z;
  tarOut : sink;
  trace : list event
}.

Definition set_tostdoutFlag (v : bool) (g : globals) : globals :=
  mkGlobals (listFlag g) (extractFlag g) (createFlag g) (verboseFlag g) v
    (inHeader g) (badHeader g) (errorFlag g) (skipFileFlag g) (warnedRoot g)
    (eofFlag g) (dataCc g) (outFd g) (outName g) (mode g) (uid g) (gid g)
    (mtime g) (tarName g) (tarDev g) (tarInode g) (tarOut g) (trace g).

Definition set_inHeader (v : bool) (g : globals) : globals :=
  mkGlobals (listFlag g) (extractFlag g) (createFlag g) (verboseFlag g)
    (tostdoutFlag g) v (badHeader g) (errorFlag g) (skipFileFlag g)
    (warnedRoot g) (eofFlag g) (dataCc g) (outFd g) (outName g) (mode g)
    (uid g) (gid g) (mtime g) (tarName g) (tarDev g) (tarInode g) (tarOut g)
    (trace g).

Definition set_badHeader (v : bool) (g : globals) : globals :=
  mkGlobals (listFlag g) (extractFlag g) (createFlag g) (verboseFlag g)
    (tostdoutFlag g) (inHeader g) v (errorFlag g) (skipFileFlag g)
    (warnedRoot g) (eofFlag g) (dataCc g) (outFd g) (outName g) (mode g)
    (uid g) (gid g) (mtime g) (tarName g) (tarDev g) (tarInode g) (tarOut g)
    (trace g).

Definition set_errorFlag (v : bool) (g : globals) : globals :=
  mkGlobals (listFlag g) (extractFlag g) (createFlag g) (verboseFlag g)
    (tostdoutFlag g) (inHeader g) (badHeader g) v (skipFileFlag g)
    (warnedRoot g) (eofFlag g) (dataCc g) (outFd g) (outName g) (mode g)
    (uid g) (gid g) (mtime g) (tarName g) (tarDev g) (tarInode g) (tarOut g)
    (trace g).

Definition set_skipFileFlag (v : bool) (g : globals) : globals :=
  mkGlobals (listFlag g) (extractFlag g) (createFlag g) (verboseFlag g)
    (tostdoutFlag g) (inHeader g) (badHeader g) (errorFlag g) v
    (warnedRoot g) (eofFlag g) (dataCc g) (outFd g) (outName g) (mode g)
    (uid g) (gid g) (mtime g) (tarName g) (tarDev g) (tarInode g) (tarOut g)
    (trace g).

Definition set_warnedRoot (v : bool) (g : globals) : globals :=
  mkGlobals (listFlag g) (extractFlag g) (createFlag g) (verboseFlag g)
    (tostdoutFlag g) (inHeader g) (badHeader g) (errorFlag g)
    (skipFileFlag g) v (eofFlag g) (dataCc g) (outFd g) (outName g) (mode g)
    (uid g) (gid g) (mtime g) (tarName g) (tarDev g) (tarInode g) (tarOut g)
    (trace g).

Definition set_eofFlag (v : bool) (g : globals) : globals :=
  mkGlobals (listFlag g) (extractFlag g) (createFlag g) (verboseFlag g)
    (tostdoutFlag g) (inHeader g) (badHeader g) (errorFlag g)
    (skipFileFlag g) (warnedRoot g) v (dataCc g) (outFd g) (outName g)
    (mode g) (uid g) (gid g) (mtime g) (tarName g) (tarDev g) (tarInode g)
    (tarOut g) (trace g).

Definition set_dataCc (v : Z) (g : globals) : globals :=
  mkGlobals (listFlag g) (extractFlag g) (createFlag g) (verboseFlag g)
    (tostdoutFlag g) (inHeader g) (badHeader g) (errorFlag g)
    (skipFileFlag g) (warnedRoot g) (eofFlag g) v (outFd g) (outName g)
    (mode g) (uid g) (gid g) (mtime g) (tarName g) (tarDev g) (tarInode g)
    (tarOut g) (trace g).

Definition set_outFd (v : Z) (g : globals) : globals :=
  mkGlobals (listFlag g) (extractFlag g) (createFlag g) (verboseFlag g)
    (tostdoutFlag g) (inHeader g) (badHeader g) (errorFlag g)
    (skipFileFlag g) (warnedRoot g) (eofFlag g) (dataCc g) v (outName g)
    (mode g) (uid g) (gid g) (mtime g) (tarName g) (tarDev g) (tarInode g)
    (tarOut g) (trace g).

Definition set_outName (v : list Z) (g : globals) : globals :=
  mkGlobals (listFlag g) (extractFlag g) (createFlag g) (verboseFlag g)
    (tostdoutFlag g) (inHeader g) (badHeader g) (errorFlag g)
    (skipFileFlag g) (warnedRoot g) (eofFlag g) (dataCc g) (outFd g) v
    (mode g) (uid g) (gid g) (mtime g) (tarName g) (tarDev g) (tarInode g)
    (tarOut g) (trace g).

Definition set_mode (v : Z) (g : globals) : globals :=
  mkGlobals (listFlag g) (extractFlag g) (createFlag g) (verboseFlag g)
    (tostdoutFlag g) (inHeader g) (badHeader g) (errorFlag g)
    (skipFileFlag g) (warnedRoot g) (eofFlag g) (dataCc g) (outFd g)
    (outName g) v (uid g) (gid g) (mtime g) (tarName g) (tarDev g)
    (tarInode g) (tarOut g) (trace g).

Definition set_uid (v : Z) (g : globals) : globals :=
  mkGlobals (listFlag g) (extractFlag g) (createFlag g) (verboseFlag g)
    (tostdoutFlag g) (inHeader g) (badHeader g) (errorFlag g)
    (skipFileFlag g) (warnedRoot g) (eofFlag g) (dataCc g) (outFd g)
    (outName g) (mode g) v (gid g) (mtime g) (tarName g) (tarDev g)
    (tarInode g) (tarOut g) (trace g).

Definition set_gid (v : Z) (g : globals) : globals :=
  mkGlobals (listFlag g) (extractFlag g) (createFlag g) (verboseFlag g)
    (tostdoutFlag g) (inHeader g) (badHeader g) (errorFlag g)
    (skipFileFlag g) (warnedRoot g) (eofFlag g) (dataCc g) (outFd g)
    (outName g) (mode g) (uid g) v (mtime g) (tarName g) (tarDev g)
    (tarInode g) (tarOut g) (trace g).

Definition set_mtime (v : Z) (g : globals) : globals :=
  mkGlobals (listFlag g) (extractFlag g) (createFlag g) (verboseFlag g)
    (tostdoutFlag g) (inHeader g) (badHeader g) (errorFlag g)
    (skipFileFlag g) (warnedRoot g) (eofFlag g) (dataCc g) (outFd g)
    (outName g) (mode g) (uid g) (gid g) v (tarName g) (tarDev g)
    (tarInode g) (tarOut g) (trace g).

Definition set_tarDev (v : Z) (g : globals) : globals :=
  mkGlobals (listFlag g) (extractFlag g) (createFlag g) (verboseFlag g)
    (tostdoutFlag g) (inHeader g) (badHeader g) (errorFlag g)
    (skipFileFlag g) (warnedRoot g) (eofFlag g) (dataCc g) (outFd g)
    (outName g) (mode g) (uid g) (gid g) (mtime g) (tarName g) v
    (tarInode g) (tarOut g) (trace g).

Definition set_tarInode (v : Z) (g : globals) : globals :=
  mkGlobals (listFlag g) (extractFlag g) (createFlag g) (verboseFlag g)
    (tostdoutFlag g) (inHeader g) (badHeader g) (errorFlag g)
    (skipFileFlag g) (warnedRoot g) (eofFlag g) (dataCc g) (outFd g)
    (outName g) (mode g) (uid g) (gid g) (mtime g) (tarName g) (tarDev g) v
    (tarOut g) (trace g).

Definition set_tarOut (v : sink) (g : globals) : globals :=
  mkGlobals (listFlag g) (extractFlag g) (createFlag g) (verboseFlag g)
    (tostdoutFlag g) (inHeader g) (badHeader g) (errorFlag g)
    (skipFileFlag g) (warnedRoot g) (eofFlag g) (dataCc g) (outFd g)
    (outName g) (mode g) (uid g) (gid g) (mtime g) (tarName g) (tarDev g)
    (tarInode g) v (trace g).

Definition set_trace (v : list event) (g : globals) : globals :=
  mkGlobals (listFlag g) (extractFlag g) (createFlag g) (verboseFlag g)
    (tostdoutFlag g) (inHeader g) (badHeader g) (errorFlag g)
    (skipFileFlag g) (warnedRoot g) (eofFlag g) (dataCc g) (outFd g)
    (outName g) (mode g) (uid g) (gid g) (mtime g) (tarName g) (tarDev g)
    (tarInode g) (tarOut g) v.

Definition log (e : event) (g : globals) : globals :=
  set_trace (trace g ++ [e]) g.

(** [fullWrite (tarFd, buf, len)] *)
Definition tar_fullWrite (buf : list Z) (g : globals) : Z * globals :=
  let '(cc, s) := fullWrite (tarOut g) buf in (cc, set_tarOut s g).

(** ** Writing an archive *)

(** *** writeTarBlock

    Write data to one or more blocks of the tar file; the data is padded
    out to a multiple of [TAR_BLOCK_SIZE]. [buf] holds at least the [len]
    bytes to write. The test for a failed write is [!fullWrite (...)],
    that is, a result of zero. *)
Definition writeTarBlock (buf : list Z) (len : nat) (g : globals) : globals :=
  (* If we had a write error before, then do nothing more. *)
  if errorFlag g then g
  else
    let partialLength := (len mod TAR_BLOCK_SIZE)%nat in
    let completeLength := (len - partialLength)%nat in
    (* Write all of the complete blocks. *)
    let '(failed, g) :=
      if (0 <? completeLength)%nat
      then let '(cc, g') := tar_fullWrite (peek buf 0 completeLength) g in
           (cc =? 0, g')
      else (false, g) in
    if failed then set_errorFlag true (log (Perror (tarName g)) g)
    else if (partialLength =? 0)%nat then g
    else
      (* Copy the partial data into a complete block, zero padded. *)
      let fullBlock :=
        peek buf completeLength partialLength
          ++ repeat 0 (TAR_BLOCK_SIZE - partialLength) in
      let '(cc, g) := tar_fullWrite fullBlock g in
      if cc =? 0 then set_errorFlag true (log (Perror (tarName g)) g)
      else g.

(** *** writeHeader *)

(** [strncpy (dst, src, n)]: the characters of [src], NUL padded to [n]. *)
Definition strncpy (src : list Z) (n : nat) : list Z :=
  firstn n (cstring src ++ repeat 0 n).

(** [while (len-- > 0) checkSum += *cp++;] *)
Fixpoint sum_bytes (len : nat) (cp : list Z) (checkSum : Z) : Z :=
  match len with
  | O => checkSum
  | S len' => sum_bytes len' (tl cp) (checkSum + deref cp)
  end.

(** The contents of the local [header] when it is handed to
    [writeTarBlock]. *)
Definition fillHeader (fileName : list Z) (statbuf : stat) : list Z :=
  let header := repeat 0 sizeof_TarHeader in
  let header := poke header off_name (cstring fileName ++ [0]) in
  let header := poke header off_magic (strncpy TAR_MAGIC sz_magic) in
  let header := poke header off_version (strncpy TAR_VERSION sz_version) in
  let header := store_octal header off_mode sz_mode
                  (Z.land (st_mode statbuf) 511) in
  let header := store_octal header off_uid sz_uid (st_uid statbuf) in
  let header := store_octal header off_gid sz_gid (st_gid statbuf) in
  let header := store_octal header off_size sz_size (st_size statbuf) in
  let header := store_octal header off_mtime sz_mtime (st_mtime statbuf) in
  let header := poke header off_typeFlag [TAR_TYPE_REGULAR] in
  (* The checksum: the sum of all of the bytes of the header, with the
     checksum field itself treated as blanks. *)
  let header := poke header off_checkSum (repeat SPACE sz_checkSum) in
  let checkSum := sum_bytes sizeof_TarHeader header 0 in
  store_octal header off_checkSum sz_checkSum checkSum.

Definition writeHeader (fileName : list Z) (statbuf : stat) (g : globals)
  : globals :=
  writeTarBlock (fillHeader fileName statbuf) sizeof_TarHeader g.

(** *** The files to archive

    What the file system answers for one path: the result of [stat] and of
    [lstat] ([None] when the call fails), what [open] gives for reading
    and what [opendir]/[readdir] enumerate. *)
#[warnings="-register-all"]
Inductive node : Type :=
| Node (nstat nlstat : option stat) (nopen : option source)
       (ndir : option (list (list Z * node))).

(** *** saveRegularFile *)

Definition chunk : nat := (16 * TAR_BLOCK_SIZE)%nat.
Definition sizeof_data : Z := Z.of_nat chunk.

(** The loop [while (fullDataCount > 0)]. Each turn writes at least one
    byte of the count, so [fullDataCount / sizeof (data) + 1] turns are
    enough; [fuel] bounds the number of turns. *)
Fixpoint saveData (fuel : nat) (fileName : list Z) (fullDataCount : Z)
    (sawEof : bool) (fileFd : source) (g : globals) : globals :=
  match fuel with
  | O => g
  | S fuel' =>
      if fullDataCount <=? 0 then g
      else
        let dataCount :=
          if sizeof_data >? fullDataCount then fullDataCount
          else sizeof_data in
        (* Read the data from the file if we haven't seen the end yet. *)
        let '(cc, data, fileFd') :=
          if sawEof then (0, [], fileFd)
          else fullRead fileFd (Z.to_nat dataCount) in
        if cc <? 0
        then set_errorFlag true (log (Perror (Some fileName)) g)
        else
          let short := negb sawEof && (cc <? dataCount) in
          let g := if short
                   then log (StderrFor fileName "Short read - zero filling") g
                   else g in
          let sawEof := sawEof || short in
          (* Zero fill the rest of the data if necessary. *)
          let data := data ++ repeat 0 (Z.to_nat (dataCount - cc)) in
          let g := writeTarBlock data (Z.to_nat dataCount) g in
          saveData fuel' fileName (fullDataCount - dataCount) sawEof fileFd' g
  end.

Definition saveRegularFile (fileName : list Z) (statbuf : stat)
    (nopen : option source) (g : globals) : globals :=
  match nopen with
  | None => log (Perror (Some fileName)) g
  | Some fileFd =>
      let g := writeHeader fileName statbuf g in
      let fullDataCount := st_size statbuf in
      saveData (Z.to_nat (fullDataCount / sizeof_data) + 1) fileName
        fullDataCount false fileFd g
  end.

(** *** saveDirectory and saveFile *)

Definition is_dot (name : list Z) : bool :=
  match cstring name with
  | [46] => true
  | [46; 46] => true
  | _ => false
  end.

Section Writer.
(** [NAME_MAX] comes from <limits.h>, which is not part of the sources:
    it is a parameter here. [saveDirectory] builds each path in
    [char fullName[NAME_MAX]] with [strcpy] and [strcat]; a path that
    does not fit there with its NUL overruns the array, and what the
    program does from then on is not defined: the result is [None]. *)
Variable NAME_MAX : nat.

Section SaveDirectory.
(** The recursive call [saveFile (fullName, TRUE)] on a directory entry. *)
Variable saveFile : node -> list Z -> bool -> globals -> option globals.

(** [while (errorFlag==FALSE && ((entry = readdir (dir)) != NULL))] *)
Fixpoint saveEntries (dirName : list Z) (needSlash : bool)
    (entries : list (list Z * node)) (g : globals) : option globals :=
  match entries with
  | [] => Some g
  | (d_name, child) :: entries' =>
      if errorFlag g then Some g
      else if is_dot d_name then saveEntries dirName needSlash entries' g
      else
        (* Build the full path name to the file. *)
        let fullName :=
          cstring dirName ++ (if needSlash then [SLASH] else [])
            ++ cstring d_name in
        if (NAME_MAX <=? length fullName)%nat then None
        else
          match saveFile child fullName true g with
          | None => None
          | Some g => saveEntries dirName needSlash entries' g
          end
  end.

Definition saveDirectory (dirName : list Z) (statbuf : stat)
    (ndir : option (list (list Z * node))) (g : globals) : option globals :=
  let fullName := cstring dirName ++ [SLASH] in
  if (NAME_MAX <=? length fullName)%nat then None
  else
    let g := writeHeader fullName statbuf g in
    match ndir with
    | None => Some (log (StderrFor dirName "Cannot read directory") g)
    | Some entries =>
        let needSlash :=
          negb (deref dirName =? 0)
            && negb (index dirName (strlen dirName - 1) =? SLASH) in
        saveEntries dirName needSlash entries g
    end.
End SaveDirectory.

Fixpoint saveFile (n : node) (fileName : list Z) (seeLinks : bool)
    (g : globals) {struct n} : option globals :=
  match n with
  | Node nstat nlstat nopen ndir =>
      let g := if verboseFlag g then log (Archiving fileName) g else g in
      (* Check that the file name will fit in the header. *)
      if (TAR_NAME_SIZE <=? strlen fileName)%nat
      then Some (log (StderrFor fileName "File name is too long") g)
      else
        match (if seeLinks then nlstat else nstat) with
        | None => Some (log (Perror (Some fileName)) g)
        | Some statbuf =>
            (* Make sure we aren't trying to save our file into itself. *)
            if (st_dev statbuf =? tarDev g) && (st_ino statbuf =? tarInode g)
            then Some (log msg_archive_itself g)
            else
              let g := set_mode (to_int (st_mode statbuf)) g in
              if S_ISDIR (mode g)
              then saveDirectory saveFile fileName statbuf ndir g
              else if S_ISREG (mode g)
              then Some (saveRegularFile fileName statbuf nopen g)
              else Some (log (StderrFor fileName
                                "not a directory or regular file") g)
        end
  end.

(** *** writeTarFile *)

(** What [tarFd] refers to once the archive has been opened: the
    descriptor and the result of [fstat] on it. *)
Record target := mkTarget { target_out : sink; target_stat : option stat }.

(** [while (errorFlag==FALSE && (fileCount-- > 0))
      saveFile ( *fileTable++, FALSE);]
    The table holds at least [fileCount] names; the model stops where the
    table ends. *)
Fixpoint saveFiles (fileCount : Z) (fileTable : list (list Z * node))
    (g : globals) : option globals :=
  match fileTable with
  | [] => Some g
  | (fileName, n) :: fileTable' =>
      if errorFlag g then Some g
      else if fileCount >? 0 then
        match saveFile n fileName false g with
        | None => None
        | Some g => saveFiles (fileCount - 1) fileTable' g
        end
      else Some g
  end.

(** [fileTable] pairs each name of the command line with what the file
    system holds under it; [tarFile] is the outcome of opening the archive
    (or of taking standard output), [None] when [open] fails. *)
Definition writeTarFile (fileCount : Z) (fileTable : list (list Z * node))
    (tarFile : option target) (g : globals) : option globals :=
  (* Make sure there is at least one file specified. *)
  let g := if fileCount <=? 0
           then set_errorFlag true (log msg_no_files g)
           else g in
  let g := match tarName g with
           | None => set_tostdoutFlag true g
           | Some name =>
               if strcmp_eq name (cstr "-")
               then set_tostdoutFlag true g else g
           end in
  match tarFile with
  | None => Some (set_errorFlag true (log (Perror (tarName g)) g))
  | Some t =>
      let g := set_tarOut (target_out t) g in
      match target_stat t with
      | None => Some (set_errorFlag true (log (Perror (tarName g)) g))
      | Some statbuf =>
          let g := set_tarInode (st_ino statbuf)
                     (set_tarDev (st_dev statbuf) g) in
          match saveFiles fileCount fileTable g with
          | None => None
          | Some g =>
              (* Now write an empty block of zeroes to end the archive. *)
              Some (writeTarBlock [0] 1 g)
          end
      end
  end.
End Writer.

(** ** Reading an archive *)

(** The members of the header found at [hp]. *)
Definition hdr_mode (hp : list Z) : Z := getOctal (skipn off_mode hp) sz_mode.
Definition hdr_uid (hp : list Z) : Z := getOctal (skipn off_uid hp) sz_uid.
Definition hdr_gid (hp : list Z) : Z := getOctal (skipn off_gid hp) sz_gid.
Definition hdr_size (hp : list Z) : Z := getOctal (skipn off_size hp) sz_size.
Definition hdr_mtime (hp : list Z) : Z :=
  getOctal (skipn off_mtime hp) sz_mtime.
Definition hdr_checkSum (hp : list Z) : Z :=
  getOctal (skipn off_checkSum hp) sz_checkSum.
Definition hdr_devMajor (hp : list Z) : Z :=
  getOctal (skipn off_devMajor hp) sz_devMajor.
Definition hdr_devMinor (hp : list Z) : Z :=
  getOctal (skipn off_devMinor hp) sz_devMinor.
Definition hdr_typeFlag (hp : list Z) : Z := index hp off_typeFlag.
Definition hdr_linkName (hp : list Z) : list Z :=
  cstring (skipn off_linkName hp).

(** [for (cc = TAR_BLOCK_SIZE; cc > 0; cc--) if ( *outName++) return;]
    The result tells whether the loop ran to its end, and where [outName]
    points afterwards. *)
Fixpoint scanEmpty (cc : nat) (outName : list Z) : bool * list Z :=
  match cc with
  | O => (true, outName)
  | S cc' =>
      if deref outName =? 0 then scanEmpty cc' (tl outName)
      else (false, tl outName)
  end.

(** [while ( *outName == '/') outName++;] *)
Fixpoint skipSlashes (outName : list Z) : list Z :=
  match outName with
  | c :: outName' => if c =? SLASH then skipSlashes outName' else outName
  | [] => []
  end.

Definition hardLink (hp : list Z) : bool :=
  (hdr_typeFlag hp =? TAR_TYPE_HARD_LINK)
    || (hdr_typeFlag hp =? TAR_TYPE_HARD_LINK - 48).

Definition softLink (hp : list Z) : bool :=
  (hdr_typeFlag hp =? TAR_TYPE_SOFT_LINK)
    || (hdr_typeFlag hp =? TAR_TYPE_SOFT_LINK - 48).

(** [S_ISREG (mode) || S_ISCHR (mode) || S_ISBLK (mode) || S_ISSOCK (mode)
    || S_ISFIFO (mode)] *)
Definition carries_data (m : Z) : bool :=
  S_ISREG m || S_ISCHR m || S_ISBLK m || S_ISSOCK m || S_ISFIFO m.

(** [inHeader = (size == 0)? TRUE : FALSE; dataCc = size;] *)
Definition expectData (size : Z) (g : globals) : globals :=
  set_dataCc size (set_inHeader (size =? 0) g).

Section Reader.
(** The results of the system calls made while extracting. *)
Variable sys : syscall -> Z.

Definition call (c : syscall) (g : globals) : Z * globals :=
  (sys c, log (Call c) g).

(** [utime (outName, &utb); chown (outName, uid, gid);
    chmod (outName, mode);] *)
Definition restoreAttributes (g : globals) : globals :=
  let g := log (Call (Sys_utime (cstring (outName g)) (mtime g))) g in
  let g := log (Call (Sys_chown (cstring (outName g)) (uid g) (gid g))) g in
  log (Call (Sys_chmod (cstring (outName g)) (mode g))) g.

(** The part of [readHeader] that lists an entry ([extractFlag==FALSE]). *)
Definition listEntry (hp : list Z) (size major minor : Z) (g : globals)
  : globals :=
  let g :=
    if verboseFlag g
    then log (ListVerbose (mode g) (uid g) (gid g)
                (if S_ISCHR (mode g) || S_ISBLK (mode g)
                 then Some (major, minor) else None)
                size (mtime g)) g
    else g in
  let g := log (ListName (cstring (outName g))) g in
  let g :=
    if hardLink hp then log (ListLink (hdr_linkName hp)) g
    else if softLink hp then log (ListSymlink (hdr_linkName hp)) g
    else if carries_data (mode g) then expectData size g
    else g in
  log ListEnd g.

(** The part of [readHeader] that extracts an entry. *)
Definition extractEntry (hp : list Z) (size major minor : Z) (g : globals)
  : globals :=
  let name := cstring (outName g) in
  let g := if verboseFlag g then log (Extracting name) g else g in
  if hardLink hp then
    let '(r, g) := call (Sys_link (hdr_linkName hp) name) g in
    if r <? 0 then log (Perror (Some name)) g
    else restoreAttributes g
  else if softLink hp then
    let '(r, g) := call (Sys_symlink (hdr_linkName hp) name) g in
    if r <? 0 then log (Perror (Some name)) g
    else log (Call (Sys_lchown name (uid g) (gid g))) g
  else
    let g := log (Call (Sys_umask 0)) g in
    (* If the file is a directory, then just create the path. *)
    let '(created, g) :=
      if S_ISDIR (mode g)
      then let '(r, g') := call (Sys_createPath name (mode g)) g in
           (r =? 1, g')
      else (false, g) in
    if created then restoreAttributes g
    else
      (* There is a file to write. *)
      let g := log (Call (Sys_createPath name 511)) g in
      let g := expectData size g in
      (* Start the output file. *)
      let '(devFileFlag, failed, g) :=
        if tostdoutFlag g then (false, false, set_outFd 1 g)
        else
          let '(devFileFlag, (r, g)) :=
            if S_ISCHR (mode g) || S_ISBLK (mode g) || S_ISSOCK (mode g)
            then (true, call (Sys_mknod name (mode g) major minor) g)
            else if S_ISFIFO (mode g)
            then (true, call (Sys_mkfifo name (mode g)) g)
            else (false, call (Sys_open name (mode g)) g) in
          let g := set_outFd (to_int r) g in
          if outFd g <? 0
          then (devFileFlag, true,
                set_skipFileFlag true (log (Perror (Some name)) g))
          else (devFileFlag, false, restoreAttributes g) in
      if failed then g
      else if (size =? 0) && negb (tostdoutFlag g) && negb devFileFlag
      then set_outFd (-1) (log (Call (Sys_close (outFd g))) g)
      else g.

(** The steps of [readHeader] on a header whose fields decode. *)

(** [if (outName[strlen (outName) - 1] == '/') mode |= S_IFDIR;] *)
Definition checkDirectory (g : globals) : globals :=
  if index (outName g) (strlen (outName g) - 1) =? SLASH
  then set_mode (Z.lor (mode g) S_IFDIR) g
  else g.

(** Check for absolute paths in the file: warn once and make them
    relative. *)
Definition stripRoot (g : globals) : globals :=
  if deref (outName g) =? SLASH then
    let g := set_outName (skipSlashes (outName g)) g in
    let g := if warnedRoot g then g else log msg_absolute_path g in
    set_warnedRoot true g
  else g.

(** The file is not wanted: set up to skip it. *)
Definition skipEntry (hp : list Z) (size : Z) (g : globals) : globals :=
  let g :=
    if negb (hardLink hp) && negb (softLink hp) && carries_data (mode g)
    then expectData size g
    else g in
  set_skipFileFlag true g.

Definition handleEntry (hp : list Z) (fileCount : Z)
    (fileTable : list (list Z)) (size major minor : Z) (g : globals)
  : globals :=
  (* See if we want this file to be restored. *)
  if negb (wantFileName (outName g) fileCount fileTable)
  then skipEntry hp size g
  else if negb (extractFlag g) then listEntry hp size major minor g
  else extractEntry hp size major minor g.

(** *** readHeader

    Examine the header block found at [hp]; [fileCount] and [fileTable]
    are the names given on the command line. *)
Definition readHeader (hp : list Z) (fileCount : Z)
    (fileTable : list (list Z)) (g : globals) : globals :=
  let g := set_outName hp g in
  if deref (outName g) =? 0 then
    let '(empty, rest) := scanEmpty TAR_BLOCK_SIZE (outName g) in
    let g := set_outName rest g in
    if empty then set_eofFlag true g else g
  else
    (* Extract the encoded information and check it. *)
    let g := set_mode (to_int (hdr_mode hp)) g in
    let g := set_uid (to_int (hdr_uid hp)) g in
    let g := set_gid (to_int (hdr_gid hp)) g in
    let size := hdr_size hp in
    let g := set_mtime (hdr_mtime hp) g in
    let checkSum := to_int (hdr_checkSum hp) in
    let major := to_uint (hdr_devMajor hp) in
    let minor := to_uint (hdr_devMinor hp) in
    if (mode g <? 0) || (uid g <? 0) || (gid g <? 0) || (size <? 0) then
      let g := if badHeader g then g else log msg_bad_header g in
      set_badHeader true g
    else
      let g := set_skipFileFlag false (set_badHeader false g) in
      handleEntry hp fileCount fileTable size major minor
        (stripRoot (checkDirectory g)).

(** *** readData

    Handle [count] bytes of file data found at [cp]. *)
Definition readData (cp : list Z) (count : Z) (g : globals) : globals :=
  let g := set_dataCc (wrap_long (dataCc g - count)) g in
  let g := if dataCc g <=? 0 then set_inHeader true g else g in
  if negb (extractFlag g) || skipFileFlag g then g
  else
    let '(r, g) :=
      call (Sys_fullWrite (outFd g) (firstn (Z.to_nat count) cp)) g in
    if r <? 0 then
      let g := log (Perror (Some (cstring (outName g)))) g in
      let g := if tostdoutFlag g then g
               else set_outFd (-1) (log (Call (Sys_close (outFd g))) g) in
      set_skipFileFlag true g
    else if (dataCc g <=? 0) && negb (tostdoutFlag g) then
      let '(r, g) := call (Sys_close (outFd g)) g in
      let g := if r =? 0 then g
               else log (Perror (Some (cstring (outName g)))) g in
      set_outFd (-1) (restoreAttributes g)
    else g.

(** *** readTarFile *)

(** [BUF_SIZE] comes from internal.h, which is not part of the sources:
    it is a parameter here. The archive is read in chunks of that many
    bytes, which are then processed in tar blocks. *)
Variable BUF_SIZE : nat.

(** The locals of [readTarFile] next to the statics: the descriptor
    [tarFd], the buffer, the position [cp] in it (as the bytes from [cp]
    to the end of the buffer) and the count [inCc]. *)
Record reader := mkReader {
  tarIn : source;
  buf : list Z;
  cp : list Z;
  inCc : Z;
  statics : globals
}.

Inductive outcome : Type :=
| Continue (r : reader)
| Done (r : reader).

(** [outName] points into [buf]: a pointer into the buffer keeps its
    place when the buffer is filled again, and then sees the new bytes.
    [p] is what was seen from the pointer on in the buffer [old]. *)
Definition repoint (old new p : list Z) : list Z :=
  skipn (length old - length p) new.

(** One turn of [while (eofFlag==FALSE)]. *)
Definition readTarFile_step (fileCount : Z) (fileTable : list (list Z))
    (r : reader) : outcome :=
  (* Read the next block of data if necessary. *)
  let refill :=
    if inCc r <=? 0 then
      let '(n, bytes, src) := fullRead (tarIn r) BUF_SIZE in
      let buf' := bytes ++ skipn (length bytes) (buf r) in
      let g := set_outName (repoint (buf r) buf' (outName (statics r)))
                 (statics r) in
      let r' := mkReader src buf' buf' n g in
      if n <? 0 then
        Done (mkReader src buf' buf' n
                (set_errorFlag true (log (Perror (tarName g)) g)))
      else if n =? 0 then
        Done (mkReader src buf' buf' n
                (set_errorFlag true (log msg_unexpected_eof g)))
      else Continue r'
    else Continue r in
  match refill with
  | Done r => Done r
  | Continue r =>
      if inHeader (statics r) then
        (* If we are expecting a header block then examine it. *)
        Continue (mkReader (tarIn r) (buf r) (skipn TAR_BLOCK_SIZE (cp r))
                    (inCc r - Z.of_nat TAR_BLOCK_SIZE)
                    (readHeader (cp r) fileCount fileTable (statics r)))
      else
        (* We are currently handling the data for a file. *)
        let cc := inCc r in
        let cc := if cc >? dataCc (statics r)
                  then to_int (dataCc (statics r)) else cc in
        let g := readData (cp r) cc (statics r) in
        let cc :=
          if cc mod Z.of_nat TAR_BLOCK_SIZE =? 0 then cc
          else cc + (Z.of_nat TAR_BLOCK_SIZE
                     - cc mod Z.of_nat TAR_BLOCK_SIZE) in
        Continue (mkReader (tarIn r) (buf r) (skipn (Z.to_nat cc) (cp r))
                    (inCc r - cc) g)
  end.

Fixpoint readTarFile_loop (fuel : nat) (fileCount : Z)
    (fileTable : list (list Z)) (r : reader) : option reader :=
  match fuel with
  | O => None
  | S fuel' =>
      if eofFlag (statics r) then Some r
      else
        match readTarFile_step fileCount fileTable r with
        | Continue r' => readTarFile_loop fuel' fileCount fileTable r'
        | Done r' => Some r'
        end
  end.

(** [archive] is what opening the tar file gives ([None] when [open]
    fails), [buf0] the initial contents of the local buffer. The result
    is [None] when [fuel] turns of the loop do not reach its end. *)
Definition readTarFile (fuel : nat) (fileCount : Z)
    (fileTable : list (list Z)) (archive : option source) (buf0 : list Z)
    (g : globals)
  : option globals :=
  let g := set_skipFileFlag false g in
  let g := set_badHeader false g in
  let g := set_warnedRoot false g in
  let g := set_eofFlag false g in
  let g := set_inHeader true g in
  let g := set_dataCc 0 g in
  let g := set_outFd (-1) g in
  match archive with
  | None => Some (set_errorFlag true (log (Perror (tarName g)) g))
  | Some src =>
      match
        readTarFile_loop fuel fileCount fileTable (mkReader src buf0 buf0 0 g)
      with
      | None => None
      | Some r =>
          let g := statics r in
          (* Close the output file if needed. *)
          Some (if negb (tostdoutFlag g) && (0 <=? outFd g)
                then log (Call (Sys_close (outFd g))) g
                else g)
      end
  end.
End Reader.

(** ** Octal fields, as the specification words them *)

Fixpoint dropSpaces (field : list Z) : list Z :=
  match field with
  | c :: field' => if c =? SPACE then dropSpaces field' else field
  | [] => []
  end.

Fixpoint takeDigits (field : list Z) : list Z :=
  match field with
  | c :: field' => if isOctal c then c :: takeDigits field' else []
  | [] => []
  end.

Fixpoint dropDigits (field : list Z) : list Z :=
  match field with
  | c :: field' => if isOctal c then dropDigits field' else field
  | [] => []
  end.

Definition octal_value (digits : list Z) : Z := fold_left accumulate digits 0.

(** Skip leading spaces; fail if no digit follows; accumulate octal
    digits; skip trailing spaces; then [verdict] decides on the bytes that
    remain in the field. *)
Definition parseOctal_with (verdict : list Z -> bool) (field : list Z) : Z :=
  let field1 := dropSpaces field in
  match takeDigits field1 with
  | [] => -1
  | digits =>
      if verdict (dropSpaces (dropDigits field1)) then octal_value digits
      else -1
  end.

(** Reading "fail if any trailing byte that is neither a space nor a null
    remains within the field" over all the remaining bytes. *)
Definition only_padding (rest : list Z) : bool :=
  forallb (fun c => (c =? SPACE) || (c =? 0)) rest.

Definition parseOctal_strict : list Z -> Z := parseOctal_with only_padding.

(** Reading it as the code does: only the byte at which the trailing
    spaces end is looked at, and a NUL there ends the field. *)
Definition ends_at_nul (rest : list Z) : bool :=
  match rest with
  | [] => true
  | c :: _ => c =? 0
  end.

Definition parseOctal : list Z -> Z := parseOctal_with ends_at_nul.

(** ** Vocabulary of the statements *)

(** A buffer of the size of [TarHeader] that holds bytes. *)
Definition header_shaped (header : list Z) : Prop :=
  length header = sizeof_TarHeader /\ Forall is_byte header.

(** The header just before its checksum is computed: all fields stored and
    the checksum field blanked. *)
Definition blankedHeader (fileName : list Z) (statbuf : stat) : list Z :=
  poke (fillHeader fileName statbuf) off_checkSum (repeat SPACE sz_checkSum).

(** The checksum as the specification words it: the sum of the bytes of
    a block, taken over the block with its checksum field set to
    spaces. *)
Definition byteSum (block : list Z) : Z := fold_right Z.add 0 block.

Definition blankChecksum (block : list Z) : list Z :=
  firstn off_checkSum block ++ repeat SPACE sz_checkSum
    ++ skipn (off_checkSum + sz_checkSum) block.

(** The archive can be written: no error so far, and the descriptor takes
    whatever it is given. *)
Definition usable (g : globals) : Prop :=
  errorFlag g = false /\ room (tarOut g) = None.

(** The bytes written to the archive so far. *)
Definition emitted (g : globals) : list Z := written (tarOut g).

(** The number of zero bytes that pad [len] bytes to whole tar blocks. *)
Definition padding (len : nat) : nat :=
  if (len mod TAR_BLOCK_SIZE =? 0)%nat then O
  else (TAR_BLOCK_SIZE - len mod TAR_BLOCK_SIZE)%nat.

(** The statics when [tar_main] has parsed its options: the flags and the
    archive name as given, everything else zero. [out] is the descriptor
    that an archive would be written to. *)
Definition startup (listing extract create verbose tostdout : bool)
    (name : option (list Z)) (out : sink) : globals :=
  mkGlobals listing extract create verbose tostdout
    false false false false false false 0 0 [] 0 0 0 0 name 0 0 out [].

(** A descriptor that accepts everything, with nothing written yet. *)
Definition fresh_sink : sink := mkSink [] None (-1).

(** What the loop of [saveRegularFile] writes for a count of [n] bytes:
    the bytes the file still yields, at most [n], and zeroes up to the next
    block boundary after [n]. *)
Definition data_blocks (n : nat) (sawEof : bool) (fileFd : source) : list Z :=
  let bytes := if sawEof then [] else firstn n (pending fileFd) in
  bytes ++ repeat 0 (n + padding n - length bytes).




(** The archive has only grown, and can still be written. *)
Definition extends (g g' : globals) : Prop :=
  usable g' /\ exists out, emitted g' = emitted g ++ out.

(** *** Sample files and archives *)

Definition sample_stat : stat := mkStat 1 2 33188 1000 1000 4 946684800.


(** A regular file holding "abcd", and a name that [stat] does not find. *)
Definition hello_file : node :=
  Node (Some sample_stat) (Some sample_stat)
       (Some (mkSource (cstr "abcd") false)) None.

Definition missing_file : node := Node None None None None.

(** A new archive file, with an inode of its own. *)
Definition new_archive : target :=
  mkTarget fresh_sink (Some (mkStat 1 99 33188 1000 1000 0 946684800)).

Definition create_globals : globals :=
  startup false false true false false (Some (cstr "out.tar")) fresh_sink.

(** The block that [writeHeader] writes for a file. *)
Definition header_block (fileName : list Z) (statbuf : stat) : list Z :=
  fillHeader fileName statbuf
    ++ repeat 0 (TAR_BLOCK_SIZE - sizeof_TarHeader).

(** A block with a name and nothing else: its numeric fields are NULs. *)
Definition noise_block : list Z := poke (repeat 0 TAR_BLOCK_SIZE) 0 (cstr "x").

(** The header of an empty file "a". *)
Definition empty_file_block : list Z :=
  header_block (cstr "a") (mkStat 1 2 33188 1000 1000 0 946684800).

(** The header of "a" with a modification time that is no octal number;
    the device fields are NULs, as [writeHeader] leaves them. *)
Definition odd_mtime_block : list Z :=
  poke empty_file_block off_mtime (cstr "yesterday").

(** A header named "d/" whose mode field holds the type bits of a regular
    file (0100644). *)
Definition slash_regular_block : list Z :=
  poke (header_block (cstr "d/") sample_stat) off_mode (cstr "0100644" ++ [0]).

(** No system call fails. *)
Definition sys_ok (c : syscall) : Z :=
  match c with
  | Sys_createPath _ _ => 1
  | Sys_mknod _ _ _ _ | Sys_mkfifo _ _ | Sys_open _ _ => 3
  | Sys_fullWrite _ data => Z.of_nat (length data)
  | _ => 0
  end.

Definition list_globals : globals :=
  startup true false false false false (Some (cstr "in.tar")) fresh_sink.

Definition extract_globals : globals :=
  startup false true false false false (Some (cstr "in.tar")) fresh_sink.

(** The bytes handed to [fullWrite] for extracted files, in order. *)
Fixpoint extracted_bytes (t : list event) : list Z :=
  match t with
  | [] => []
  | Call (Sys_fullWrite _ data) :: t' => data ++ extracted_bytes t'
  | _ :: t' => extracted_bytes t'
  end.

(** The number of bad-header warnings in a trace. *)
Fixpoint bad_header_warnings (t : list event) : nat :=
  match t with
  | [] => O
  | Stderr text :: t' =>
      (if String.eqb text "Bad tar header, skipping" then 1 else 0)%nat
        + bad_header_warnings t'
  | _ :: t' => bad_header_warnings t'
  end.

(** The name under which [readHeader] handles the entry at [hp]: the name
    field without its leading slashes. *)
Definition entryName (hp : list Z) : list Z :=
  if deref hp =? SLASH then skipSlashes hp else hp.

(** The four fields that [readHeader] checks decode: none of them is -1. *)
Definition fields_decode (hp : list Z) : bool :=
  (0 <=? hdr_mode hp) && (0 <=? hdr_uid hp) && (0 <=? hdr_gid hp)
    && (0 <=? hdr_size hp).

(** Whether the reader leaves the header state after an entry that is
    listed or skipped: only for an entry that is no link and whose mode
    says that it carries data. *)
Definition awaits_data (hp : list Z) (m : Z) : bool :=
  negb (hardLink hp) && negb (softLink hp) && carries_data m.

(** The statics once [readHeader] has decoded the fields of the header at
    [hp], before it checks them. *)
Definition decodeFields (hp : list Z) (g : globals) : globals :=
  set_mtime (hdr_mtime hp)
    (set_gid (to_int (hdr_gid hp))
       (set_uid (to_int (hdr_uid hp))
          (set_mode (to_int (hdr_mode hp)) (set_outName hp g)))).

(** The statics when the entry is handed to [handleEntry]. *)
Definition prepareEntry (hp : list Z) (g : globals) : globals :=
  stripRoot
    (checkDirectory
       (set_skipFileFlag false (set_badHeader false (decodeFields hp g)))).

(** An archive of a bad block, the header of an empty file, another bad
    block and the end marker. *)
Definition noisy_archive : list Z :=
  noise_block ++ empty_file_block ++ noise_block ++ repeat 0 TAR_BLOCK_SIZE.

(** The archive that this program writes for the file "hello.txt". *)
Definition own_archive : list Z :=
  match
    writeTarFile 255 1 [(cstr "hello.txt", hello_file)] (Some new_archive)
      create_globals
  with
  | Some g => emitted g
  | None => []
  end.

(** ** Vocabulary of the further properties *)

(** What a header field holds after [putOctal (field, len, value)] on a
    zeroed header: the encoding, or the NULs it had when the value does
    not fit. *)
Definition stored (len : nat) (value : Z) : list Z :=
  match putOctal len value with
  | Some field => field
  | None => repeat 0 len
  end.

(** Ninety-nine letters and a slash: the name under which a directory
    with a name of 99 characters is archived. *)
Definition long_directory_name : list Z := repeat 97 99 ++ [SLASH].

(** All the bytes of a block are NULs. *)
Definition all_zero (block : list Z) : bool :=
  forallb (fun c => c =? 0) block.

(** The mode with which [readHeader] handles the entry at [hp]: the mode
    field, with the directory bit when the name ends with a slash. *)
Definition entryMode (hp : list Z) : Z :=
  if index hp (strlen hp - 1) =? SLASH
  then Z.lor (hdr_mode hp) S_IFDIR else hdr_mode hp.

(** Sample headers: the one that [writeHeader] writes for the file
    "hello.txt", the one it writes for a directory "dir/" whose [st_size]
    is 4096, and a header with the type flag of a symbolic link. *)
Definition hello_block : list Z := header_block (cstr "hello.txt") sample_stat.

Definition directory_stat : stat := mkStat 1 3 16877 1000 1000 4096 946684800.

Definition directory_block : list Z := header_block (cstr "dir/") directory_stat.

Definition symlink_block : list Z :=
  poke hello_block off_typeFlag [TAR_TYPE_SOFT_LINK].

(** A file system that refuses to create anything. *)
Definition sys_readonly (c : syscall) : Z :=
  match c with
  | Sys_createPath _ _ => 0
  | Sys_fullWrite _ data => Z.of_nat (length data)
  | _ => -1
  end.

(** [if (cc % TAR_BLOCK_SIZE) cc += TAR_BLOCK_SIZE - (cc % TAR_BLOCK_SIZE);]
    as the loop of [readTarFile] computes it. *)
Definition blockAlign (cc : Z) : Z :=
  if cc mod Z.of_nat TAR_BLOCK_SIZE =? 0 then cc
  else cc + (Z.of_nat TAR_BLOCK_SIZE - cc mod Z.of_nat TAR_BLOCK_SIZE).

(** The reader after the header of "hello.txt" in the archive that this
    program writes for it, when the file is extracted to descriptor 3:
    four bytes of data are expected, and two blocks are left in the
    buffer. *)
Definition data_reader : reader :=
  mkReader (mkSource [] false) own_archive (skipn TAR_BLOCK_SIZE own_archive)
    1024
    (set_outFd 3 (set_dataCc 4 (set_inHeader false extract_globals))).

(** The reader with a buffer of 512 bytes after the header of "hello.txt"
    in the same archive, when the file is extracted: the buffer is used
    up, and [outName] points to its start. *)
Definition refill_reader : reader :=
  mkReader (mkSource (skipn TAR_BLOCK_SIZE own_archive) false)
    (firstn TAR_BLOCK_SIZE own_archive) [] 0
    (readHeader sys_ok (firstn TAR_BLOCK_SIZE own_archive) 0 []
       extract_globals).

(** A descriptor that takes no more bytes; a write to it gives
    [failure]. *)
Definition full_disk (failure : Z) : sink := mkSink [] (Some O) failure.


(** A message that the program itself writes to standard error. *)
Definition is_stderr (e : event) : bool :=
  match e with
  | Stderr _ | StderrFor _ _ => true
  | _ => false
  end.

Definition no_stderr (t : list event) : bool :=
  forallb (fun e => negb (is_stderr e)) t.

(** ** tar_main: the command line *)

Definition set_listFlag (v : bool) (g : globals) : globals :=
  mkGlobals v (extractFlag g) (createFlag g) (verboseFlag g)
    (tostdoutFlag g) (inHeader g) (badHeader g) (errorFlag g)
    (skipFileFlag g) (warnedRoot g) (eofFlag g) (dataCc g) (outFd g)
    (outName g) (mode g) (uid g) (gid g) (mtime g) (tarName g) (tarDev g)
    (tarInode g) (tarOut g) (trace g).

Definition set_extractFlag (v : bool) (g : globals) : globals :=
  mkGlobals (listFlag g) v (createFlag g) (verboseFlag g)
    (tostdoutFlag g) (inHeader g) (badHeader g) (errorFlag g)
    (skipFileFlag g) (warnedRoot g) (eofFlag g) (dataCc g) (outFd g)
    (outName g) (mode g) (uid g) (gid g) (mtime g) (tarName g) (tarDev g)
    (tarInode g) (tarOut g) (trace g).

Definition set_createFlag (v : bool) (g : globals) : globals :=
  mkGlobals (listFlag g) (extractFlag g) v (verboseFlag g)
    (tostdoutFlag g) (inHeader g) (badHeader g) (errorFlag g)
    (skipFileFlag g) (warnedRoot g) (eofFlag g) (dataCc g) (outFd g)
    (outName g) (mode g) (uid g) (gid g) (mtime g) (tarName g) (tarDev g)
    (tarInode g) (tarOut g) (trace g).

Definition set_verboseFlag (v : bool) (g : globals) : globals :=
  mkGlobals (listFlag g) (extractFlag g) (createFlag g) v
    (tostdoutFlag g) (inHeader g) (badHeader g) (errorFlag g)
    (skipFileFlag g) (warnedRoot g) (eofFlag g) (dataCc g) (outFd g)
    (outName g) (mode g) (uid g) (gid g) (mtime g) (tarName g) (tarDev g)
    (tarInode g) (tarOut g) (trace g).

Definition set_tarName (v : option (list Z)) (g : globals) : globals :=
  mkGlobals (listFlag g) (extractFlag g) (createFlag g) (verboseFlag g)
    (tostdoutFlag g) (inHeader g) (badHeader g) (errorFlag g)
    (skipFileFlag g) (warnedRoot g) (eofFlag g) (dataCc g) (outFd g)
    (outName g) (mode g) (uid g) (gid g) (mtime g) v (tarDev g)
    (tarInode g) (tarOut g) (trace g).

(** The option letters. *)
Definition LETTER_f : Z := 102.
Definition LETTER_t : Z := 116.
Definition LETTER_x : Z := 120.
Definition LETTER_c : Z := 99.
Definition LETTER_v : Z := 118.
Definition LETTER_O : Z := 79.
Definition DASH : Z := 45.

(** How [tar_main] goes on when it has parsed the options, or how it ends
    before. [argc] and [argv] are the locals at that point; [argv] is the
    list of the arguments from the pointer on, or [None] when the pointer
    has moved past the NULL that ends the argument vector. [usage] is part
    of utility.c, which is not among the sources: the model ends where it
    is called. *)
Inductive verdict : Type :=
| CallUsage                    (* usage (tar_usage) *)
| OnlyOneF                     (* "Only one 'f' option allowed", exit (FALSE) *)
| FlagError                    (* "Exactly one of 'c', 'x' or 't' must be
                                  specified", exit (FALSE) *)
| UnknownFlag (c : Z)          (* "Unknown tar flag '%c'", exit (FALSE) *)
| OutOfBounds                  (* [*argv] is read past the argument vector *)
| WriteTarFile (g : globals) (argc : Z) (argv : option (list (list Z)))
| ReadTarFile (g : globals) (argc : Z) (argv : option (list (list Z))).

(** [for (; *options; options++) switch ( *options) ...], followed by the
    choice between [writeTarFile (argc, argv)] and
    [readTarFile (argc, argv)]. *)
Fixpoint parseOptions (options : list Z) (g : globals) (argc : Z)
    (argv : option (list (list Z))) : verdict :=
  match options with
  | [] => if createFlag g then WriteTarFile g argc argv
          else ReadTarFile g argc argv
  | c :: options' =>
      if c =? 0
      then if createFlag g then WriteTarFile g argc argv
           else ReadTarFile g argc argv
      else if c =? LETTER_f then
        match tarName g with
        | Some _ => OnlyOneF
        | None =>
            (* tarName = *argv++; argc--; *)
            match argv with
            | Some (name :: argv') =>
                parseOptions options' (set_tarName (Some name) g) (argc - 1)
                  (Some argv')
            | Some [] =>
                parseOptions options' (set_tarName None g) (argc - 1) None
            | None => OutOfBounds
            end
        end
      else if c =? LETTER_t then
        if extractFlag g || createFlag g then FlagError
        else parseOptions options' (set_listFlag true g) argc argv
      else if c =? LETTER_x then
        if listFlag g || createFlag g then FlagError
        else parseOptions options' (set_extractFlag true g) argc argv
      else if c =? LETTER_c then
        if extractFlag g || listFlag g then FlagError
        else parseOptions options' (set_createFlag true g) argc argv
      else if c =? LETTER_v then
        parseOptions options' (set_verboseFlag true g) argc argv
      else if c =? LETTER_O then
        parseOptions options' (set_tostdoutFlag true g) argc argv
      else if c =? DASH then CallUsage
      else UnknownFlag c
  end.

(** [args] holds the arguments after the name of the program ([argv] after
    [argc--; argv++]); the statics other than those that [tar_main] sets
    are zero when the program starts. *)
Definition tar_main (args : list (list Z)) : verdict :=
  match args with
  | [] => CallUsage
  | word :: argv' =>
      let g := startup false false false false false None fresh_sink in
      let options := if deref word =? DASH then tl word else word in
      parseOptions options g (Z.of_nat (length argv')) (Some argv')
  end.

(** The option letters that [tar_main] goes through. *)
Definition optionLetters (args : list (list Z)) : list Z :=
  match args with
  | [] => []
  | word :: _ => cstring (if deref word =? DASH then tl word else word)
  end.

(** The statics, [argc] and [argv] with which the archive is written or
    read, when the command line gets that far. *)
Definition launched (v : verdict)
  : option (globals * Z * option (list (list Z))) :=
  match v with
  | WriteTarFile g argc argv | ReadTarFile g argc argv => Some (g, argc, argv)
  | _ => None
  end.

Definition writes (v : verdict) : bool :=
  match v with
  | WriteTarFile _ _ _ => true
  | _ => false
  end.

(** How many of [listFlag], [extractFlag] and [createFlag] are set. *)
Definition modeCount (g : globals) : nat :=
  (if listFlag g then 1 else 0) + (if extractFlag g then 1 else 0)
  + (if createFlag g then 1 else 0).

Definition has (c : Z) (letters : list Z) : bool :=
  existsb (fun d => d =? c) letters.

(** Sample command lines: "tar vf a.tar", without any of the letters c, x
    and t, and "tar xf", without the name of an archive. *)
Definition bare_command : list (list Z) := [cstr "vf"; cstr "a.tar"].

Definition nameless_command : list (list Z) := [cstr "xf"].

(** ** An archive of one file *)

(** The archive of one regular file: its header, its data padded with
    zeroes to whole blocks, and the block of zeroes that ends the
    archive. *)
Definition archive_of (fileName : list Z) (statbuf : stat) (data : list Z)
  : list Z :=
  header_block fileName statbuf
    ++ data ++ repeat 0 (padding (length data))
    ++ repeat 0 TAR_BLOCK_SIZE.

(** A regular file that holds [data]. *)
Definition regular_file (statbuf : stat) (data : list Z) : node :=
  Node (Some statbuf) (Some statbuf) (Some (mkSource data false)) None.

(** * Properties *)

(** ** The model at work

    Archiving "hello.txt" (four bytes) gives a header block, one data
    block and the end marker; extracting that archive writes the four
    bytes back and reaches the end marker without an error. *)
Example archive_and_extract :
  length own_archive = 1536%nat
  /\ firstn 4 (skipn 512 own_archive) = cstr "abcd"
  /\ skipn 1024 own_archive = repeat 0 512
  /\ exists g,
       readTarFile sys_ok 2048 10 0 [] (Some (mkSource own_archive false))
         (repeat 0 2048) extract_globals = Some g
       /\ extracted_bytes (trace g) = cstr "abcd"
       /\ eofFlag g = true /\ errorFlag g = false.
Proof.
  split; [vm_compute; reflexivity|].
  split; [vm_compute; reflexivity|].
  split; [vm_compute; reflexivity|].
  eexists. split; [vm_compute; reflexivity|].
  repeat split; vm_compute; reflexivity.
Qed.

(** ** Octal fields *)

Lemma skipSpaces_dropSpaces (field rest : list Z) :
  skipSpaces (length field) (field ++ rest)
  = (length (dropSpaces field), dropSpaces field ++ rest).
Proof.
  induction field as [|c field IH]; simpl; [reflexivity|].
  unfold deref; simpl. destruct (c =? SPACE); [apply IH | reflexivity].
Qed.

Lemma readDigits_takeDigits (field rest : list Z) (val : Z) :
  readDigits (length field) (field ++ rest) val
  = (fold_left accumulate (takeDigits field) val,
     length (dropDigits field), dropDigits field ++ rest).
Proof.
  revert val. induction field as [|c field IH]; intros val; simpl;
    [reflexivity|].
  unfold deref; simpl. destruct (isOctal c); [apply IH | reflexivity].
Qed.

Lemma takeDigits_nil_head (field : list Z) :
  takeDigits field = [] -> field = [] \/ isOctal (deref field) = false.
Proof.
  destruct field as [|c field]; simpl; [now left|].
  unfold deref; simpl. destruct (isOctal c); [discriminate | now right].
Qed.

Lemma takeDigits_cons_head (field : list Z) (d : Z) (ds : list Z) :
  takeDigits field = d :: ds -> field <> [] /\ isOctal (deref field) = true.
Proof.
  destruct field as [|c field]; simpl; [discriminate|].
  unfold deref; simpl. destruct (isOctal c) eqn:E; [|discriminate].
  intros _. split; [discriminate | reflexivity].
Qed.

Lemma dropSpaces_length_0 (field : list Z) :
  (length (dropSpaces field) =? 0)%nat = true -> dropSpaces field = [].
Proof.
  destruct (dropSpaces field); [reflexivity | discriminate].
Qed.

Lemma getOctal_parseOctal (field rest : list Z) :
  getOctal (field ++ rest) (length field) = parseOctal field.
Proof.
  unfold getOctal, parseOctal, parseOctal_with.
  rewrite skipSpaces_dropSpaces.
  set (field1 := dropSpaces field).
  destruct (takeDigits field1) as [|d ds] eqn:Hd.
  - destruct (takeDigits_nil_head _ Hd) as [-> | H0]; [reflexivity|].
    destruct field1 as [|c f1]; [reflexivity|].
    simpl length. simpl Nat.eqb. unfold deref in *; simpl in *.
    now rewrite H0.
  - destruct (takeDigits_cons_head _ _ _ Hd) as [Hne Ho].
    destruct field1 as [|c f1] eqn:Ef; [congruence|].
    replace (deref ((c :: f1) ++ rest)) with (deref (c :: f1)) by reflexivity.
    rewrite Ho. simpl length at 1. simpl Nat.eqb. simpl orb. cbv iota.
    rewrite readDigits_takeDigits, Hd.
    rewrite skipSpaces_dropSpaces.
    unfold octal_value, ends_at_nul.
    destruct (dropSpaces (dropDigits (c :: f1))) as [|e rest']; simpl.
    + reflexivity.
    + unfold deref; simpl. destruct (e =? 0); reflexivity.
Qed.

Lemma wrap_long_small (z : Z) : 0 <= z <= LONG_MAX -> wrap_long z = z.
Proof.
  unfold wrap_long, LONG_MAX. intros H.
  rewrite Z.mod_small; lia.
Qed.

Lemma octal_digits_isOctal (fuel : nat) (u : Z) :
  0 <= u -> Forall (fun c => isOctal c = true) (octal_digits fuel u).
Proof.
  revert u. induction fuel as [|fuel IH]; intros u Hu; cbn [octal_digits];
    [constructor|].
  apply Forall_app. split.
  - destruct (u <? 8); [constructor|].
    apply IH. apply Z.div_pos; lia.
  - constructor; [|constructor].
    unfold isOctal. pose proof (Z.mod_pos_bound u 8 ltac:(lia)).
    apply andb_true_iff; split; apply Z.leb_le; lia.
Qed.

Lemma octal_digits_not_nil (fuel : nat) (u : Z) :
  octal_digits (S fuel) u <> [].
Proof.
  cbn [octal_digits]. intros H. apply app_eq_nil in H.
  destruct H; discriminate.
Qed.

Lemma octal_digits_value (fuel : nat) (u : Z) :
  0 <= u < 8 ^ Z.of_nat fuel -> u <= LONG_MAX ->
  octal_value (octal_digits fuel u) = u.
Proof.
  unfold octal_value.
  revert u. induction fuel as [|fuel IH]; intros u Hu Hmax.
  - simpl in *. lia.
  - cbn [octal_digits]. rewrite fold_left_app. cbn [fold_left].
    assert (Hprev :
      fold_left accumulate (if u <? 8 then [] else octal_digits fuel (u / 8)) 0
      = u / 8).
    { destruct (u <? 8) eqn:E.
      - apply Z.ltb_lt in E. simpl. symmetry. apply Z.div_small. lia.
      - apply Z.ltb_ge in E. apply IH.
        + split; [apply Z.div_pos; lia|].
          apply Z.div_lt_upper_bound; [lia|].
          rewrite Nat2Z.inj_succ, Z.pow_succ_r in Hu; lia.
        + pose proof (Z.div_le_upper_bound u 8 u ltac:(lia) ltac:(lia)).
          lia. }
    rewrite Hprev. unfold accumulate.
    replace (u / 8 * 8 + (48 + u mod 8) - 48) with u
      by (pose proof (Z.div_mod u 8 ltac:(lia)); lia).
    apply wrap_long_small. lia.
Qed.

(** The number of digits printed is the least [n >= 1] with [u < 8 ^ n]. *)
Lemma octal_digits_length (fuel : nat) (u : Z) (n : nat) :
  0 <= u < 8 ^ Z.of_nat fuel -> (1 <= n)%nat ->
  (length (octal_digits fuel u) <= n)%nat <-> u < 8 ^ Z.of_nat n.
Proof.
  revert u n. induction fuel as [|fuel IH]; intros u n Hu Hn.
  - simpl in Hu. simpl.
    assert (0 < 8 ^ Z.of_nat n) by (apply Z.pow_pos_nonneg; lia). lia.
  - cbn [octal_digits]. rewrite length_app. cbn [length].
    destruct (u <? 8) eqn:E.
    + apply Z.ltb_lt in E. simpl. split; [intros _ | lia].
      assert (8 ^ 1 <= 8 ^ Z.of_nat n) by (apply Z.pow_le_mono_r; lia).
      lia.
    + apply Z.ltb_ge in E.
      assert (Hq : 0 <= u / 8 < 8 ^ Z.of_nat fuel).
      { split; [apply Z.div_pos; lia|].
        apply Z.div_lt_upper_bound; [lia|].
        rewrite Nat2Z.inj_succ, Z.pow_succ_r in Hu; lia. }
      destruct n as [|n]; [lia|].
      destruct n as [|n].
      * simpl Z.of_nat. split; [|lia].
        pose proof (octal_digits_not_nil (pred fuel) (u / 8)) as Hne.
        destruct fuel as [|fuel']; [simpl in Hq; lia|].
        simpl pred in Hne.
        destruct (octal_digits (S fuel') (u / 8)); [congruence | simpl; lia].
      * specialize (IH (u / 8) (S n) Hq ltac:(lia)).
        rewrite (Nat2Z.inj_succ (S n)), Z.pow_succ_r by lia.
        split; intros H.
        -- assert (u / 8 < 8 ^ Z.of_nat (S n)) by (apply IH; lia).
           pose proof (Z.div_mod u 8 ltac:(lia)).
           pose proof (Z.mod_pos_bound u 8 ltac:(lia)). lia.
        -- assert (u / 8 < 8 ^ Z.of_nat (S n)).
           { apply Z.div_lt_upper_bound; lia. }
           apply IH in H0. lia.
Qed.

Lemma octal_value_zeros (n : nat) (digits : list Z) :
  octal_value (repeat 48 n ++ digits) = octal_value digits.
Proof.
  unfold octal_value. rewrite fold_left_app. f_equal.
  induction n as [|n IH]; simpl; [reflexivity|].
  replace (accumulate 0 48) with 0 by reflexivity. exact IH.
Qed.

Lemma takeDigits_app (digits tail : list Z) :
  Forall (fun c => isOctal c = true) digits ->
  takeDigits (digits ++ tail) = digits ++ takeDigits tail.
Proof.
  induction 1 as [|c digits Hc _ IH]; simpl; [reflexivity|].
  now rewrite Hc, IH.
Qed.

Lemma dropDigits_app (digits tail : list Z) :
  Forall (fun c => isOctal c = true) digits ->
  dropDigits (digits ++ tail) = dropDigits tail.
Proof.
  induction 1 as [|c digits Hc _ IH]; simpl; [reflexivity|].
  now rewrite Hc, IH.
Qed.

Lemma cstring_until_nul (chars rest : list Z) :
  Forall (fun c => c <> 0) chars -> cstring (chars ++ 0 :: rest) = chars.
Proof.
  induction 1 as [|c chars Hc _ IH]; simpl; [reflexivity|].
  destruct (c =? 0) eqn:E; [apply Z.eqb_eq in E; contradiction|].
  now rewrite IH.
Qed.

Lemma isOctal_not_space (c : Z) : isOctal c = true -> (c =? SPACE) = false.
Proof.
  unfold isOctal, SPACE. intros H. apply andb_true_iff in H.
  destruct H as [H _]. apply Z.leb_le in H. apply Z.eqb_neq. lia.
Qed.

Lemma isOctal_not_nul (c : Z) : isOctal c = true -> c <> 0.
Proof.
  unfold isOctal. intros H. apply andb_true_iff in H.
  destruct H as [H _]. apply Z.leb_le in H. lia.
Qed.

(** A field made of octal digits, optionally followed by a NUL, decodes to
    the value of the digits; so does the same field after one space. *)
Lemma parseOctal_digits (digits tail : list Z) :
  digits <> [] -> Forall (fun c => isOctal c = true) digits ->
  tail = [] \/ tail = [0] ->
  parseOctal (digits ++ tail) = octal_value digits
  /\ parseOctal (SPACE :: digits ++ tail) = octal_value digits.
Proof.
  intros Hne Hall Htail.
  assert (Hs : dropSpaces (digits ++ tail) = digits ++ tail).
  { destruct digits as [|d ds]; [congruence|].
    inversion Hall; subst. simpl. now rewrite isOctal_not_space. }
  assert (Ht : takeDigits tail = [] /\ dropSpaces (dropDigits tail) = tail).
  { destruct Htail as [-> | ->]; split; reflexivity. }
  destruct Ht as [Ht1 Ht2].
  assert (H : parseOctal (digits ++ tail) = octal_value digits).
  { unfold parseOctal, parseOctal_with. rewrite Hs.
    rewrite takeDigits_app, Ht1, app_nil_r by assumption.
    rewrite dropDigits_app, Ht2 by assumption.
    destruct digits as [|d ds]; [congruence|].
    destruct Htail as [-> | ->]; reflexivity. }
  split; [exact H|].
  unfold parseOctal, parseOctal_with in *. simpl dropSpaces. exact H.
Qed.

Lemma to_ulong_small (v : Z) : 0 <= v <= LONG_MAX -> to_ulong v = v.
Proof.
  unfold to_ulong, LONG_MAX. intros H. apply Z.mod_small. lia.
Qed.

Lemma to_ulong_nonneg (v : Z) : 0 <= to_ulong v.
Proof. unfold to_ulong. apply Z.mod_pos_bound. lia. Qed.

Lemma strlen_sprintf_octal (width : nat) (v : Z) :
  strlen (sprintf_octal width v)
  = S (width - length (octal_digits ULONG_OCTAL_DIGITS (to_ulong v))
       + length (octal_digits ULONG_OCTAL_DIGITS (to_ulong v))).
Proof.
  unfold strlen, sprintf_octal.
  set (ds := octal_digits ULONG_OCTAL_DIGITS (to_ulong v)).
  change ([SPACE] ++ repeat 48 (width - length ds) ++ ds ++ [0])
    with (SPACE :: (repeat 48 (width - length ds) ++ ds ++ [0])).
  rewrite app_assoc.
  change (SPACE :: (repeat 48 (width - length ds) ++ ds) ++ [0])
    with ((SPACE :: repeat 48 (width - length ds) ++ ds) ++ 0 :: []).
  rewrite cstring_until_nul.
  - simpl. now rewrite length_app, repeat_length.
  - constructor; [unfold SPACE; lia|].
    apply Forall_app; split.
    + apply Forall_forall. intros c Hc. apply repeat_spec in Hc. lia.
    + eapply Forall_impl; [|apply octal_digits_isOctal, to_ulong_nonneg].
      intros c. apply isOctal_not_nul.
Qed.

(** Decide the next comparison of lengths in the goal by arithmetic. *)
Ltac nat_ltb :=
  match goal with
  | |- context [(?a <? ?b)%nat] =>
      first [ replace (a <? b)%nat with true
                by (symmetry; apply Nat.ltb_lt; lia)
            | replace (a <? b)%nat with false
                by (symmetry; apply Nat.ltb_ge; lia) ];
      cbv beta iota zeta
  end.

(** The four outcomes of [putOctal], by the number of digits of the value. *)
Lemma putOctal_cases (len : nat) (v : Z) :
  let digits := octal_digits ULONG_OCTAL_DIGITS (to_ulong v) in
  ((length digits + 2 <= len)%nat ->
     putOctal len v
     = Some (SPACE :: repeat 48 (len - 2 - length digits) ++ digits ++ [0]))
  /\ ((length digits + 1 = len)%nat -> putOctal len v = Some (digits ++ [0]))
  /\ (length digits = len -> putOctal len v = Some digits)
  /\ ((len < length digits)%nat -> putOctal len v = None).
Proof.
  intros digits.
  assert (Hnd : (1 <= length digits)%nat).
  { unfold digits, ULONG_OCTAL_DIGITS.
    destruct (octal_digits 22 (to_ulong v)) eqn:E; [|simpl; lia].
    exfalso. exact (octal_digits_not_nil 21 _ E). }
  unfold putOctal. rewrite strlen_sprintf_octal. fold digits.
  unfold sprintf_octal. fold digits.
  cbn [app tl].
  repeat split; intros Hlen.
  - repeat nat_ltb. f_equal. apply firstn_all2. simpl.
    rewrite !length_app, repeat_length. simpl. lia.
  - replace (len - 2 - length digits)%nat with O by lia. cbn [repeat app].
    repeat nat_ltb. f_equal. apply firstn_all2. rewrite length_app. simpl. lia.
  - replace (len - 2 - length digits)%nat with O by lia. cbn [repeat app].
    repeat nat_ltb. f_equal.
    rewrite <- Hlen. rewrite firstn_app, firstn_all, Nat.sub_diag.
    simpl. apply app_nil_r.
  - replace (len - 2 - length digits)%nat with O by lia. cbn [repeat app].
    repeat nat_ltb. reflexivity.
Qed.

Lemma getOctal_whole_field (field : list Z) :
  getOctal field (length field) = parseOctal field.
Proof.
  rewrite <- (app_nil_r field) at 1. apply getOctal_parseOctal.
Qed.

(** [getOctal] reads the [len] bytes of the field and nothing after them. *)
Lemma getOctal_field_prefix (field rest : list Z) (len : nat) :
  length field = len -> getOctal (field ++ rest) len = getOctal field len.
Proof.
  intros <-. now rewrite getOctal_parseOctal, getOctal_whole_field.
Qed.

Lemma LONG_MAX_digits : LONG_MAX < 8 ^ Z.of_nat ULONG_OCTAL_DIGITS.
Proof. reflexivity. Qed.

(** What [putOctal] stores decodes to the value it was given. *)
Lemma putOctal_decodes (len : nat) (v : Z) (field : list Z) :
  0 <= v <= LONG_MAX -> putOctal len v = Some field ->
  length field = len /\ getOctal field len = v.
Proof.
  intros Hv Hput.
  pose proof (putOctal_cases len v) as (H1 & H2 & H3 & H4).
  rewrite to_ulong_small in H1, H2, H3, H4 by assumption.
  pose proof (octal_digits_isOctal ULONG_OCTAL_DIGITS v ltac:(lia)) as Hoct.
  assert (Hval : octal_value (octal_digits ULONG_OCTAL_DIGITS v) = v).
  { apply octal_digits_value; [|lia]. pose proof LONG_MAX_digits. lia. }
  assert (Hne : octal_digits ULONG_OCTAL_DIGITS v <> [])
    by apply octal_digits_not_nil.
  set (digits := octal_digits ULONG_OCTAL_DIGITS v) in *.
  destruct (Nat.lt_ge_cases len (length digits)) as [Hlt | Hge].
  { rewrite H4 in Hput by assumption. discriminate. }
  destruct (Nat.eq_dec (length digits) len) as [Heq | Hneq].
  { rewrite H3 in Hput by assumption. injection Hput as <-.
    split; [assumption|]. rewrite <- Heq, getOctal_whole_field.
    rewrite <- (app_nil_r digits).
    rewrite (proj1 (parseOctal_digits digits [] Hne Hoct (or_introl eq_refl))).
    exact Hval. }
  destruct (Nat.eq_dec (length digits + 1) len) as [Heq1 | Hneq1].
  { rewrite H2 in Hput by assumption. injection Hput as <-.
    assert (Hl : length (digits ++ [0]) = len)
      by (rewrite length_app; simpl; lia).
    split; [assumption|]. rewrite <- Hl, getOctal_whole_field.
    rewrite (proj1 (parseOctal_digits digits [0] Hne Hoct (or_intror eq_refl))).
    exact Hval. }
  rewrite H1 in Hput by lia. injection Hput as <-.
  set (k := (len - 2 - length digits)%nat).
  assert (Hl : length (SPACE :: repeat 48 k ++ digits ++ [0]) = len).
  { simpl. rewrite !length_app, repeat_length. simpl. unfold k. lia. }
  split; [assumption|]. rewrite <- Hl, getOctal_whole_field.
  rewrite app_assoc.
  assert (Hpad : Forall (fun c => isOctal c = true) (repeat 48 k ++ digits)).
  { apply Forall_app; split; [|assumption].
    apply Forall_forall. intros c Hc. apply repeat_spec in Hc. now subst c. }
  assert (Hpne : repeat 48 k ++ digits <> []).
  { intros E. apply app_eq_nil in E. destruct E; contradiction. }
  rewrite (proj2 (parseOctal_digits _ [0] Hpne Hpad (or_intror eq_refl))).
  rewrite octal_value_zeros. exact Hval.
Qed.

(** [putOctal] succeeds exactly on the values with at most [len] digits. *)
Lemma putOctal_succeeds_iff (len : nat) (v : Z) :
  (0 < len)%nat -> 0 <= v <= LONG_MAX ->
  (v < 8 ^ Z.of_nat len -> exists field, putOctal len v = Some field)
  /\ (8 ^ Z.of_nat len <= v -> putOctal len v = None).
Proof.
  intros Hlen Hv.
  pose proof (putOctal_cases len v) as (H1 & H2 & H3 & H4).
  rewrite to_ulong_small in H1, H2, H3, H4 by assumption.
  pose proof LONG_MAX_digits as Hmax.
  pose proof (octal_digits_length ULONG_OCTAL_DIGITS v len
                ltac:(lia) ltac:(lia)) as Hiff.
  set (digits := octal_digits ULONG_OCTAL_DIGITS v) in *.
  split; intros Hrange.
  - apply Hiff in Hrange.
    destruct (Nat.eq_dec (length digits) len) as [Heq | Hneq];
      [eexists; apply H3; assumption|].
    destruct (Nat.eq_dec (length digits + 1) len) as [Heq1 | Hneq1];
      [eexists; apply H2; assumption|].
    eexists; apply H1; lia.
  - apply H4. destruct (Nat.lt_ge_cases len (length digits)); [assumption|].
    apply Hiff in H. lia.
Qed.

(** ** The selection filter *)

Lemma cstring_nil_or_cons (s : list Z) :
  cstring s = []
  \/ exists c s', s = c :: s' /\ c <> 0 /\ cstring s = c :: cstring s'.
Proof.
  destruct s as [|c s']; [now left|]. simpl.
  destruct (c =? 0) eqn:E; [now left|].
  right. exists c, s'. apply Z.eqb_neq in E. auto.
Qed.

(** [memcmp] over the length of [pathName] succeeds exactly when the
    characters of [pathName] start [fileName]. *)
Lemma memcmp_eq_prefix (pathName fileName : list Z) :
  (strlen pathName <= strlen fileName)%nat ->
  memcmp_eq fileName pathName (strlen pathName) = true
  <-> exists rest, cstring fileName = cstring pathName ++ rest.
Proof.
  unfold strlen. revert fileName.
  induction pathName as [|c p IH]; intros f Hlen.
  - simpl. split; [intros _; now exists (cstring f) | reflexivity].
  - simpl in *. destruct (c =? 0) eqn:Ec.
    + simpl. split; [intros _; now exists (cstring f) | reflexivity].
    + apply Z.eqb_neq in Ec. simpl in *.
      destruct (cstring_nil_or_cons f) as [Hf | (d & f' & -> & Hd & Hf)].
      * rewrite Hf in Hlen. simpl in Hlen. lia.
      * rewrite Hf in *. simpl in Hlen. unfold deref. simpl.
        rewrite andb_true_iff, Z.eqb_eq, (IH f') by lia.
        split.
        -- intros [-> [rest ->]]. now exists rest.
        -- intros [rest H]. injection H as -> H. split; [reflexivity|].
           now exists rest.
Qed.

Lemma index_cstring (s : list Z) (n : nat) :
  (n <= strlen s)%nat -> index s n = nth n (cstring s) 0.
Proof.
  unfold strlen, index. revert n.
  induction s as [|c s IH]; intros n Hn; simpl in *.
  - now destruct n.
  - destruct (c =? 0) eqn:Ec; simpl in *.
    + apply Z.eqb_eq in Ec. subst c. now replace n with O by lia.
    + destruct n as [|n]; [reflexivity|]. apply IH. lia.
Qed.

Lemma nth_middle_or_end (chars rest : list Z) :
  nth (length chars) (chars ++ rest) 0 = deref rest.
Proof.
  rewrite app_nth2, Nat.sub_diag by lia. now destruct rest.
Qed.

(** The test that the loop of [wantFileName] makes on one entry. *)
Lemma wantFileName_entry (fileName pathName : list Z) :
  ((strlen fileName <? strlen pathName)%nat = false
   /\ memcmp_eq fileName pathName (strlen pathName) = true
   /\ (strlen fileName =? strlen pathName)%nat
        || (index fileName (strlen pathName) =? SLASH) = true)
  <-> exists rest, cstring fileName = cstring pathName ++ rest
                   /\ (rest = [] \/ deref rest = SLASH).
Proof.
  split.
  - intros (Hlen & Hcmp & Hnext). apply Nat.ltb_ge in Hlen.
    apply memcmp_eq_prefix in Hcmp; [|assumption].
    destruct Hcmp as [rest Hrest]. exists rest. split; [assumption|].
    rewrite index_cstring in Hnext by assumption.
    unfold strlen in *. rewrite Hrest in *. rewrite length_app in Hnext.
    rewrite nth_middle_or_end in Hnext.
    apply orb_true_iff in Hnext. destruct Hnext as [H | H].
    + apply Nat.eqb_eq in H. left. destruct rest; [reflexivity|simpl in H; lia].
    + apply Z.eqb_eq in H. now right.
  - intros (rest & Hrest & Hnext).
    assert (Hlen : (strlen pathName <= strlen fileName)%nat).
    { unfold strlen. rewrite Hrest, length_app. lia. }
    split; [now apply Nat.ltb_ge|].
    split; [apply memcmp_eq_prefix; [assumption | now exists rest]|].
    rewrite index_cstring by assumption.
    unfold strlen. rewrite Hrest, length_app, nth_middle_or_end.
    apply orb_true_iff. destruct Hnext as [-> | H].
    + left. simpl. apply Nat.eqb_eq. lia.
    + right. now apply Z.eqb_eq.
Qed.

Lemma firstn_count_cons {A : Type} (fileCount : Z) (x : A) (l : list A) :
  (fileCount >? 0) = true ->
  firstn (Z.to_nat fileCount) (x :: l)
  = x :: firstn (Z.to_nat (fileCount - 1)) l.
Proof.
  intros H. apply Z.gtb_lt in H.
  replace (Z.to_nat fileCount) with (S (Z.to_nat (fileCount - 1))) by lia.
  reflexivity.
Qed.

Lemma firstn_count_none {A : Type} (fileCount : Z) (l : list A) :
  (fileCount >? 0) = false -> firstn (Z.to_nat fileCount) l = [].
Proof.
  intros H. replace (Z.to_nat fileCount) with O; [reflexivity|].
  destruct fileCount; try reflexivity. discriminate H.
Qed.

(** The loop looks at the first [fileCount] names of the table, and at
    none when the count is not positive. *)
Lemma wantFileName_loop_iff (fileName : list Z) (fileTable : list (list Z)) :
  forall fileCount : Z,
    wantFileName_loop fileName (strlen fileName) fileCount fileTable = true
    <-> exists pathName rest,
          In pathName (firstn (Z.to_nat fileCount) fileTable)
          /\ cstring fileName = cstring pathName ++ rest
          /\ (rest = [] \/ deref rest = SLASH).
Proof.
  induction fileTable as [|p tbl IH]; intros fileCount; cbn [wantFileName_loop].
  - rewrite firstn_nil. split; [discriminate | intros (? & ? & [] & _)].
  - destruct (fileCount >? 0) eqn:Ecount.
    2: { rewrite firstn_count_none by assumption.
         split; [discriminate | intros (? & ? & [] & _)]. }
    rewrite firstn_count_cons by assumption.
    pose proof (wantFileName_entry fileName p) as Hentry.
    destruct (strlen fileName <? strlen p)%nat eqn:E1;
      [|destruct (memcmp_eq fileName p (strlen p)) eqn:E2;
        [destruct ((strlen fileName =? strlen p)%nat
                   || (index fileName (strlen p) =? SLASH)) eqn:E3|]];
      cbn [negb].
    2: { split; [intros _ | reflexivity].
         destruct (proj1 Hentry (conj eq_refl (conj eq_refl eq_refl)))
           as (rest & H1 & H2).
         exists p, rest. split; [now left | auto]. }
    all: rewrite IH; split;
      [ intros (q & rest & Hin & H); exists q, rest; split; [now right | auto]
      | intros (q & rest & [<- | Hin] & H1 & H2);
        [ exfalso;
          destruct (proj2 Hentry (ex_intro _ rest (conj H1 H2)))
            as (? & ? & ?); congruence
        | exists q, rest; auto ] ].
Qed.

(** C5. [wantFileName] selects a name exactly when the count of prefixes
    is zero, or when one of the first [fileCount] prefixes is a prefix of
    the name, byte for byte, and the name ends there or continues with
    '/'. With one prefix, "a/b" is selected by "a", "ab" is not, and "a"
    is not selected by "a/b". The command line "tar xf" gives no prefix
    and hands over a count of -1: the test for an empty list is
    [fileCount == 0] (where [writeTarFile] tests [fileCount <= 0]), so
    with that count no name is selected, and extracting the archive of
    "hello.txt" creates nothing, where a count of 0 extracts the file. *)
Theorem wantFileName_prefix_boundary
    (fileName : list Z) (fileCount : Z) (fileTable : list (list Z)) :
  (wantFileName fileName fileCount fileTable = true
   <-> fileCount = 0
       \/ exists pathName rest,
            In pathName (firstn (Z.to_nat fileCount) fileTable)
            /\ cstring fileName = cstring pathName ++ rest
            /\ (rest = [] \/ deref rest = SLASH))
  /\ wantFileName fileName 0 fileTable = true
  /\ wantFileName (cstr "a/b") 1 [cstr "a"] = true
  /\ wantFileName (cstr "ab") 1 [cstr "a"] = false
  /\ wantFileName (cstr "a") 1 [cstr "a/b"] = false
  /\ wantFileName fileName (-1) fileTable = false
  /\ (exists g,
         tar_main nameless_command = ReadTarFile g (-1) None
         /\ option_map trace
              (readTarFile sys_ok 2048 10 (-1) []
                 (Some (mkSource own_archive false)) (repeat 0 2048) g)
            = Some [msg_bad_header]
         /\ option_map (fun g' => extracted_bytes (trace g'))
              (readTarFile sys_ok 2048 10 0 []
                 (Some (mkSource own_archive false)) (repeat 0 2048) g)
            = Some (cstr "abcd")).
Proof.
  split; [|split; [reflexivity|]].
  - unfold wantFileName. destruct (fileCount =? 0) eqn:E.
    + apply Z.eqb_eq in E. split; [now left | reflexivity].
    + apply Z.eqb_neq in E. rewrite wantFileName_loop_iff.
      split; [intros H; now right | intros [H | H]; [congruence | exact H]].
  - split; [reflexivity|]. split; [reflexivity|]. split; [reflexivity|].
    split.
    + unfold wantFileName. cbn [Z.eqb]. destruct fileTable; reflexivity.
    + eexists. split; [reflexivity|].
      split; vm_compute; reflexivity.
Qed.

(** ** The octal codec: round trip and decoding *)

(** C2. For a field of [len] bytes and a non-negative [long] value [v]:
    when [v] has at most [len] octal digits, [putOctal] stores a field of
    [len] bytes that [getOctal] decodes back to [v]; when [v] has more
    digits, [putOctal] fails and the field is left as it was. *)
Theorem putOctal_getOctal_roundtrip (len : nat) (v : Z) :
  (0 < len <= 32)%nat -> 0 <= v <= LONG_MAX ->
  (v < 8 ^ Z.of_nat len ->
     exists field, putOctal len v = Some field
                   /\ length field = len
                   /\ getOctal field len = v)
  /\ (8 ^ Z.of_nat len <= v ->
        putOctal len v = None
        /\ forall buf off, store_octal buf off len v = buf).
Proof.
  intros [Hlen _] Hv.
  destruct (putOctal_succeeds_iff len v Hlen Hv) as [Hok Hfail].
  split; intros Hrange.
  - destruct (Hok Hrange) as [field Hput]. exists field.
    split; [assumption|]. now apply putOctal_decodes.
  - specialize (Hfail Hrange). split; [assumption|].
    intros buf off. unfold store_octal. now rewrite Hfail.
Qed.

Lemma putOctal_getOctal_roundtrip_witness :
  (exists field, putOctal 12 4096 = Some field
                 /\ length field = 12%nat
                 /\ getOctal field 12 = 4096)
  /\ (putOctal 8 (8 ^ 8) = None
      /\ forall buf off, store_octal buf off 8 (8 ^ 8) = buf).
Proof.
  split.
  - apply (putOctal_getOctal_roundtrip 12 4096);
      [lia | unfold LONG_MAX; lia | reflexivity].
  - apply (putOctal_getOctal_roundtrip 8 (8 ^ 8));
      [lia | unfold LONG_MAX; lia | simpl; lia].
Defined.

Lemma dropSpaces_repeat (n : nat) (field : list Z) :
  dropSpaces (repeat SPACE n ++ field) = dropSpaces field.
Proof.
  induction n as [|n IH]; simpl; [reflexivity | exact IH].
Qed.

Lemma dropSpaces_stop (c : Z) (field : list Z) :
  c <> SPACE -> dropSpaces (c :: field) = c :: field.
Proof.
  intros Hc. simpl. destruct (c =? SPACE) eqn:E; [|reflexivity].
  apply Z.eqb_eq in E. contradiction.
Qed.

(** C3, as the code has it. [getOctal] skips leading spaces, fails with -1
    when no octal digit follows, accumulates the octal digits, skips
    trailing spaces, and then looks at one byte only: it fails when the
    byte at which the trailing spaces end lies within the field and is not
    NUL. A NUL there ends the decoding: the bytes after it are not
    examined. In particular a field in which the digits and the spaces
    after them are followed at once by a byte that is neither a space nor a
    NUL decodes as invalid. *)
Theorem getOctal_stops_at_nul (field rest : list Z) :
  getOctal (field ++ rest) (length field) = parseOctal field
  /\ (forall (lead trail : nat) (digits tail : list Z) (c : Z),
        field = repeat SPACE lead ++ digits ++ repeat SPACE trail ++ c :: tail ->
        digits <> [] -> Forall (fun d => isOctal d = true) digits ->
        c <> SPACE -> c <> 0 -> (trail = O -> isOctal c = false) ->
        getOctal (field ++ rest) (length field) = -1).
Proof.
  split; [apply getOctal_parseOctal|].
  intros lead trail digits tail c -> Hne Hdig Hsp Hnul Hc.
  rewrite getOctal_parseOctal. unfold parseOctal, parseOctal_with.
  rewrite dropSpaces_repeat.
  assert (Hs : dropSpaces (digits ++ repeat SPACE trail ++ c :: tail)
               = digits ++ repeat SPACE trail ++ c :: tail).
  { destruct digits as [|d ds]; [congruence|]. inversion Hdig; subst.
    simpl. now rewrite isOctal_not_space. }
  rewrite Hs, takeDigits_app, dropDigits_app by assumption.
  assert (Ht : takeDigits (repeat SPACE trail ++ c :: tail) = []
               \/ trail = O /\ isOctal c = true).
  { destruct trail as [|trail]; simpl; [|now left].
    destruct (isOctal c); [now right | now left]. }
  destruct Ht as [Ht | [-> Hoct]]; [|rewrite (Hc eq_refl) in Hoct; discriminate].
  rewrite Ht, app_nil_r.
  assert (Hd : dropDigits (repeat SPACE trail ++ c :: tail)
               = repeat SPACE trail ++ c :: tail).
  { destruct trail as [|trail]; simpl; [|reflexivity].
    now rewrite (Hc eq_refl). }
  rewrite Hd, dropSpaces_repeat, dropSpaces_stop by assumption.
  unfold ends_at_nul. destruct (c =? 0) eqn:E;
    [apply Z.eqb_eq in E; contradiction|].
  destruct digits; [congruence | reflexivity].
Qed.

Lemma getOctal_stops_at_nul_witness :
  getOctal (cstr " 17 x" ++ [0; 0; 0]) 8 = -1.
Proof.
  apply (proj2 (getOctal_stops_at_nul (cstr " 17 x" ++ [0; 0; 0]) [])
           1%nat 1%nat (cstr "17") [0; 0; 0] 120);
    [reflexivity | simpl; discriminate | repeat constructor
    | unfold SPACE; lia | lia | discriminate].
Defined.

(** The field "1", NUL, "x", NUL... holds a byte that is neither a space
    nor a NUL after its digits, and decodes to 1. *)
Lemma getOctal_ignores_bytes_after_nul :
  let field := [49; 0; 120; 0; 0; 0; 0; 0] in
  In 120 (dropSpaces (dropDigits (dropSpaces field)))
  /\ parseOctal_strict field = -1
  /\ getOctal field 8 = 1
  /\ getOctal field 8 <> -1.
Proof.
  simpl. repeat split; [auto | discriminate].
Qed.

(** ** Buffers *)

Lemma length_poke (buf : list Z) (off : nat) (bytes : list Z) :
  (off + length bytes <= length buf)%nat ->
  length (poke buf off bytes) = length buf.
Proof.
  intros H. unfold poke.
  rewrite !length_app, length_firstn, length_skipn. lia.
Qed.

Lemma Forall_firstn_skipn (P : Z -> Prop) (n : nat) (l : list Z) :
  Forall P l -> Forall P (firstn n l) /\ Forall P (skipn n l).
Proof.
  intros H. apply Forall_app. now rewrite firstn_skipn.
Qed.

Lemma Forall_poke (P : Z -> Prop) (buf : list Z) (off : nat) (bytes : list Z) :
  Forall P buf -> Forall P bytes -> Forall P (poke buf off bytes).
Proof.
  intros Hbuf Hbytes. unfold poke.
  apply Forall_app; split; [now apply Forall_firstn_skipn|].
  apply Forall_app; split; [assumption | now apply Forall_firstn_skipn].
Qed.

Lemma skipn_poke (buf : list Z) (off : nat) (bytes : list Z) :
  (off <= length buf)%nat ->
  skipn off (poke buf off bytes)
  = bytes ++ skipn (off + length bytes) buf.
Proof.
  intros H. unfold poke.
  rewrite skipn_app, length_firstn, Nat.min_l by assumption.
  rewrite Nat.sub_diag. simpl skipn at 2.
  rewrite skipn_all2; [reflexivity|]. rewrite length_firstn. lia.
Qed.

Lemma poke_poke (buf : list Z) (off : nat) (a b : list Z) :
  (off <= length buf)%nat -> length a = length b ->
  poke (poke buf off a) off b = poke buf off b.
Proof.
  intros Hoff Hab. unfold poke at 1 3.
  f_equal.
  - unfold poke. rewrite firstn_app, length_firstn, Nat.min_l by assumption.
    rewrite Nat.sub_diag. simpl. rewrite app_nil_r.
    apply firstn_all2. rewrite length_firstn. lia.
  - f_equal. rewrite <- Hab. unfold poke.
    rewrite skipn_app, length_firstn, Nat.min_l by assumption.
    rewrite skipn_all2 by (rewrite length_firstn; lia).
    replace (off + length a - off)%nat with (length a) by lia.
    now rewrite skipn_app, Nat.sub_diag, skipn_all.
Qed.

Lemma poke_app (buf tail : list Z) (off : nat) (bytes : list Z) :
  (off + length bytes <= length buf)%nat ->
  poke (buf ++ tail) off bytes = poke buf off bytes ++ tail.
Proof.
  intros H. unfold poke.
  rewrite firstn_app, skipn_app.
  replace (off - length buf)%nat with O by lia.
  replace (off + length bytes - length buf)%nat with O by lia.
  simpl. now rewrite app_nil_r, <- !app_assoc.
Qed.

(** ** The checksum *)

Lemma sum_bytes_acc (len : nat) (cp : list Z) (acc : Z) :
  sum_bytes len cp acc = acc + sum_bytes len cp 0.
Proof.
  revert cp acc. induction len as [|len IH]; intros cp acc; simpl; [lia|].
  rewrite (IH _ (acc + deref cp)), (IH _ (deref cp)). lia.
Qed.

Lemma sum_bytes_bound (len : nat) (cp : list Z) :
  Forall is_byte cp -> 0 <= sum_bytes len cp 0 <= 255 * Z.of_nat len.
Proof.
  revert cp. induction len as [|len IH]; intros cp Hcp.
  - simpl. lia.
  - cbn [sum_bytes]. rewrite sum_bytes_acc.
    assert (Hd : 0 <= deref cp <= 255).
    { destruct Hcp as [|c cp Hc _]; unfold deref, is_byte in *; simpl; lia. }
    assert (Ht : Forall is_byte (tl cp)) by (destruct Hcp; [constructor|assumption]).
    specialize (IH _ Ht). lia.
Qed.

Lemma sum_bytes_zero_tail (cp : list Z) (n : nat) :
  sum_bytes (length cp + n) (cp ++ repeat 0 n) 0 = sum_bytes (length cp) cp 0.
Proof.
  induction cp as [|c cp IH]; simpl.
  - induction n as [|n IHn]; simpl; [reflexivity | exact IHn].
  - unfold deref; simpl.
    rewrite sum_bytes_acc, IH. symmetry. apply sum_bytes_acc.
Qed.

(** ** What [putOctal] stores *)

Lemma putOctal_field (len : nat) (v : Z) (field : list Z) :
  putOctal len v = Some field ->
  length field = len /\ Forall is_byte field.
Proof.
  intros Hput.
  pose proof (putOctal_cases len v) as (H1 & H2 & H3 & H4).
  pose proof (octal_digits_isOctal ULONG_OCTAL_DIGITS (to_ulong v)
                (to_ulong_nonneg v)) as Hoct.
  assert (Hbytes : Forall is_byte (octal_digits ULONG_OCTAL_DIGITS (to_ulong v))).
  { eapply Forall_impl; [|exact Hoct]. intros c Hc. unfold isOctal in Hc.
    apply andb_true_iff in Hc. destruct Hc as [Ha Hb].
    apply Z.leb_le in Ha, Hb. unfold is_byte. lia. }
  set (digits := octal_digits ULONG_OCTAL_DIGITS (to_ulong v)) in *.
  destruct (Nat.lt_ge_cases len (length digits)) as [Hlt | Hge].
  { rewrite H4 in Hput by assumption. discriminate. }
  destruct (Nat.eq_dec (length digits) len) as [Heq | Hneq].
  { rewrite H3 in Hput by assumption. injection Hput as <-. now split. }
  destruct (Nat.eq_dec (length digits + 1) len) as [Heq1 | Hneq1].
  { rewrite H2 in Hput by assumption. injection Hput as <-.
    split; [rewrite length_app; simpl; lia|].
    apply Forall_app; split; [assumption|].
    repeat constructor; unfold is_byte; lia. }
  rewrite H1 in Hput by lia. injection Hput as <-. split.
  - simpl. rewrite !length_app, repeat_length. simpl. lia.
  - constructor; [unfold is_byte, SPACE; lia|].
    apply Forall_app; split.
    + apply Forall_forall. intros c Hc. apply repeat_spec in Hc.
      unfold is_byte. lia.
    + apply Forall_app; split; [assumption|].
      repeat constructor; unfold is_byte; lia.
Qed.

Lemma store_octal_length (buf : list Z) (off len : nat) (v : Z) :
  (off + len <= length buf)%nat ->
  length (store_octal buf off len v) = length buf.
Proof.
  intros H. unfold store_octal.
  destruct (putOctal len v) as [field|] eqn:E; [|reflexivity].
  apply putOctal_field in E. destruct E as [E _].
  apply length_poke. lia.
Qed.

Lemma store_octal_bytes (buf : list Z) (off len : nat) (v : Z) :
  Forall is_byte buf -> Forall is_byte (store_octal buf off len v).
Proof.
  intros H. unfold store_octal.
  destruct (putOctal len v) as [field|] eqn:E; [|assumption].
  apply putOctal_field in E. destruct E as [_ E].
  now apply Forall_poke.
Qed.

(** ** The header written by [writeHeader] *)

Ltac layout :=
  unfold off_name, off_mode, off_uid, off_gid, off_size, off_mtime,
    off_checkSum, off_typeFlag, off_linkName, off_magic, off_version,
    off_devMajor, off_devMinor, sz_mode, sz_uid, sz_gid, sz_size, sz_mtime,
    sz_checkSum, sz_magic, sz_version, sz_devMajor, sz_devMinor,
    sizeof_TarHeader, TAR_NAME_SIZE, TAR_BLOCK_SIZE in *.

Lemma poke_header_shaped (header : list Z) (off : nat) (bytes : list Z) :
  header_shaped header -> (off + length bytes <= sizeof_TarHeader)%nat ->
  Forall is_byte bytes -> header_shaped (poke header off bytes).
Proof.
  intros [Hlen Hbytes] Hoff Hb. split.
  - rewrite length_poke; [assumption | lia].
  - now apply Forall_poke.
Qed.

Lemma store_octal_header_shaped (header : list Z) (off len : nat) (v : Z) :
  header_shaped header -> (off + len <= sizeof_TarHeader)%nat ->
  header_shaped (store_octal header off len v).
Proof.
  intros [Hlen Hbytes] Hoff. split.
  - rewrite store_octal_length; [assumption | lia].
  - now apply store_octal_bytes.
Qed.

Lemma Forall_is_byte_repeat (b : Z) (n : nat) :
  is_byte b -> Forall is_byte (repeat b n).
Proof.
  intros Hb. apply Forall_forall. intros c Hc.
  apply repeat_spec in Hc. now subst.
Qed.

Lemma magic_bytes : strncpy TAR_MAGIC sz_magic = [117; 115; 116; 97; 114; 0].
Proof. reflexivity. Qed.

Lemma version_bytes : strncpy TAR_VERSION sz_version = [48; 48].
Proof. reflexivity. Qed.

Lemma fillHeader_checkSum (fileName : list Z) (statbuf : stat) :
  (strlen fileName <= TAR_NAME_SIZE)%nat ->
  Forall is_byte (cstring fileName) ->
  header_shaped (fillHeader fileName statbuf)
  /\ getOctal (skipn off_checkSum (fillHeader fileName statbuf)) sz_checkSum
     = sum_bytes sizeof_TarHeader (blankedHeader fileName statbuf) 0.
Proof.
  intros Hname Hbytes. unfold blankedHeader, fillHeader. cbv zeta.
  rewrite magic_bytes, version_bytes.
  match goal with
  | |- context [store_octal ?h off_checkSum sz_checkSum _] => set (h0 := h)
  end.
  assert (Hh0 : header_shaped h0).
  { unfold h0.
    apply poke_header_shaped;
      [|rewrite repeat_length; layout; lia
       |apply Forall_is_byte_repeat; unfold is_byte, SPACE; lia].
    apply poke_header_shaped;
      [|layout; simpl; lia
       |repeat constructor; unfold is_byte, TAR_TYPE_REGULAR; lia].
    do 5 (apply store_octal_header_shaped; [|layout; lia]).
    do 2 (apply poke_header_shaped;
            [|layout; simpl; lia | repeat constructor; unfold is_byte; lia]).
    apply poke_header_shaped.
    - split; [apply repeat_length|].
      apply Forall_is_byte_repeat. unfold is_byte; lia.
    - rewrite length_app. unfold strlen in Hname. layout. simpl. lia.
    - apply Forall_app; split; [assumption|].
      repeat constructor; unfold is_byte; lia. }
  destruct Hh0 as [Hlen0 Hbytes0].
  pose proof (sum_bytes_bound sizeof_TarHeader h0 Hbytes0) as Hsum.
  set (checkSum := sum_bytes sizeof_TarHeader h0 0) in *.
  assert (Hv : 0 <= checkSum <= LONG_MAX)
    by (unfold LONG_MAX; layout; lia).
  destruct (putOctal_succeeds_iff sz_checkSum checkSum
              ltac:(layout; lia) Hv) as [Hok _].
  destruct Hok as [field Hput]; [layout; simpl; lia|].
  destruct (putOctal_decodes _ _ _ Hv Hput) as [Hflen Hfval].
  assert (Hstore : store_octal h0 off_checkSum sz_checkSum checkSum
                   = poke h0 off_checkSum field)
    by (unfold store_octal; now rewrite Hput).
  rewrite Hstore. split.
  - apply poke_header_shaped; [now split | rewrite Hflen; layout; lia|].
    now apply (putOctal_field _ _ _ Hput).
  - rewrite skipn_poke by (rewrite Hlen0; layout; lia).
    rewrite (getOctal_field_prefix _ _ _ Hflen), Hfval.
    rewrite poke_poke;
      [|rewrite Hlen0; layout; lia | now rewrite repeat_length, Hflen].
    unfold checkSum. f_equal. unfold h0.
    rewrite poke_poke; [reflexivity | | reflexivity].
    layout. simpl length.
    repeat first [ rewrite length_poke | rewrite store_octal_length ];
      rewrite ?repeat_length, ?length_app;
      try (unfold strlen in Hname; simpl; lia).
Qed.

(** ** Blocks written to the archive *)

Lemma getOctal_within (cp rest : list Z) (len : nat) :
  (len <= length cp)%nat -> getOctal (cp ++ rest) len = getOctal cp len.
Proof.
  intros H.
  assert (Hl : length (firstn len cp) = len)
    by (rewrite length_firstn; lia).
  pose proof (firstn_skipn len cp) as E.
  transitivity (getOctal (firstn len cp) len).
  - rewrite <- E at 1. rewrite <- app_assoc.
    apply getOctal_field_prefix, Hl.
  - rewrite <- E at 2. symmetry. apply getOctal_field_prefix, Hl.
Qed.

Lemma firstn_plus (n m : nat) (l : list Z) :
  firstn (n + m) l = firstn n l ++ firstn m (skipn n l).
Proof.
  revert l. induction n as [|n IH]; intros l; [reflexivity|].
  destruct l as [|c l]; simpl; [now rewrite firstn_nil|].
  now rewrite IH.
Qed.

Lemma log_usable (e : event) (g : globals) : usable g -> usable (log e g).
Proof. intros H. exact H. Qed.

Lemma writeTarBlock_emits (buf : list Z) (len : nat) (g : globals) :
  usable g -> (len <= length buf)%nat ->
  usable (writeTarBlock buf len g)
  /\ emitted (writeTarBlock buf len g)
     = emitted g ++ firstn len buf ++ repeat 0 (padding len).
Proof.
  intros [Herr Hroom] Hlen. unfold writeTarBlock, padding. rewrite Herr.
  pose proof (Nat.Div0.mod_le len TAR_BLOCK_SIZE) as Hple.
  pose proof (Nat.mod_upper_bound len TAR_BLOCK_SIZE ltac:(discriminate))
    as Hpu.
  set (pl := (len mod TAR_BLOCK_SIZE)%nat) in *.
  set (cl := (len - pl)%nat).
  assert (Hsplit : firstn len buf = firstn cl buf ++ firstn pl (skipn cl buf)).
  { replace len with (cl + pl)%nat at 1 by (unfold cl; lia).
    apply firstn_plus. }
  assert (Hcl : length (peek buf 0 cl) = cl).
  { unfold peek. simpl skipn. rewrite length_firstn. unfold cl. lia. }
  unfold tar_fullWrite, fullWrite, usable, emitted.
  destruct (Nat.ltb_spec 0 cl) as [Hpos | Hzero].
  - rewrite Hroom. rewrite Hcl.
    replace (Z.of_nat cl =? 0) with false by (symmetry; apply Z.eqb_neq; lia).
    destruct (Nat.eqb_spec pl 0) as [Hp0 | Hp].
    + cbn [errorFlag tarOut set_tarOut room written].
      split; [now split|]. rewrite Hsplit, Hp0. unfold peek.
      simpl. now rewrite !app_nil_r.
    + cbn [errorFlag tarOut set_tarOut room written].
      rewrite length_app, repeat_length.
      replace (Z.of_nat (length (peek buf cl pl) + (TAR_BLOCK_SIZE - pl)) =? 0)
        with false by (symmetry; apply Z.eqb_neq; lia).
      cbn [errorFlag tarOut set_tarOut room written].
      split; [now split|]. rewrite Hsplit. unfold peek. simpl skipn at 1.
      now rewrite <- !app_assoc.
  - assert (Hcl0 : cl = O) by lia.
    destruct (Nat.eqb_spec pl 0) as [Hp0 | Hp].
    + split; [now split|]. rewrite Hsplit, Hcl0, Hp0. simpl.
      now rewrite app_nil_r.
    + rewrite Hroom. cbn [errorFlag tarOut set_tarOut room written].
      rewrite length_app, repeat_length.
      replace (Z.of_nat (length (peek buf cl pl) + (TAR_BLOCK_SIZE - pl)) =? 0)
        with false by (symmetry; apply Z.eqb_neq; lia).
      cbn [errorFlag tarOut set_tarOut room written].
      split; [now split|]. rewrite Hsplit, Hcl0. unfold peek. reflexivity.
Qed.

(** The loop that sums the bytes of the header gives the sum of the
    bytes. *)
Lemma sum_bytes_byteSum (len : nat) :
  forall (cp : list Z) (checkSum : Z),
    (length cp <= len)%nat -> sum_bytes len cp checkSum = checkSum + byteSum cp.
Proof.
  induction len as [|len IH]; intros cp checkSum Hlen.
  - destruct cp; [simpl; lia | simpl in Hlen; lia].
  - destruct cp as [|c cp]; cbn [sum_bytes tl deref hd].
    + rewrite IH by (simpl; lia). simpl. lia.
    + rewrite IH by (simpl in Hlen; lia). cbn [byteSum fold_right].
      fold (byteSum cp). lia.
Qed.

(** C1. The block that [writeHeader] writes for a name that fits the
    header is 512 bytes long, each of them a value from 0 to 255, and
    its checksum field decodes to the sum of the 512 bytes of the block
    taken with the checksum field set to spaces. *)
Theorem writeHeader_checksum
    (fileName : list Z) (statbuf : stat) (g : globals) :
  (strlen fileName <= TAR_NAME_SIZE)%nat ->
  Forall is_byte (cstring fileName) ->
  usable g ->
  exists block,
    emitted (writeHeader fileName statbuf g) = emitted g ++ block
    /\ length block = TAR_BLOCK_SIZE
    /\ Forall is_byte block
    /\ hdr_checkSum block = byteSum (blankChecksum block).
Proof.
  intros Hname Hbytes Hg.
  destruct (fillHeader_checkSum fileName statbuf Hname Hbytes)
    as [[Hlen Hhb] Hsum].
  unfold writeHeader.
  destruct (writeTarBlock_emits (fillHeader fileName statbuf)
              sizeof_TarHeader g Hg ltac:(rewrite Hlen; lia)) as [_ Hout].
  rewrite <- Hlen in Hout at 2. rewrite firstn_all in Hout.
  change (padding sizeof_TarHeader) with 12%nat in Hout.
  set (header := fillHeader fileName statbuf) in *.
  exists (header ++ repeat 0 12). split; [exact Hout|].
  assert (Hblock : length (header ++ repeat 0 12) = TAR_BLOCK_SIZE)
    by (rewrite length_app, repeat_length, Hlen; reflexivity).
  split; [exact Hblock|]. split.
  - apply Forall_app. split; [exact Hhb|].
    apply Forall_is_byte_repeat. unfold is_byte. lia.
  - unfold hdr_checkSum.
    rewrite skipn_app.
    replace (off_checkSum - length header)%nat with O
      by (rewrite Hlen; reflexivity).
    rewrite skipn_0, getOctal_within
      by (rewrite length_skipn, Hlen; layout; lia).
    rewrite Hsum. unfold blankedHeader. fold header.
    assert (Hblank : blankChecksum (header ++ repeat 0 12)
                     = poke header off_checkSum (repeat SPACE sz_checkSum)
                         ++ repeat 0 12).
    { rewrite <- poke_app by (rewrite repeat_length, Hlen; layout; lia).
      unfold blankChecksum, poke. now rewrite repeat_length. }
    rewrite Hblank.
    set (blanked := poke header off_checkSum (repeat SPACE sz_checkSum)).
    assert (Hb : length blanked = sizeof_TarHeader).
    { unfold blanked. rewrite length_poke; [assumption|].
      rewrite repeat_length, Hlen. layout. lia. }
    rewrite sum_bytes_byteSum by (rewrite Hb; lia).
    unfold byteSum. rewrite fold_right_app.
    replace (fold_right Z.add 0 (repeat 0 12)) with 0 by reflexivity.
    reflexivity.
Qed.

Lemma writeHeader_checksum_witness :
  exists block,
    emitted (writeHeader (cstr "hello.txt")
               (mkStat 1 2 33188 1000 1000 4 946684800)
               (startup false false true false false None fresh_sink))
    = [] ++ block
    /\ length block = TAR_BLOCK_SIZE
    /\ Forall is_byte block
    /\ hdr_checkSum block = byteSum (blankChecksum block).
Proof.
  apply (writeHeader_checksum (cstr "hello.txt")
           (mkStat 1 2 33188 1000 1000 4 946684800)
           (startup false false true false false None fresh_sink)).
  - vm_compute. lia.
  - vm_compute cstring. repeat constructor; unfold is_byte; lia.
  - split; reflexivity.
Defined.

(** ** The data blocks of a regular file *)

Lemma padding_0 : padding 0 = O.
Proof. reflexivity. Qed.

Lemma padding_chunk (n : nat) :
  (chunk <= n)%nat -> padding (n - chunk) = padding n.
Proof.
  intros H. unfold padding.
  replace (n mod TAR_BLOCK_SIZE)%nat with ((n - chunk) mod TAR_BLOCK_SIZE)%nat;
    [reflexivity|].
  replace n with ((n - chunk) + 16 * TAR_BLOCK_SIZE)%nat at 2
    by (unfold chunk in *; lia).
  symmetry. apply Nat.Div0.mod_add.
Qed.

Lemma padding_whole_chunk : padding chunk = O.
Proof. vm_compute. reflexivity. Qed.

Lemma sizeof_data_chunk : sizeof_data = Z.of_nat chunk.
Proof. reflexivity. Qed.

Ltac unchunk := unfold chunk, TAR_BLOCK_SIZE in *.

Lemma repeat_plus (n m : nat) :
  repeat 0 n ++ repeat 0 m = repeat 0 (n + m).
Proof. symmetry. apply repeat_app. Qed.

Lemma firstn_length_min (n : nat) (l : list Z) :
  length (firstn n l) = Nat.min n (length l).
Proof. apply length_firstn. Qed.

Lemma saveData_emits (fuel : nat) :
  forall (fileName : list Z) (n : nat) (sawEof : bool) (fileFd : source)
         (g : globals),
    usable g ->
    broken fileFd = false \/ (n <= length (pending fileFd))%nat ->
    (n <= fuel * chunk)%nat ->
    usable (saveData fuel fileName (Z.of_nat n) sawEof fileFd g)
    /\ emitted (saveData fuel fileName (Z.of_nat n) sawEof fileFd g)
       = emitted g ++ data_blocks n sawEof fileFd.
Proof.
  induction fuel as [|fuel IH]; intros fileName n sawEof fileFd g Hg Hsrc Hn.
  - assert (n = O) by lia. subst n. simpl saveData. split; [assumption|].
    unfold data_blocks. rewrite padding_0.
    destruct sawEof; simpl; now rewrite app_nil_r.
  - cbn [saveData].
    destruct (Z.leb_spec (Z.of_nat n) 0) as [Hz | Hpos].
    { assert (n = O) by lia. subst n. split; [assumption|].
      unfold data_blocks. rewrite padding_0.
      destruct sawEof; simpl; now rewrite app_nil_r. }
    rewrite sizeof_data_chunk.
    (* the amount written this turn *)
    set (dc := if Z.of_nat chunk >? Z.of_nat n
               then Z.of_nat n else Z.of_nat chunk).
    set (dcn := if (n <? chunk)%nat then n else chunk).
    assert (Hdc : dc = Z.of_nat dcn).
    { unfold dc, dcn. destruct (Nat.ltb_spec n chunk).
      - replace (Z.of_nat chunk >? Z.of_nat n) with true; [reflexivity|].
        symmetry. apply Z.gtb_lt. lia.
      - replace (Z.of_nat chunk >? Z.of_nat n) with false; [reflexivity|].
        symmetry. rewrite Z.gtb_ltb. apply Z.ltb_ge. lia. }
    assert (Hrest : Z.of_nat n - dc = Z.of_nat (n - dcn)).
    { rewrite Hdc. unfold dcn. destruct (n <? chunk)%nat eqn:E; [lia|].
      apply Nat.ltb_ge in E. lia. }
    assert (Hfuel : (n - dcn <= fuel * chunk)%nat).
    { unfold dcn. destruct (n <? chunk)%nat eqn:E; lia. }
    assert (Hzeros : (dcn + padding dcn + (n - dcn + padding (n - dcn))
                      = n + padding n)%nat).
    { unfold dcn. destruct (Nat.ltb_spec n chunk).
      - rewrite Nat.sub_diag, padding_0. lia.
      - rewrite padding_whole_chunk, padding_chunk by assumption. lia. }
    assert (Hle : (dcn <= n)%nat).
    { unfold dcn. destruct (Nat.ltb_spec n chunk); lia. }
    rewrite Hrest. rewrite Hdc, Nat2Z.id.
    destruct sawEof.
    + (* the end of the file was seen before: only zeroes *)
      cbn [negb andb orb Z.ltb Z.compare app].
      rewrite Z.sub_0_r, Nat2Z.id.
      destruct (writeTarBlock_emits (repeat 0 dcn) dcn g Hg
                  ltac:(rewrite repeat_length; lia)) as [Hg1 Hout1].
      assert (Hsrc1 : broken fileFd = false
                      \/ (n - dcn <= length (pending fileFd))%nat)
        by (destruct Hsrc as [H | H]; [now left | right; lia]).
      destruct (IH fileName (n - dcn)%nat true fileFd _ Hg1 Hsrc1 Hfuel)
        as [Hg2 Hout2].
      split; [exact Hg2|]. rewrite Hout2, Hout1.
      unfold data_blocks. cbn [app length].
      rewrite firstn_all2 by (rewrite repeat_length; lia).
      rewrite <- !app_assoc, !repeat_plus, !Nat.sub_0_r.
      do 2 f_equal. lia.
    + unfold fullRead.
      destruct (Nat.leb_spec dcn (length (pending fileFd))) as [Hfull | Hshort].
      * (* the file yields the whole amount *)
        replace (Z.of_nat dcn <? 0) with false
          by (symmetry; apply Z.ltb_ge; lia).
        rewrite Z.ltb_irrefl. cbn [negb andb orb].
        rewrite Z.sub_diag. cbn [Z.to_nat repeat]. rewrite app_nil_r.
        destruct (writeTarBlock_emits (firstn dcn (pending fileFd)) dcn g Hg
                    ltac:(rewrite length_firstn; lia)) as [Hg1 Hout1].
        assert (Hsrc1 : broken (mkSource (skipn dcn (pending fileFd))
                                  (broken fileFd)) = false
                        \/ (n - dcn
                            <= length
                                 (pending
                                    (mkSource (skipn dcn (pending fileFd))
                                       (broken fileFd))))%nat).
        { cbn [broken pending]. rewrite length_skipn.
          destruct Hsrc as [H | H]; [now left | right; lia]. }
        destruct (IH fileName (n - dcn)%nat false
                    (mkSource (skipn dcn (pending fileFd)) (broken fileFd))
                    _ Hg1 Hsrc1 Hfuel) as [Hg2 Hout2].
        split; [exact Hg2|]. rewrite Hout2, Hout1.
        unfold data_blocks. cbn [pending].
        rewrite firstn_firstn, Nat.min_id.
        rewrite <- !app_assoc. f_equal.
        rewrite !firstn_length_min, length_skipn.
        assert (Hf : firstn n (pending fileFd)
                     = firstn dcn (pending fileFd)
                         ++ firstn (n - dcn) (skipn dcn (pending fileFd))).
        { rewrite <- firstn_plus. f_equal. lia. }
        rewrite Hf, <- !app_assoc. f_equal.
        unfold dcn in *. destruct (Nat.ltb_spec n chunk).
        -- rewrite Nat.sub_diag, padding_0. cbn [firstn app].
           rewrite app_nil_r. f_equal. lia.
        -- rewrite padding_whole_chunk. cbn [repeat app]. do 2 f_equal.
           rewrite padding_chunk by assumption. lia.
      * (* the file ends too soon: zero fill, and no further read *)
        destruct Hsrc as [Hsrc | Henough]; [|lia].
        rewrite Hsrc.
        replace (Z.of_nat (length (pending fileFd)) <? 0) with false
          by (symmetry; apply Z.ltb_ge; lia).
        replace (Z.of_nat (length (pending fileFd)) <? Z.of_nat dcn) with true
          by (symmetry; apply Z.ltb_lt; lia).
        cbn [negb andb orb].
        replace (Z.to_nat (Z.of_nat dcn - Z.of_nat (length (pending fileFd))))
          with (dcn - length (pending fileFd))%nat by lia.
        set (g1 := log _ g).
        assert (Hg1' : usable g1) by exact Hg.
        destruct (writeTarBlock_emits
                    (pending fileFd
                       ++ repeat 0 (dcn - length (pending fileFd)))
                    dcn g1 Hg1'
                    ltac:(rewrite length_app, repeat_length; lia))
          as [Hg2 Hout2].
        destruct (IH fileName (n - dcn)%nat true (mkSource [] false)
                    _ Hg2 (or_introl eq_refl) Hfuel) as [Hg3 Hout3].
        split; [exact Hg3|]. rewrite Hout3, Hout2.
        change (emitted g1) with (emitted g).
        unfold data_blocks. cbn [app length].
        rewrite firstn_all2 by (rewrite length_app, repeat_length; lia).
        rewrite (firstn_all2 (n := n)) by lia.
        rewrite <- !app_assoc. do 2 f_equal.
        rewrite !repeat_plus, Nat.sub_0_r. f_equal. lia.
Qed.

Lemma poke_sized (header : list Z) (off : nat) (bytes : list Z) :
  length header = sizeof_TarHeader ->
  (off + length bytes <= sizeof_TarHeader)%nat ->
  length (poke header off bytes) = sizeof_TarHeader.
Proof.
  intros Hlen Hoff. rewrite length_poke; [assumption | lia].
Qed.

Lemma store_octal_sized (header : list Z) (off len : nat) (v : Z) :
  length header = sizeof_TarHeader -> (off + len <= sizeof_TarHeader)%nat ->
  length (store_octal header off len v) = sizeof_TarHeader.
Proof.
  intros Hlen Hoff. rewrite store_octal_length; [assumption | lia].
Qed.

Lemma fillHeader_length (fileName : list Z) (statbuf : stat) :
  (strlen fileName <= TAR_NAME_SIZE)%nat ->
  length (fillHeader fileName statbuf) = sizeof_TarHeader.
Proof.
  intros Hname. unfold fillHeader. cbv zeta.
  rewrite magic_bytes, version_bytes.
  apply store_octal_sized; [|layout; lia].
  apply poke_sized; [|rewrite repeat_length; layout; lia].
  apply poke_sized; [|layout; simpl; lia].
  do 5 (apply store_octal_sized; [|layout; lia]).
  do 2 (apply poke_sized; [|layout; simpl; lia]).
  apply poke_sized; [apply repeat_length|].
  rewrite length_app. unfold strlen in Hname. layout. simpl. lia.
Qed.

Lemma skipn_repeat (m k : nat) : skipn m (repeat 0 k) = repeat 0 (k - m).
Proof.
  revert k. induction m as [|m IH]; intros k.
  - now rewrite Nat.sub_0_r.
  - destruct k as [|k]; [reflexivity | apply IH].
Qed.


Lemma saveData_fuel (size : Z) :
  0 <= size ->
  (Z.to_nat size <= (Z.to_nat (size / sizeof_data) + 1) * chunk)%nat.
Proof.
  intros H. rewrite sizeof_data_chunk.
  assert (Hc : 0 < Z.of_nat chunk) by (unchunk; lia).
  pose proof (Z.div_mod size (Z.of_nat chunk) ltac:(lia)) as Hd.
  pose proof (Z.mod_pos_bound size (Z.of_nat chunk) Hc) as Hm.
  assert (Hq : 0 <= size / Z.of_nat chunk) by (apply Z.div_pos; lia).
  apply Nat2Z.inj_le. rewrite Nat2Z.inj_mul, Nat2Z.inj_add, !Z2Nat.id by lia.
  simpl Z.of_nat at 2. nia.
Qed.



(** ** Walking the files to archive *)




Lemma extends_usable (g g' : globals) : extends g g' -> usable g'.
Proof. now intros [H _]. Qed.

Lemma writeTarBlock_extends (buf : list Z) (len : nat) (g : globals) :
  usable g -> (len <= length buf)%nat -> extends g (writeTarBlock buf len g).
Proof.
  intros Hg Hlen. destruct (writeTarBlock_emits buf len g Hg Hlen) as [H1 H2].
  split; [assumption|]. eexists. exact H2.
Qed.

Lemma writeHeader_extends (fileName : list Z) (statbuf : stat) (g : globals) :
  usable g -> (strlen fileName <= TAR_NAME_SIZE)%nat ->
  extends g (writeHeader fileName statbuf g).
Proof.
  intros Hg Hname. apply writeTarBlock_extends; [assumption|].
  rewrite fillHeader_length by assumption. lia.
Qed.



Lemma cstring_no_nul (s : list Z) : Forall (fun c => c <> 0) (cstring s).
Proof.
  induction s as [|c s IH]; simpl; [constructor|].
  destruct (c =? 0) eqn:E; [constructor|].
  apply Z.eqb_neq in E. now constructor.
Qed.

Lemma cstring_app (chars rest : list Z) :
  Forall (fun c => c <> 0) chars ->
  cstring (chars ++ rest) = chars ++ cstring rest.
Proof.
  induction 1 as [|c chars Hc _ IH]; simpl; [reflexivity|].
  destruct (c =? 0) eqn:E; [apply Z.eqb_eq in E; contradiction|].
  now rewrite IH.
Qed.

Lemma strlen_directory_name (dirName : list Z) :
  strlen (cstring dirName ++ [SLASH]) = S (strlen dirName).
Proof.
  unfold strlen. rewrite cstring_app by apply cstring_no_nul.
  rewrite length_app. simpl. lia.
Qed.


(** The loops over the entries of a directory and over the names of the
    command line, for a relation between the statics before and after
    that is reflexive and transitive. *)
Section Related.
Variable NAME_MAX : nat.
Variable R : globals -> globals -> Prop.
Hypothesis R_refl : forall g, R g g.
Hypothesis R_trans : forall g1 g2 g3, R g1 g2 -> R g2 g3 -> R g1 g3.


End Related.

(** *** Paths that fit in [fullName] *)

Section Fits.
Variable NAME_MAX : nat.



End Fits.

(** *** The archive stays usable *)



(** ** The end of the archive *)

Lemma end_marker_emitted (g : globals) :
  usable g ->
  usable (writeTarBlock [0] 1 g)
  /\ emitted (writeTarBlock [0] 1 g) = emitted g ++ repeat 0 TAR_BLOCK_SIZE.
Proof.
  intros Hg.
  destruct (writeTarBlock_emits [0] 1 g Hg ltac:(simpl; lia)) as [H1 H2].
  split; [assumption|]. rewrite H2. reflexivity.
Qed.




(** ** The range of a decoded field *)

Lemma skipSpaces_le (len : nat) (cp : list Z) :
  (fst (skipSpaces len cp) <= len)%nat.
Proof.
  revert cp. induction len as [|len IH]; intros cp; simpl; [lia|].
  destruct (deref cp =? SPACE); simpl; [|lia].
  specialize (IH (tl cp)). lia.
Qed.

Lemma accumulate_range (val ch : Z) (k : nat) :
  (k < 21)%nat -> 0 <= val < 8 ^ Z.of_nat k -> isOctal ch = true ->
  0 <= accumulate val ch < 8 ^ Z.of_nat (S k).
Proof.
  intros Hk Hval Hch. unfold isOctal in Hch.
  apply andb_true_iff in Hch. destruct Hch as [H1 H2].
  apply Z.leb_le in H1, H2.
  rewrite Nat2Z.inj_succ, Z.pow_succ_r by lia.
  assert (Hpow : 8 * 8 ^ Z.of_nat k <= 8 ^ 21).
  { replace (8 * 8 ^ Z.of_nat k) with (8 ^ (Z.of_nat k + 1))
      by (rewrite Z.pow_add_r; lia).
    apply Z.pow_le_mono_r; lia. }
  unfold accumulate. rewrite wrap_long_small; [lia|].
  unfold LONG_MAX. change (8 ^ 21) with (2 ^ 63) in Hpow. lia.
Qed.

Lemma readDigits_range (len : nat) :
  forall (cp : list Z) (val : Z) (k : nat),
    (k + len <= 21)%nat -> 0 <= val < 8 ^ Z.of_nat k ->
    0 <= fst (fst (readDigits len cp val)) < 8 ^ Z.of_nat (k + len).
Proof.
  induction len as [|len IH]; intros cp val k Hk Hval.
  - simpl. now rewrite Nat.add_0_r.
  - cbn [readDigits]. destruct (isOctal (deref cp)) eqn:Ho.
    + replace (k + S len)%nat with (S k + len)%nat by lia.
      apply IH; [lia|]. apply accumulate_range; [lia | assumption..].
    + simpl. split; [lia|].
      eapply Z.lt_le_trans; [apply Hval|].
      apply Z.pow_le_mono_r; lia.
Qed.

(** A field of at most 21 bytes decodes to -1 or to a value below
    [8 ^ len]: the accumulation does not overflow. *)
Lemma getOctal_range (cp : list Z) (len : nat) :
  (len <= 21)%nat ->
  getOctal cp len = -1 \/ 0 <= getOctal cp len < 8 ^ Z.of_nat len.
Proof.
  intros Hlen. unfold getOctal.
  pose proof (skipSpaces_le len cp) as H1.
  destruct (skipSpaces len cp) as [len1 cp1]. simpl in H1.
  destruct ((len1 =? 0)%nat || negb (isOctal (deref cp1))); [now left|].
  pose proof (readDigits_range len1 cp1 0 0 ltac:(lia) ltac:(simpl; lia)) as H2.
  destruct (readDigits len1 cp1 0) as [[val len2] cp2]. simpl in H2.
  destruct (skipSpaces len2 cp2) as [len3 cp3].
  destruct ((0 <? len3)%nat && negb (deref cp3 =? 0)); [now left|].
  right. split; [lia|].
  eapply Z.lt_le_trans; [apply H2|]. apply Z.pow_le_mono_r; lia.
Qed.

Lemma to_int_small (v : Z) : -1 <= v < 8 ^ 8 -> to_int v = v.
Proof.
  intros H. unfold to_int. change (8 ^ 8) with 16777216 in H.
  rewrite Z.mod_small; lia.
Qed.

(** The test [(mode < 0) || (uid < 0) || (gid < 0) || (size < 0)] of
    [readHeader] on the header at [hp]. *)
Lemma fields_test (hp : list Z) :
  (to_int (hdr_mode hp) <? 0) || (to_int (hdr_uid hp) <? 0)
    || (to_int (hdr_gid hp) <? 0) || (hdr_size hp <? 0)
  = negb (fields_decode hp).
Proof.
  unfold fields_decode, hdr_mode, hdr_uid, hdr_gid, hdr_size.
  pose proof (getOctal_range (skipn off_mode hp) sz_mode ltac:(layout; lia)) as Hm.
  pose proof (getOctal_range (skipn off_uid hp) sz_uid ltac:(layout; lia)) as Hu.
  pose proof (getOctal_range (skipn off_gid hp) sz_gid ltac:(layout; lia)) as Hg.
  change (Z.of_nat sz_mode) with 8 in Hm.
  change (Z.of_nat sz_uid) with 8 in Hu.
  change (Z.of_nat sz_gid) with 8 in Hg.
  rewrite !to_int_small by lia.
  rewrite !negb_andb.
  rewrite <- !Z.ltb_antisym. reflexivity.
Qed.

(** ** Examining a header *)

(** Take the conditions of the goal one after the other. *)
Ltac by_cases :=
  repeat match goal with
         | |- context [if ?b then _ else _] => destruct b
         end;
  repeat split; reflexivity.

Section HeaderSteps.
Variable sys : syscall -> Z.

Lemma checkDirectory_frame (g : globals) :
  outName (checkDirectory g) = outName g
  /\ badHeader (checkDirectory g) = badHeader g
  /\ inHeader (checkDirectory g) = inHeader g
  /\ dataCc (checkDirectory g) = dataCc g
  /\ extractFlag (checkDirectory g) = extractFlag g
  /\ trace (checkDirectory g) = trace g.
Proof. unfold checkDirectory. by_cases. Qed.

Lemma stripRoot_frame (g : globals) :
  outName (stripRoot g)
  = (if deref (outName g) =? SLASH then skipSlashes (outName g)
     else outName g)
  /\ mode (stripRoot g) = mode g
  /\ badHeader (stripRoot g) = badHeader g
  /\ inHeader (stripRoot g) = inHeader g
  /\ dataCc (stripRoot g) = dataCc g
  /\ extractFlag (stripRoot g) = extractFlag g.
Proof. unfold stripRoot. by_cases. Qed.

Lemma skipEntry_frame (hp : list Z) (size : Z) (g : globals) :
  mode (skipEntry hp size g) = mode g
  /\ badHeader (skipEntry hp size g) = badHeader g.
Proof. unfold skipEntry, expectData. by_cases. Qed.

Lemma listEntry_frame (hp : list Z) (size major minor : Z) (g : globals) :
  mode (listEntry hp size major minor g) = mode g
  /\ badHeader (listEntry hp size major minor g) = badHeader g.
Proof. unfold listEntry, expectData, log. by_cases. Qed.

Lemma extractEntry_frame (hp : list Z) (size major minor : Z) (g : globals) :
  mode (extractEntry sys hp size major minor g) = mode g
  /\ badHeader (extractEntry sys hp size major minor g) = badHeader g.
Proof.
  unfold extractEntry, call, restoreAttributes, expectData, log.
  cbn -[Z.ltb Z.eqb to_int]. by_cases.
Qed.

Lemma handleEntry_frame (hp : list Z) (fileCount : Z)
    (fileTable : list (list Z))
    (size major minor : Z) (g : globals) :
  mode (handleEntry sys hp fileCount fileTable size major minor g) = mode g
  /\ badHeader (handleEntry sys hp fileCount fileTable size major minor g)
     = badHeader g.
Proof.
  unfold handleEntry.
  destruct (negb (wantFileName (outName g) fileCount fileTable));
    [apply skipEntry_frame|].
  destruct (negb (extractFlag g));
    [apply listEntry_frame | apply extractEntry_frame].
Qed.

Lemma skipEntry_transition (hp : list Z) (size : Z) (g : globals) :
  inHeader (skipEntry hp size g)
  = (if awaits_data hp (mode g) then size =? 0 else inHeader g)
  /\ dataCc (skipEntry hp size g)
     = (if awaits_data hp (mode g) then size else dataCc g).
Proof.
  unfold skipEntry, awaits_data, expectData.
  destruct (negb (hardLink hp) && negb (softLink hp) && carries_data (mode g));
    split; reflexivity.
Qed.

Lemma listEntry_transition (hp : list Z) (size major minor : Z)
    (g : globals) :
  inHeader (listEntry hp size major minor g)
  = (if awaits_data hp (mode g) then size =? 0 else inHeader g)
  /\ dataCc (listEntry hp size major minor g)
     = (if awaits_data hp (mode g) then size else dataCc g).
Proof.
  unfold listEntry, awaits_data, expectData, log.
  destruct (verboseFlag g), (hardLink hp), (softLink hp);
    cbn [mode set_trace negb andb];
    try (split; reflexivity);
    destruct (carries_data (mode g)); split; reflexivity.
Qed.
End HeaderSteps.

Section ReadHeader.
Variable sys : syscall -> Z.

Lemma readHeader_decodes (hp : list Z) (fileCount : Z)
    (fileTable : list (list Z))
    (g : globals) :
  deref hp <> 0 -> fields_decode hp = true ->
  readHeader sys hp fileCount fileTable g
  = handleEntry sys hp fileCount fileTable (hdr_size hp)
      (to_uint (hdr_devMajor hp)) (to_uint (hdr_devMinor hp))
      (prepareEntry hp g).
Proof.
  intros Hname Hok. unfold readHeader.
  cbn [outName set_outName].
  destruct (deref hp =? 0) eqn:E; [apply Z.eqb_eq in E; contradiction|].
  cbn [mode uid gid set_mode set_uid set_gid set_mtime].
  rewrite fields_test, Hok. cbn [negb].
  unfold prepareEntry, decodeFields. reflexivity.
Qed.

Lemma readHeader_rejects (hp : list Z) (fileCount : Z)
    (fileTable : list (list Z))
    (g : globals) :
  deref hp <> 0 -> fields_decode hp = false ->
  readHeader sys hp fileCount fileTable g
  = set_badHeader true
      (if badHeader g then decodeFields hp g
       else log msg_bad_header (decodeFields hp g)).
Proof.
  intros Hname Hok. unfold readHeader.
  cbn [outName set_outName].
  destruct (deref hp =? 0) eqn:E; [apply Z.eqb_eq in E; contradiction|].
  cbn [mode uid gid set_mode set_uid set_gid set_mtime].
  rewrite fields_test, Hok. cbn [negb].
  fold (decodeFields hp g).
  change (badHeader (decodeFields hp g)) with (badHeader g). reflexivity.
Qed.

Lemma fields_decode_false (hp : list Z) :
  hdr_mode hp = -1 \/ hdr_uid hp = -1 \/ hdr_gid hp = -1 \/ hdr_size hp = -1
  <-> fields_decode hp = false.
Proof.
  unfold fields_decode.
  pose proof (getOctal_range (skipn off_mode hp) sz_mode ltac:(layout; lia)) as Hm.
  pose proof (getOctal_range (skipn off_uid hp) sz_uid ltac:(layout; lia)) as Hu.
  pose proof (getOctal_range (skipn off_gid hp) sz_gid ltac:(layout; lia)) as Hg.
  pose proof (getOctal_range (skipn off_size hp) sz_size ltac:(layout; lia)) as Hs.
  fold (hdr_mode hp) in Hm. fold (hdr_uid hp) in Hu.
  fold (hdr_gid hp) in Hg. fold (hdr_size hp) in Hs.
  rewrite !andb_false_iff, !Z.leb_gt. lia.
Qed.

Lemma fields_decode_true (hp : list Z) :
  0 <= hdr_mode hp /\ 0 <= hdr_uid hp /\ 0 <= hdr_gid hp /\ 0 <= hdr_size hp
  <-> fields_decode hp = true.
Proof.
  unfold fields_decode. rewrite !andb_true_iff, !Z.leb_le. tauto.
Qed.

(** A header whose mode, uid, gid or size does not decode: the block is
    dropped, with a warning unless the header before it was bad too. *)
Lemma readHeader_bad (hp : list Z) (fileCount : Z)
    (fileTable : list (list Z)) (g : globals) :
  deref hp <> 0 -> fields_decode hp = false ->
  let g' := readHeader sys hp fileCount fileTable g in
  badHeader g' = true
  /\ trace g' = trace g ++ (if badHeader g then [] else [msg_bad_header])
  /\ inHeader g' = inHeader g
  /\ dataCc g' = dataCc g
  /\ eofFlag g' = eofFlag g
  /\ errorFlag g' = errorFlag g
  /\ skipFileFlag g' = skipFileFlag g
  /\ outFd g' = outFd g.
Proof.
  intros Hname Hbad g'. unfold g'.
  rewrite readHeader_rejects by assumption.
  unfold decodeFields, log. destruct (badHeader g) eqn:E;
    cbn; rewrite ?app_nil_r; repeat split; reflexivity.
Qed.

(** A header whose four checked fields decode clears the bad-header flag,
    whatever the other fields hold. *)
Lemma readHeader_good (hp : list Z) (fileCount : Z)
    (fileTable : list (list Z)) (g : globals) :
  deref hp <> 0 -> fields_decode hp = true ->
  badHeader (readHeader sys hp fileCount fileTable g) = false.
Proof.
  intros Hname Hok. rewrite readHeader_decodes by assumption.
  rewrite (proj2 (handleEntry_frame sys _ _ _ _ _ _ _)).
  unfold prepareEntry.
  rewrite (proj1 (proj2 (proj2 (stripRoot_frame _)))).
  rewrite (proj1 (proj2 (checkDirectory_frame _))).
  reflexivity.
Qed.
End ReadHeader.

(** ** The reader: bad headers, entry types and the data state *)

(** C4, as the code has it. For a header block whose name is not empty,
    [readHeader] treats the header as bad exactly when its mode, uid, gid
    or size field fails to decode (-1): the flag is set, the block is
    dropped and nothing else changes but the warning. A field that decodes
    to zero is valid. The mtime, checksum and device fields are decoded
    but never checked. A block whose name starts with a NUL is dropped
    before any field is decoded, without the flag and without a
    warning. *)
Theorem readHeader_checked_fields
    (sys : syscall -> Z) (hp : list Z) (fileCount : Z)
        (fileTable : list (list Z))
    (g : globals) :
  (deref hp <> 0 ->
   hdr_mode hp = -1 \/ hdr_uid hp = -1 \/ hdr_gid hp = -1 \/ hdr_size hp = -1 ->
   let g' := readHeader sys hp fileCount fileTable g in
   badHeader g' = true
   /\ trace g' = trace g ++ (if badHeader g then [] else [msg_bad_header])
   /\ inHeader g' = inHeader g
   /\ dataCc g' = dataCc g
   /\ eofFlag g' = eofFlag g
   /\ errorFlag g' = errorFlag g
   /\ skipFileFlag g' = skipFileFlag g
   /\ outFd g' = outFd g)
  /\ (deref hp <> 0 ->
      0 <= hdr_mode hp /\ 0 <= hdr_uid hp /\ 0 <= hdr_gid hp
        /\ 0 <= hdr_size hp ->
      badHeader (readHeader sys hp fileCount fileTable g) = false)
  /\ (deref hp = 0 ->
      let g' := readHeader sys hp fileCount fileTable g in
      badHeader g' = badHeader g /\ trace g' = trace g
      /\ inHeader g' = inHeader g /\ dataCc g' = dataCc g).
Proof.
  split; [|split].
  - intros Hname Hbad. apply readHeader_bad; [assumption|].
    now apply fields_decode_false.
  - intros Hname Hok. apply readHeader_good; [assumption|].
    now apply fields_decode_true.
  - intros Hname g'. unfold g', readHeader. cbn [outName set_outName].
    rewrite Hname. cbn [Z.eqb].
    destruct (scanEmpty TAR_BLOCK_SIZE hp) as [[|] rest];
      repeat split; reflexivity.
Qed.

Lemma readHeader_checked_fields_witness :
  (badHeader (readHeader sys_ok noise_block 0 [] list_globals) = true
   /\ trace (readHeader sys_ok noise_block 0 [] list_globals)
      = trace list_globals ++ [msg_bad_header])
  /\ badHeader (readHeader sys_ok empty_file_block 0 [] list_globals) = false.
Proof.
  pose proof (readHeader_checked_fields sys_ok noise_block 0 [] list_globals)
    as [Hbad _].
  pose proof (readHeader_checked_fields sys_ok empty_file_block 0 []
                list_globals) as [_ [Hgood _]].
  split.
  - destruct Hbad as (H1 & H2 & _);
      [vm_compute; discriminate | left; vm_compute; reflexivity|].
    split; [exact H1 | exact H2].
  - apply Hgood; [vm_compute; discriminate|].
    vm_compute. repeat split; discriminate.
Defined.

(** The header of "a" with an mtime that is no octal number and device
    fields of NULs: three of its numeric fields fail to decode, and the
    entry is listed as any other. *)
Lemma readHeader_accepts_invalid_mtime_and_device :
  deref odd_mtime_block <> 0
  /\ hdr_mtime odd_mtime_block = -1
  /\ hdr_devMajor odd_mtime_block = -1
  /\ hdr_devMinor odd_mtime_block = -1
  /\ badHeader (readHeader sys_ok odd_mtime_block 0 [] list_globals) = false
  /\ trace (readHeader sys_ok odd_mtime_block 0 [] list_globals)
     = [ListName (cstr "a"); ListEnd].
Proof.
  split; [vm_compute; discriminate|].
  repeat split; vm_compute; reflexivity.
Qed.

Section ReaderLoop.
Variable sys : syscall -> Z.
Variable BUF_SIZE : nat.

(** A turn of the loop of [readTarFile] in the header state, with data in
    the buffer: the block at [cp] is examined and [cp] moves on by one
    block. *)
Lemma readTarFile_step_header (fileCount : Z) (fileTable : list (list Z))
    (r : reader) :
  inHeader (statics r) = true -> 0 < inCc r ->
  readTarFile_step sys BUF_SIZE fileCount fileTable r
  = Continue (mkReader (tarIn r) (buf r) (skipn TAR_BLOCK_SIZE (cp r))
                (inCc r - Z.of_nat TAR_BLOCK_SIZE)
                (readHeader sys (cp r) fileCount fileTable (statics r))).
Proof.
  intros Hin Hcc. unfold readTarFile_step.
  replace (inCc r <=? 0) with false by (symmetry; apply Z.leb_gt; lia).
  now rewrite Hin.
Qed.
End ReaderLoop.

(** C7, as the code has it. When the reader meets a header block whose
    mode, uid, gid or size does not decode, it stays in the header state,
    moves on by that one block and goes on reading; nothing is aborted.
    The warning is printed unless the header block before it was bad too:
    once for each run of consecutive bad blocks, not once for the whole
    archive, because every good header clears the flag. *)
Theorem readTarFile_skips_bad_header
    (sys : syscall -> Z) (BUF_SIZE : nat) (fileCount : Z)
        (fileTable : list (list Z))
    (r : reader) :
  inHeader (statics r) = true -> 0 < inCc r ->
  deref (cp r) <> 0 ->
  hdr_mode (cp r) = -1 \/ hdr_uid (cp r) = -1 \/ hdr_gid (cp r) = -1
    \/ hdr_size (cp r) = -1 ->
  (exists r',
      readTarFile_step sys BUF_SIZE fileCount fileTable r = Continue r'
      /\ tarIn r' = tarIn r
      /\ cp r' = skipn TAR_BLOCK_SIZE (cp r)
      /\ inCc r' = inCc r - Z.of_nat TAR_BLOCK_SIZE
      /\ inHeader (statics r') = true
      /\ eofFlag (statics r') = eofFlag (statics r)
      /\ errorFlag (statics r') = errorFlag (statics r)
      /\ badHeader (statics r') = true
      /\ trace (statics r')
         = trace (statics r)
             ++ (if badHeader (statics r) then [] else [msg_bad_header]))
  /\ (forall hp g,
         deref hp <> 0 -> fields_decode hp = true ->
         badHeader (readHeader sys hp fileCount fileTable g) = false).
Proof.
  intros Hin Hcc Hname Hbad.
  split; [|intros hp g; apply readHeader_good].
  apply fields_decode_false in Hbad.
  destruct (readHeader_bad sys (cp r) fileCount fileTable (statics r) Hname
    Hbad)
    as (H1 & H2 & H3 & _ & H5 & H6 & _).
  eexists. split; [apply readTarFile_step_header; assumption|].
  cbn [tarIn cp inCc statics].
  repeat split; try assumption; try reflexivity.
  now rewrite H3.
Qed.

Lemma readTarFile_skips_bad_header_witness :
  exists r',
    readTarFile_step sys_ok 1024 0 []
      (mkReader (mkSource [] false) noise_block noise_block 512
         (set_inHeader true list_globals))
    = Continue r'
    /\ cp r' = []
    /\ inHeader (statics r') = true
    /\ trace (statics r') = [msg_bad_header].
Proof.
  destruct (readTarFile_skips_bad_header sys_ok 1024 0 []
              (mkReader (mkSource [] false) noise_block noise_block 512
                 (set_inHeader true list_globals)))
    as [(r' & H1 & _ & H3 & _ & H5 & _ & _ & _ & H9) _].
  - reflexivity.
  - reflexivity.
  - vm_compute. discriminate.
  - left. vm_compute. reflexivity.
  - exists r'. split; [exact H1|]. split; [|split; [exact H5 | exact H9]].
    rewrite H3. vm_compute. reflexivity.
Defined.

(** Listing an archive in which a good header stands between two bad
    blocks prints the warning twice. *)
Lemma readTarFile_warns_twice :
  exists g',
    readTarFile sys_ok 1024 10 0 [] (Some (mkSource noisy_archive false))
      (repeat 0 1024) list_globals = Some g'
    /\ trace g'
       = [msg_bad_header; ListName (cstr "a"); ListEnd; msg_bad_header]
    /\ bad_header_warnings (trace g') = 2%nat
    /\ eofFlag g' = true /\ errorFlag g' = false.
Proof.
  eexists. split; [vm_compute; reflexivity|].
  repeat split; vm_compute; reflexivity.
Qed.

(** ** File type bits *)

Lemma type_bits (m : Z) :
  exists k, 0 <= k < 16 /\ Z.land m S_IFMT = 4096 * k.
Proof.
  exists (Z.land (Z.shiftr m 12) 15). split.
  - change 15 with (Z.ones 4). rewrite Z.land_ones by lia.
    change (2 ^ 4) with 16. apply Z.mod_pos_bound. lia.
  - rewrite Z.mul_comm. change 4096 with (2 ^ 12).
    rewrite <- Z.shiftl_mul_pow2 by lia.
    change S_IFMT with (Z.shiftl 15 12).
    apply Z.bits_inj'. intros n Hn.
    rewrite Z.land_spec.
    destruct (Z.lt_ge_cases n 12) as [Hlow | Hhigh].
    + rewrite !Z.shiftl_spec_low by assumption. apply andb_false_r.
    + rewrite !Z.shiftl_spec by lia.
      rewrite Z.land_spec, Z.shiftr_spec by lia.
      now replace (n - 12 + 12) with n by lia.
Qed.

Ltac type_cases k Hk :=
  assert (k = 0 \/ k = 1 \/ k = 2 \/ k = 3 \/ k = 4 \/ k = 5 \/ k = 6
          \/ k = 7 \/ k = 8 \/ k = 9 \/ k = 10 \/ k = 11 \/ k = 12
          \/ k = 13 \/ k = 14 \/ k = 15) as Hcases by lia;
  clear Hk;
  repeat (destruct Hcases as [Hcases | Hcases]; [subst k|]); [..|subst k].

(** Setting the directory bit never turns a mode without data into one
    with data. *)
Lemma carries_data_dir (m : Z) :
  carries_data (Z.lor m S_IFDIR) = true -> carries_data m = true.
Proof.
  unfold carries_data, S_ISREG, S_ISCHR, S_ISBLK, S_ISSOCK, S_ISFIFO.
  rewrite Z.land_lor_distr_l.
  destruct (type_bits m) as (k & Hk & ->).
  type_cases k Hk; vm_compute; intros H; first [reflexivity | exact H].
Qed.

Lemma S_ISDIR_forced (m : Z) :
  Z.land m S_IFMT = 0 \/ Z.land m S_IFMT = S_IFDIR ->
  S_ISDIR (Z.lor m S_IFDIR) = true.
Proof.
  unfold S_ISDIR. rewrite Z.land_lor_distr_l.
  intros [-> | ->]; reflexivity.
Qed.

Lemma permission_bits_no_data (m : Z) :
  Z.land m S_IFMT = 0 ->
  carries_data m = false /\ carries_data (Z.lor m S_IFDIR) = false.
Proof.
  intros H. unfold carries_data, S_ISREG, S_ISCHR, S_ISBLK, S_ISSOCK, S_ISFIFO.
  rewrite Z.land_lor_distr_l, H. split; reflexivity.
Qed.

(** The mode with which an entry is handled: the mode field, with the
    directory bit when the name ends with a slash. *)
Lemma prepareEntry_mode (hp : list Z) (g : globals) :
  fields_decode hp = true ->
  mode (prepareEntry hp g)
  = (if index hp (strlen hp - 1) =? SLASH
     then Z.lor (hdr_mode hp) S_IFDIR else hdr_mode hp).
Proof.
  intros Hok. unfold prepareEntry.
  rewrite (proj1 (proj2 (stripRoot_frame _))).
  unfold checkDirectory.
  change (outName (set_skipFileFlag false
                     (set_badHeader false (decodeFields hp g)))) with hp.
  assert (Hm : to_int (hdr_mode hp) = hdr_mode hp).
  { apply to_int_small.
    pose proof (getOctal_range (skipn off_mode hp) sz_mode
                  ltac:(layout; lia)) as Hr.
    fold (hdr_mode hp) in Hr. change (Z.of_nat sz_mode) with 8 in Hr.
    apply fields_decode_true in Hok. lia. }
  destruct (index hp (strlen hp - 1) =? SLASH).
  - change (Z.lor (to_int (hdr_mode hp)) S_IFDIR
            = Z.lor (hdr_mode hp) S_IFDIR). now rewrite Hm.
  - exact Hm.
Qed.

Lemma prepareEntry_frame (hp : list Z) (g : globals) :
  outName (prepareEntry hp g) = entryName hp
  /\ inHeader (prepareEntry hp g) = inHeader g
  /\ dataCc (prepareEntry hp g) = dataCc g
  /\ extractFlag (prepareEntry hp g) = extractFlag g.
Proof.
  unfold prepareEntry.
  destruct (stripRoot_frame
              (checkDirectory
                 (set_skipFileFlag false
                    (set_badHeader false (decodeFields hp g)))))
    as (H1 & _ & _ & H4 & H5 & H6).
  destruct (checkDirectory_frame
              (set_skipFileFlag false
                 (set_badHeader false (decodeFields hp g))))
    as (K1 & _ & K3 & K4 & K5 & _).
  rewrite H1, H4, H5, H6, K1, K3, K4, K5.
  repeat split; reflexivity.
Qed.

(** When the name ends with '/', the directory bit is or-ed into the
    mode, whatever the type flag is; the entry then tests as a directory
    when the mode field holds no other file type bits. *)
Lemma readHeader_slash_mode
    (sys : syscall -> Z) (hp : list Z) (fileCount : Z)
    (fileTable : list (list Z)) (g : globals) :
  deref hp <> 0 -> fields_decode hp = true ->
  index hp (strlen hp - 1) = SLASH ->
  mode (readHeader sys hp fileCount fileTable g)
  = Z.lor (hdr_mode hp) S_IFDIR
  /\ (Z.land (hdr_mode hp) S_IFMT = 0
      \/ Z.land (hdr_mode hp) S_IFMT = S_IFDIR ->
      S_ISDIR (mode (readHeader sys hp fileCount fileTable g)) = true).
Proof.
  intros Hname Hok Hslash.
  assert (Hmode : mode (readHeader sys hp fileCount fileTable g)
                  = Z.lor (hdr_mode hp) S_IFDIR).
  { rewrite readHeader_decodes by assumption.
    rewrite (proj1 (handleEntry_frame sys _ _ _ _ _ _ _)).
    rewrite prepareEntry_mode by assumption.
    now rewrite Hslash, Z.eqb_refl. }
  split; [exact Hmode|]. intros Hbits. rewrite Hmode.
  now apply S_ISDIR_forced.
Qed.

(** C8, at the header that shows the slip. A header named "d/" whose
    mode field is 0100644, the type bits of a regular file: the name ends
    with '/', [mode |= S_IFDIR] makes the mode 0140644, and the entry
    does not test as a directory but as a socket. Listing prints it as
    any file, and extracting calls [mknod] for it, where the entry of a
    directory goes without. *)
Theorem readHeader_slash_name_not_directory :
  index slash_regular_block (strlen slash_regular_block - 1) = SLASH
  /\ hdr_mode slash_regular_block = 33188
  /\ mode (readHeader sys_ok slash_regular_block 0 [] list_globals) = 49572
  /\ S_ISDIR (mode (readHeader sys_ok slash_regular_block 0 [] list_globals))
     = false
  /\ S_ISSOCK (mode (readHeader sys_ok slash_regular_block 0 [] list_globals))
     = true
  /\ trace (readHeader sys_ok slash_regular_block 0 [] extract_globals)
     = [Call (Sys_umask 0); Call (Sys_createPath (cstr "d/") 511);
        Call (Sys_mknod (cstr "d/") 49572 4294967295 4294967295);
        Call (Sys_utime (cstr "d/") 946684800);
        Call (Sys_chown (cstr "d/") 1000 1000);
        Call (Sys_chmod (cstr "d/") 49572)]
  /\ trace (readHeader sys_ok (header_block (cstr "d/") sample_stat) 0 []
              extract_globals)
     = [Call (Sys_umask 0); Call (Sys_createPath (cstr "d/") 16804);
        Call (Sys_utime (cstr "d/") 946684800);
        Call (Sys_chown (cstr "d/") 1000 1000);
        Call (Sys_chmod (cstr "d/") 16804)].
Proof.
  repeat split; vm_compute; reflexivity.
Qed.

(** An entry that is listed or skipped (not extracted): whether the
    reader turns to its data is decided by [awaits_data] alone. *)
Lemma handleEntry_not_extracted
    (sys : syscall -> Z) (hp : list Z) (fileCount : Z)
        (fileTable : list (list Z))
    (size major minor : Z) (g : globals) :
  extractFlag g = false \/ wantFileName (outName g) fileCount fileTable =
    false ->
  inHeader (handleEntry sys hp fileCount fileTable size major minor g)
  = (if awaits_data hp (mode g) then size =? 0 else inHeader g)
  /\ dataCc (handleEntry sys hp fileCount fileTable size major minor g)
     = (if awaits_data hp (mode g) then size else dataCc g).
Proof.
  intros Hpath. unfold handleEntry.
  destruct (wantFileName (outName g) fileCount fileTable) eqn:Hwant; cbn [negb].
  - destruct Hpath as [Hx | Hw]; [|discriminate].
    rewrite Hx. cbn [negb]. apply listEntry_transition.
  - apply skipEntry_transition.
Qed.

(** C10. When an entry is listed or is excluded by the filter, the reader
    turns to the data state (sets [dataCc] to the size and leaves the
    header state) only if the entry is neither a hard nor a soft link and
    the decoded mode field itself has the file type bits of a regular
    file, a device, a socket or a fifo. For a header that is no link and
    whose mode field holds permission bits only, as [writeHeader] stores
    it, the reader stays in the header state whatever the size is, and
    the next turn of the loop examines the first data block of the entry
    as a header. *)
Theorem readHeader_needs_type_bits_for_data
    (sys : syscall -> Z) (BUF_SIZE : nat) (fileCount : Z)
        (fileTable : list (list Z))
    (r : reader) :
  deref (cp r) <> 0 -> fields_decode (cp r) = true ->
  extractFlag (statics r) = false
    \/ wantFileName (entryName (cp r)) fileCount fileTable = false ->
  let hp := cp r in
  let g := statics r in
  let g' := readHeader sys hp fileCount fileTable g in
  (inHeader g' <> inHeader g \/ dataCc g' <> dataCc g ->
     carries_data (hdr_mode hp) = true
     /\ hardLink hp = false /\ softLink hp = false)
  /\ (awaits_data hp (mode g') = true ->
        inHeader g' = (hdr_size hp =? 0) /\ dataCc g' = hdr_size hp)
  /\ (hardLink hp = false -> softLink hp = false ->
      Z.land (hdr_mode hp) S_IFMT = 0 ->
      (inHeader g' = inHeader g /\ dataCc g' = dataCc g)
      /\ (inHeader g = true -> Z.of_nat TAR_BLOCK_SIZE < inCc r ->
          exists r1 r2,
            readTarFile_step sys BUF_SIZE fileCount fileTable r = Continue r1
            /\ statics r1 = g'
            /\ cp r1 = skipn TAR_BLOCK_SIZE hp
            /\ readTarFile_step sys BUF_SIZE fileCount fileTable r1 = Continue
              r2
            /\ statics r2
               = readHeader sys (skipn TAR_BLOCK_SIZE hp) fileCount fileTable
                 g')).
Proof.
  intros Hname Hok Hpath hp g g'.
  assert (Hg' : g' = handleEntry sys hp fileCount fileTable (hdr_size hp)
                       (to_uint (hdr_devMajor hp)) (to_uint (hdr_devMinor hp))
                       (prepareEntry hp g))
    by (apply readHeader_decodes; assumption).
  destruct (prepareEntry_frame hp g) as (Pname & Pin & Pcc & Px).
  assert (Hpath' : extractFlag (prepareEntry hp g) = false
                   \/ wantFileName (outName (prepareEntry hp g)) fileCount
                     fileTable
                      = false)
    by (rewrite Px, Pname; exact Hpath).
  destruct (handleEntry_not_extracted sys hp fileCount fileTable (hdr_size hp)
              (to_uint (hdr_devMajor hp)) (to_uint (hdr_devMinor hp))
              (prepareEntry hp g) Hpath') as [Hin Hcc].
  rewrite <- Hg' in Hin, Hcc. rewrite Pin in Hin. rewrite Pcc in Hcc.
  assert (Hmode : mode g' = mode (prepareEntry hp g))
    by (rewrite Hg'; apply handleEntry_frame).
  pose proof (prepareEntry_mode hp g Hok) as Hpm.
  assert (Hdata : awaits_data hp (mode (prepareEntry hp g)) = true ->
                  carries_data (hdr_mode hp) = true
                  /\ hardLink hp = false /\ softLink hp = false).
  { unfold awaits_data. rewrite !andb_true_iff, !negb_true_iff, Hpm.
    intros [[Hh Hs] Hc]. split; [|now split].
    destruct (index hp (strlen hp - 1) =? SLASH);
      [now apply carries_data_dir | exact Hc]. }
  split; [|split].
  - intros Hchange.
    destruct (awaits_data hp (mode (prepareEntry hp g)));
      [now apply Hdata|].
    destruct Hchange as [H | H]; contradiction.
  - rewrite Hmode. intros Ha. rewrite Ha in Hin, Hcc. now split.
  - intros Hh Hs Hbits.
    assert (Hno : awaits_data hp (mode (prepareEntry hp g)) = false).
    { unfold awaits_data. rewrite Hpm.
      destruct (permission_bits_no_data _ Hbits) as [H1 H2].
      destruct (index hp (strlen hp - 1) =? SLASH);
        [rewrite H2 | rewrite H1]; apply andb_false_r. }
    rewrite Hno in Hin, Hcc. split; [now split|].
    intros Hhdr Hbuf.
    set (r1 := mkReader (tarIn r) (buf r) (skipn TAR_BLOCK_SIZE hp)
                 (inCc r - Z.of_nat TAR_BLOCK_SIZE) g').
    exists r1,
      (mkReader (tarIn r1) (buf r1) (skipn TAR_BLOCK_SIZE (cp r1))
         (inCc r1 - Z.of_nat TAR_BLOCK_SIZE)
         (readHeader sys (cp r1) fileCount fileTable (statics r1))).
    split; [apply readTarFile_step_header; [exact Hhdr | lia]|].
    split; [reflexivity|]. split; [reflexivity|].
    split; [|reflexivity].
    apply readTarFile_step_header.
    + unfold r1. cbn [statics]. rewrite Hin. exact Hhdr.
    + unfold r1. cbn [inCc]. lia.
Qed.

Lemma readHeader_needs_type_bits_for_data_witness :
  exists r1 r2,
    readTarFile_step sys_ok 2048 0 []
      (mkReader (mkSource [] false) own_archive own_archive 1536
         (set_inHeader true list_globals)) = Continue r1
    /\ inHeader (statics r1) = true
    /\ readTarFile_step sys_ok 2048 0 [] r1 = Continue r2
    /\ trace (statics r2)
       = [ListName (cstr "hello.txt"); ListEnd; msg_bad_header].
Proof.
  destruct (readHeader_needs_type_bits_for_data sys_ok 2048 0 []
              (mkReader (mkSource [] false) own_archive own_archive 1536
                 (set_inHeader true list_globals)))
    as (_ & _ & H).
  - vm_compute. discriminate.
  - vm_compute. reflexivity.
  - left. reflexivity.
  - destruct H as [[Hin _] Hloop];
      [vm_compute; reflexivity | vm_compute; reflexivity
      | vm_compute; reflexivity|].
    destruct Hloop as (r1 & r2 & H1 & H2 & H3 & H4 & H5);
      [reflexivity | vm_compute; reflexivity|].
    exists r1, r2. split; [exact H1|]. split; [|split; [exact H4|]].
    + rewrite H2. vm_compute. reflexivity.
    + rewrite H5. vm_compute. reflexivity.
Defined.

(** * Further properties of the code *)

(** ** Reading a buffer that was written to *)

Lemma peek_poke_same (buf : list Z) (off : nat) (bytes : list Z) :
  (off <= length buf)%nat ->
  peek (poke buf off bytes) off (length bytes) = bytes.
Proof.
  intros H. unfold peek. rewrite skipn_poke by assumption.
  rewrite firstn_app, firstn_all, Nat.sub_diag. simpl. apply app_nil_r.
Qed.

Lemma peek_poke_other (buf : list Z) (off : nat) (bytes : list Z)
    (a n : nat) :
  (off + length bytes <= length buf)%nat ->
  (a + n <= off \/ off + length bytes <= a)%nat ->
  peek (poke buf off bytes) a n = peek buf a n.
Proof.
  intros Hin [Hbefore | Hafter]; unfold peek, poke.
  - rewrite skipn_app, length_firstn, Nat.min_l by lia.
    replace (a - off)%nat with O by lia. rewrite skipn_0.
    rewrite firstn_app, length_skipn, length_firstn, Nat.min_l by lia.
    replace (n - (off - a))%nat with O by lia. rewrite firstn_0, app_nil_r.
    rewrite !firstn_skipn_comm, firstn_firstn. f_equal. f_equal. lia.
  - rewrite skipn_app, length_firstn, Nat.min_l by lia.
    rewrite skipn_all2 by (rewrite length_firstn; lia). cbn [app].
    rewrite skipn_app, skipn_all2 by lia. cbn [app].
    rewrite skipn_skipn. do 2 f_equal. lia.
Qed.

Lemma peek_store_other (buf : list Z) (off len : nat) (v : Z) (a n : nat) :
  (off + len <= length buf)%nat ->
  (a + n <= off \/ off + len <= a)%nat ->
  peek (store_octal buf off len v) a n = peek buf a n.
Proof.
  intros Hin Hd. unfold store_octal.
  destruct (putOctal len v) as [field|] eqn:E; [|reflexivity].
  apply putOctal_field in E. destruct E as [E _].
  apply peek_poke_other; rewrite E; assumption.
Qed.

Lemma peek_store_same (buf : list Z) (off len : nat) (v : Z) :
  (off + len <= length buf)%nat ->
  peek (store_octal buf off len v) off len
  = match putOctal len v with
    | Some field => field
    | None => peek buf off len
    end.
Proof.
  intros Hin. unfold store_octal.
  destruct (putOctal len v) as [field|] eqn:E; [|reflexivity].
  apply putOctal_field in E. destruct E as [E _]. subst len.
  apply peek_poke_same. lia.
Qed.

Lemma getOctal_peek (h : list Z) (a n : nat) :
  (a + n <= length h)%nat -> getOctal (skipn a h) n = getOctal (peek h a n) n.
Proof.
  intros H. unfold peek.
  rewrite <- (firstn_skipn n (skipn a h)) at 1.
  apply getOctal_field_prefix. rewrite length_firstn, length_skipn. lia.
Qed.

Lemma peek_app_l (h tail : list Z) (a n : nat) :
  (a + n <= length h)%nat -> peek (h ++ tail) a n = peek h a n.
Proof.
  intros H. unfold peek. rewrite skipn_app, firstn_app, length_skipn.
  replace (a - length h)%nat with O by lia.
  replace (n - (length h - a))%nat with O by lia.
  rewrite firstn_0. apply app_nil_r.
Qed.

(** ** The fields of a written header *)

Lemma peek_poke_other_sized (buf : list Z) (off : nat) (bytes : list Z)
    (a n : nat) :
  length buf = sizeof_TarHeader ->
  (off + length bytes <= sizeof_TarHeader)%nat ->
  (a + n <= off \/ off + length bytes <= a)%nat ->
  peek (poke buf off bytes) a n = peek buf a n.
Proof. intros Hl Hin Hd. apply peek_poke_other; [rewrite Hl|]; assumption. Qed.

Lemma peek_store_other_sized (buf : list Z) (off len : nat) (v : Z)
    (a n : nat) :
  length buf = sizeof_TarHeader ->
  (off + len <= sizeof_TarHeader)%nat ->
  (a + n <= off \/ off + len <= a)%nat ->
  peek (store_octal buf off len v) a n = peek buf a n.
Proof. intros Hl Hin Hd. apply peek_store_other; [rewrite Hl|]; assumption. Qed.

(** The sizes of the stages of [fillHeader], and the bounds of its
    members. *)
Ltac bounds Hname :=
  layout; rewrite ?length_app, ?repeat_length;
  try unfold strlen in *; simpl; lia.

Ltac sized Hname :=
  repeat first [ apply store_octal_sized | apply poke_sized
               | apply repeat_length ];
  try bounds Hname.

(** Look through the stores that do not touch the bytes read. *)
Ltac peel Hname :=
  repeat first
    [ rewrite peek_store_other_sized
        by solve [ sized Hname | bounds Hname ]
    | rewrite peek_poke_other_sized
        by solve [ sized Hname | bounds Hname ] ].

Lemma peek_zeros (a n : nat) :
  (a + n <= sizeof_TarHeader)%nat ->
  peek (repeat 0 sizeof_TarHeader) a n = repeat 0 n.
Proof.
  intros H. unfold peek. rewrite skipn_repeat.
  replace (sizeof_TarHeader - a)%nat with (n + (sizeof_TarHeader - a - n))%nat
    by lia.
  rewrite repeat_app, firstn_app, repeat_length, Nat.sub_diag.
  rewrite firstn_all2 by (rewrite repeat_length; lia).
  simpl. apply app_nil_r.
Qed.

Lemma peek_stored (buf : list Z) (off len : nat) (v : Z) :
  length buf = sizeof_TarHeader -> (off + len <= sizeof_TarHeader)%nat ->
  peek buf off len = repeat 0 len ->
  peek (store_octal buf off len v) off len = stored len v.
Proof.
  intros Hl Hin Hz. rewrite peek_store_same by (rewrite Hl; exact Hin).
  unfold stored. now destruct (putOctal len v).
Qed.

Lemma peek_poke_same_sized (buf : list Z) (off : nat) (bytes : list Z)
    (n : nat) :
  length buf = sizeof_TarHeader -> (off <= sizeof_TarHeader)%nat ->
  n = length bytes ->
  peek (poke buf off bytes) off n = bytes.
Proof.
  intros Hl Hoff ->. apply peek_poke_same. rewrite Hl. exact Hoff.
Qed.

Lemma permission_bits_range (m : Z) : 0 <= Z.land m 511 < 512.
Proof.
  change 511 with (Z.ones 9). rewrite Z.land_ones by lia.
  apply Z.mod_pos_bound. reflexivity.
Qed.

(** What each member of the header holds when [writeHeader] has filled
    it. *)
Lemma fillHeader_members (fileName : list Z) (statbuf : stat) :
  (strlen fileName <= TAR_NAME_SIZE)%nat ->
  let header := fillHeader fileName statbuf in
  peek header off_name (strlen fileName) = cstring fileName
  /\ peek header off_mode sz_mode
     = stored sz_mode (Z.land (st_mode statbuf) 511)
  /\ peek header off_uid sz_uid = stored sz_uid (st_uid statbuf)
  /\ peek header off_gid sz_gid = stored sz_gid (st_gid statbuf)
  /\ peek header off_size sz_size = stored sz_size (st_size statbuf)
  /\ peek header off_mtime sz_mtime = stored sz_mtime (st_mtime statbuf)
  /\ peek header off_typeFlag 1 = [TAR_TYPE_REGULAR]
  /\ peek header off_magic sz_magic = [117; 115; 116; 97; 114; 0]
  /\ peek header off_version sz_version = [48; 48]
  /\ peek header off_devMajor sz_devMajor = repeat 0 sz_devMajor
  /\ peek header off_devMinor sz_devMinor = repeat 0 sz_devMinor.
Proof.
  intros Hname header. unfold header, fillHeader. cbv zeta.
  rewrite magic_bytes, version_bytes.
  repeat split.
  - peel Hname.
    replace (strlen fileName) with (length (cstring fileName)) by reflexivity.
    unfold peek, poke, off_name. cbn [firstn skipn app].
    rewrite <- app_assoc, firstn_app, firstn_all, Nat.sub_diag.
    simpl. apply app_nil_r.
  - peel Hname.
    rewrite peek_store_same by (rewrite poke_sized; solve [sized Hname | bounds Hname]).
    unfold stored.
    pose proof (permission_bits_range (st_mode statbuf)) as Hm.
    destruct (putOctal_succeeds_iff sz_mode (Z.land (st_mode statbuf) 511)
                ltac:(layout; lia) ltac:(unfold LONG_MAX; lia)) as [Hok _].
    destruct Hok as [field ->]; [layout; simpl; lia | reflexivity].
  - peel Hname. apply peek_stored;
      [sized Hname | bounds Hname | peel Hname; apply peek_zeros; bounds Hname].
  - peel Hname. apply peek_stored;
      [sized Hname | bounds Hname | peel Hname; apply peek_zeros; bounds Hname].
  - peel Hname. apply peek_stored;
      [sized Hname | bounds Hname | peel Hname; apply peek_zeros; bounds Hname].
  - peel Hname. apply peek_stored;
      [sized Hname | bounds Hname | peel Hname; apply peek_zeros; bounds Hname].
  - peel Hname. apply peek_poke_same_sized;
      [sized Hname | bounds Hname | reflexivity].
  - peel Hname. apply peek_poke_same_sized;
      [sized Hname | bounds Hname | reflexivity].
  - peel Hname. apply peek_poke_same_sized;
      [sized Hname | bounds Hname | reflexivity].
  - peel Hname. apply peek_zeros. bounds Hname.
  - peel Hname. apply peek_zeros. bounds Hname.
Qed.

Lemma fillHeader_name_end (fileName : list Z) (statbuf : stat) :
  (strlen fileName < TAR_NAME_SIZE)%nat ->
  peek (fillHeader fileName statbuf) off_name (S (strlen fileName))
  = cstring fileName ++ [0].
Proof.
  intros Hname. unfold fillHeader. cbv zeta.
  rewrite magic_bytes, version_bytes. peel Hname.
  apply peek_poke_same_sized; [sized Hname | bounds Hname|].
  rewrite length_app. unfold strlen. simpl. lia.
Qed.

Lemma index_skipn (h : list Z) (a : nat) : index h a = deref (skipn a h).
Proof.
  unfold index, deref. revert h. induction a as [|a IH]; intros h.
  - now destruct h.
  - destruct h as [|c h]; [reflexivity | apply IH].
Qed.

Lemma index_peek (h : list Z) (a : nat) : index h a = deref (peek h a 1).
Proof.
  rewrite index_skipn. unfold peek, deref. now destruct (skipn a h).
Qed.

(** A numeric member of a written block, as [readHeader] decodes it. *)
Lemma member_decoded (fileName : list Z) (statbuf : stat) (off len : nat) :
  (strlen fileName <= TAR_NAME_SIZE)%nat ->
  (off + len <= sizeof_TarHeader)%nat ->
  getOctal (skipn off (header_block fileName statbuf)) len
  = getOctal (peek (fillHeader fileName statbuf) off len) len.
Proof.
  intros Hname Hin. unfold header_block.
  pose proof (fillHeader_length fileName statbuf Hname) as Hlen.
  rewrite getOctal_peek by (rewrite length_app, Hlen; lia).
  now rewrite peek_app_l by (rewrite Hlen; lia).
Qed.

Lemma getOctal_nul (cp : list Z) (len : nat) : getOctal (0 :: cp) len = -1.
Proof.
  destruct len as [|len]; [reflexivity|]. unfold getOctal. simpl.
  reflexivity.
Qed.

(** A value that fits its field is stored and decodes to itself; any
    other value leaves NULs, which decode to -1. *)
Lemma getOctal_stored (len : nat) (v : Z) :
  (0 < len)%nat ->
  (0 <= v <= LONG_MAX -> v < 8 ^ Z.of_nat len ->
   getOctal (stored len v) len = v)
  /\ (putOctal len v = None -> getOctal (stored len v) len = -1).
Proof.
  intros Hlen. unfold stored. split.
  - intros Hv Hfit.
    destruct (putOctal_succeeds_iff len v Hlen Hv) as [Hok _].
    destruct (Hok Hfit) as [field Hput]. rewrite Hput.
    now apply putOctal_decodes.
  - intros ->. destruct len as [|len]; [lia|]. apply getOctal_nul.
Qed.

Lemma header_block_length (fileName : list Z) (statbuf : stat) :
  (strlen fileName <= TAR_NAME_SIZE)%nat ->
  length (header_block fileName statbuf) = TAR_BLOCK_SIZE.
Proof.
  intros Hle. unfold header_block.
  rewrite length_app, repeat_length, fillHeader_length by assumption.
  reflexivity.
Qed.

Lemma peek_from_start (h : list Z) (n : nat) :
  peek h off_name n = firstn n h.
Proof. reflexivity. Qed.

Lemma header_block_name (fileName : list Z) (statbuf : stat) :
  (strlen fileName < TAR_NAME_SIZE)%nat ->
  cstring (header_block fileName statbuf) = cstring fileName.
Proof.
  intros Hname.
  pose proof (fillHeader_name_end fileName statbuf Hname) as Hend.
  rewrite peek_from_start in Hend.
  unfold header_block.
  rewrite <- (firstn_skipn (S (strlen fileName))
                (fillHeader fileName statbuf)).
  rewrite Hend, <- !app_assoc. cbn [app].
  apply cstring_until_nul, cstring_no_nul.
Qed.

Lemma header_block_typeFlag (fileName : list Z) (statbuf : stat) :
  (strlen fileName <= TAR_NAME_SIZE)%nat ->
  hdr_typeFlag (header_block fileName statbuf) = TAR_TYPE_REGULAR.
Proof.
  intros Hle.
  pose proof (fillHeader_length fileName statbuf Hle) as Hlen.
  destruct (fillHeader_members fileName statbuf Hle)
    as (_ & _ & _ & _ & _ & _ & Htype & _).
  unfold hdr_typeFlag, header_block. rewrite index_peek.
  rewrite peek_app_l by (rewrite Hlen; layout; lia).
  now rewrite Htype.
Qed.

Lemma stored_fits (len : nat) (v : Z) :
  (0 < len <= 12)%nat -> 0 <= v < 8 ^ Z.of_nat len ->
  getOctal (stored len v) len = v.
Proof.
  intros Hlen Hv. apply getOctal_stored; [lia | | lia].
  assert (8 ^ Z.of_nat len <= 8 ^ 12) by (apply Z.pow_le_mono_r; lia).
  unfold LONG_MAX. lia.
Qed.

(** X1. The header that [writeHeader] writes for a name of fewer than 100
    characters reads back as it was written: [readHeader] finds the same
    name, the permission bits of the mode, and the uid, gid, size and
    mtime whenever these fit their fields (8 digits for uid and gid, 12
    for size and mtime). The type flag is that of a regular file, and the
    device fields, which are never written, decode as invalid. *)
Theorem header_block_roundtrip (fileName : list Z) (statbuf : stat) :
  (strlen fileName < TAR_NAME_SIZE)%nat ->
  let hp := header_block fileName statbuf in
  length hp = TAR_BLOCK_SIZE
  /\ cstring hp = cstring fileName
  /\ hdr_mode hp = Z.land (st_mode statbuf) 511
  /\ (0 <= st_uid statbuf < 8 ^ 8 -> hdr_uid hp = st_uid statbuf)
  /\ (0 <= st_gid statbuf < 8 ^ 8 -> hdr_gid hp = st_gid statbuf)
  /\ (0 <= st_size statbuf < 8 ^ 12 -> hdr_size hp = st_size statbuf)
  /\ (0 <= st_mtime statbuf < 8 ^ 12 -> hdr_mtime hp = st_mtime statbuf)
  /\ hdr_typeFlag hp = TAR_TYPE_REGULAR
  /\ hardLink hp = false /\ softLink hp = false
  /\ hdr_devMajor hp = -1 /\ hdr_devMinor hp = -1.
Proof.
  intros Hname hp.
  assert (Hle : (strlen fileName <= TAR_NAME_SIZE)%nat) by lia.
  destruct (fillHeader_members fileName statbuf Hle)
    as (_ & Hmode & Huid & Hgid & Hsize & Hmtime & _ & _ & _
        & Hmajor & Hminor).
  pose proof (header_block_typeFlag fileName statbuf Hle) as Hflag.
  fold hp in Hflag.
  split; [now apply header_block_length|].
  split; [now apply header_block_name|].
  split.
  { unfold hdr_mode, hp.
    rewrite member_decoded, Hmode by (layout; lia).
    apply stored_fits; [layout; lia|].
    pose proof (permission_bits_range (st_mode statbuf)).
    change (8 ^ Z.of_nat sz_mode) with 16777216. lia. }
  split.
  { intros Hv. unfold hdr_uid, hp.
    rewrite member_decoded, Huid by (layout; lia).
    apply stored_fits; [layout; lia | exact Hv]. }
  split.
  { intros Hv. unfold hdr_gid, hp.
    rewrite member_decoded, Hgid by (layout; lia).
    apply stored_fits; [layout; lia | exact Hv]. }
  split.
  { intros Hv. unfold hdr_size, hp.
    rewrite member_decoded, Hsize by (layout; lia).
    apply stored_fits; [layout; lia | exact Hv]. }
  split.
  { intros Hv. unfold hdr_mtime, hp.
    rewrite member_decoded, Hmtime by (layout; lia).
    apply stored_fits; [layout; lia | exact Hv]. }
  split; [exact Hflag|].
  split; [unfold hardLink; rewrite Hflag; reflexivity|].
  split; [unfold softLink; rewrite Hflag; reflexivity|].
  split.
  - unfold hdr_devMajor, hp.
    rewrite member_decoded, Hmajor by (layout; lia). reflexivity.
  - unfold hdr_devMinor, hp.
    rewrite member_decoded, Hminor by (layout; lia). reflexivity.
Qed.

Lemma header_block_roundtrip_witness :
  let hp := header_block (cstr "hello.txt") sample_stat in
  cstring hp = cstr "hello.txt"
  /\ hdr_mode hp = 420 /\ hdr_uid hp = 1000 /\ hdr_size hp = 4
  /\ hdr_mtime hp = 946684800.
Proof.
  destruct (header_block_roundtrip (cstr "hello.txt") sample_stat)
    as (_ & Hn & Hm & Hu & _ & Hs & Ht & _).
  - vm_compute. lia.
  - split; [rewrite Hn; reflexivity|]. split; [exact Hm|].
    split; [apply Hu; simpl; lia|].
    split; [apply Hs; simpl; lia | apply Ht; simpl; lia].
Defined.

(** ** Values that do not fit their field *)

Lemma putOctal_rejects_negative_aux (len : nat) (v : Z) :
  (len <= 21)%nat -> - 2 ^ 63 <= v < 0 -> putOctal len v = None.
Proof.
  intros Hlen Hv.
  pose proof (putOctal_cases len v) as (_ & _ & _ & H4). apply H4.
  assert (Hu : to_ulong v = v + 2 ^ 64).
  { unfold to_ulong. symmetry.
    apply (Z.mod_unique_pos v (2 ^ 64) (-1) (v + 2 ^ 64)); lia. }
  pose proof (octal_digits_length ULONG_OCTAL_DIGITS (to_ulong v) 21) as Hl.
  rewrite Hu in *.
  change (8 ^ Z.of_nat ULONG_OCTAL_DIGITS) with (2 ^ 66) in Hl.
  change (8 ^ Z.of_nat 21) with (2 ^ 63) in Hl.
  specialize (Hl ltac:(lia) ltac:(lia)).
  destruct (Nat.le_gt_cases
              (length (octal_digits ULONG_OCTAL_DIGITS (v + 2 ^ 64))) 21)
    as [Hshort | Hlong]; [|lia].
  apply Hl in Hshort. lia.
Qed.

(** X2. [putOctal] prints its value as an unsigned long: a negative value
    has 22 octal digits and is stored in no field of up to 21 bytes. *)
Theorem putOctal_rejects_negative (len : nat) (v : Z) :
  (len <= 21)%nat -> - 2 ^ 63 <= v < 0 ->
  putOctal len v = None /\ forall buf off, store_octal buf off len v = buf.
Proof.
  intros Hlen Hv.
  pose proof (putOctal_rejects_negative_aux len v Hlen Hv) as Hnone.
  split; [exact Hnone|]. intros buf off. unfold store_octal.
  now rewrite Hnone.
Qed.

Lemma putOctal_rejects_negative_witness :
  putOctal 12 (-1) = None /\ forall buf off, store_octal buf off 12 (-1) = buf.
Proof.
  apply (putOctal_rejects_negative 12 (-1)); lia.
Defined.

Lemma cstring_deref (h : list Z) : cstring h <> [] -> deref h <> 0.
Proof.
  destruct h as [|c h]; simpl; [congruence|].
  destruct (c =? 0) eqn:E; [congruence|]. intros _.
  now apply Z.eqb_neq in E.
Qed.

Lemma stored_too_large (len : nat) (v : Z) :
  (0 < len)%nat -> 8 ^ Z.of_nat len <= v <= LONG_MAX ->
  getOctal (stored len v) len = -1.
Proof.
  intros Hlen Hv. apply getOctal_stored; [assumption|].
  apply putOctal_succeeds_iff; [assumption | | lia].
  assert (0 < 8 ^ Z.of_nat len) by (apply Z.pow_pos_nonneg; lia). lia.
Qed.

(** X3. [writeHeader] ignores the result of [putOctal]. A uid or gid of
    8^8 or more, or a size of 8^12 or more, leaves its field as NULs, and
    [readHeader] rejects the header that this program wrote as a bad
    header: the entry is not listed or extracted. A negative mtime leaves
    its field as NULs too, but that field is not checked: it reads back
    as -1. *)
Theorem writeHeader_unrepresentable
    (sys : syscall -> Z) (fileName : list Z) (statbuf : stat)
    (fileCount : Z) (fileTable : list (list Z)) (g : globals) :
  (strlen fileName < TAR_NAME_SIZE)%nat -> cstring fileName <> [] ->
  let hp := header_block fileName statbuf in
  (8 ^ 8 <= st_uid statbuf <= LONG_MAX
   \/ 8 ^ 8 <= st_gid statbuf <= LONG_MAX
   \/ 8 ^ 12 <= st_size statbuf <= LONG_MAX ->
   fields_decode hp = false
   /\ badHeader (readHeader sys hp fileCount fileTable g) = true
   /\ inHeader (readHeader sys hp fileCount fileTable g) = inHeader g
   /\ trace (readHeader sys hp fileCount fileTable g)
      = trace g ++ (if badHeader g then [] else [msg_bad_header]))
  /\ (- 2 ^ 63 <= st_mtime statbuf < 0 -> hdr_mtime hp = -1).
Proof.
  intros Hname Hne hp.
  assert (Hle : (strlen fileName <= TAR_NAME_SIZE)%nat) by lia.
  destruct (fillHeader_members fileName statbuf Hle)
    as (_ & _ & Huid & Hgid & Hsize & Hmtime & _).
  split.
  - intros Hbig.
    assert (Hbad : fields_decode hp = false).
    { apply fields_decode_false. unfold hdr_uid, hdr_gid, hdr_size, hp.
      destruct Hbig as [H | [H | H]].
      - right; left. rewrite member_decoded, Huid by (layout; lia).
        apply stored_too_large; [layout; lia | exact H].
      - right; right; left. rewrite member_decoded, Hgid by (layout; lia).
        apply stored_too_large; [layout; lia | exact H].
      - right; right; right. rewrite member_decoded, Hsize by (layout; lia).
        apply stored_too_large; [layout; lia | exact H]. }
    assert (Hd : deref hp <> 0).
    { apply cstring_deref. unfold hp. now rewrite header_block_name. }
    destruct (readHeader_bad sys hp fileCount fileTable g Hd Hbad)
      as (H1 & H2 & H3 & _).
    repeat split; assumption.
  - intros Hneg. unfold hdr_mtime, hp.
    rewrite member_decoded, Hmtime by (layout; lia).
    apply getOctal_stored; [layout; lia|].
    apply putOctal_rejects_negative_aux; [layout; lia | assumption].
Qed.

Lemma writeHeader_unrepresentable_witness :
  badHeader (readHeader sys_ok
               (header_block (cstr "big")
                  (mkStat 1 2 33188 16777216 1000 4 946684800))
               0 [] list_globals) = true
  /\ hdr_mtime (header_block (cstr "old")
                  (mkStat 1 2 33188 1000 1000 4 (-86400))) = -1.
Proof.
  split.
  - destruct (writeHeader_unrepresentable sys_ok (cstr "big")
                (mkStat 1 2 33188 16777216 1000 4 946684800) 0 []
                list_globals) as [H _].
    + vm_compute. lia.
    + simpl. discriminate.
    + destruct H as (_ & H & _); [|exact H].
      left. unfold LONG_MAX. simpl. lia.
  - destruct (writeHeader_unrepresentable sys_ok (cstr "old")
                (mkStat 1 2 33188 1000 1000 4 (-86400)) 0 []
                list_globals) as [_ H].
    + vm_compute. lia.
    + simpl. discriminate.
    + apply H. simpl. lia.
Defined.

(** ** A name that fills the name field *)

Lemma peek_from_start_0 (h : list Z) (n : nat) : peek h 0 n = firstn n h.
Proof. reflexivity. Qed.

Lemma split_at_member (h : list Z) (a n : nat) :
  h = peek h 0 a ++ peek h a n ++ skipn (a + n) h.
Proof.
  unfold peek. rewrite skipn_0.
  rewrite <- (firstn_skipn a h) at 1. f_equal.
  rewrite <- (firstn_skipn n (skipn a h)) at 1. f_equal.
  rewrite skipn_skipn. f_equal. lia.
Qed.

Lemma octal_digits_step (fuel : nat) (u : Z) :
  octal_digits (S fuel) u
  = (if u <? 8 then [] else octal_digits fuel (u / 8)) ++ [48 + u mod 8].
Proof. reflexivity. Qed.

(** The mode field of a written header: a space, zeroes and up to three
    digits, the last of them that of the mode, and a NUL. *)
Lemma stored_mode_shape (m : Z) :
  0 <= m < 512 ->
  exists front,
    stored sz_mode m = front ++ [48 + m mod 8] ++ [0]
    /\ length front = 6%nat
    /\ Forall (fun c => c <> 0) front.
Proof.
  intros Hm. unfold stored.
  pose proof (putOctal_cases sz_mode m) as (H1 & _).
  rewrite to_ulong_small in H1 by (unfold LONG_MAX; lia).
  pose proof (octal_digits_length ULONG_OCTAL_DIGITS m 3
                ltac:(change (8 ^ Z.of_nat ULONG_OCTAL_DIGITS) with (2 ^ 66);
                      lia) ltac:(lia)) as Hl.
  pose proof (octal_digits_isOctal ULONG_OCTAL_DIGITS m ltac:(lia)) as Hoct.
  assert (Hshort : (length (octal_digits ULONG_OCTAL_DIGITS m) <= 3)%nat)
    by (apply Hl; simpl; lia).
  rewrite H1 by (layout; lia).
  set (lead := if m <? 8 then [] else octal_digits 21 (m / 8)).
  assert (Hd : octal_digits ULONG_OCTAL_DIGITS m = lead ++ [48 + m mod 8])
    by apply (octal_digits_step 21).
  rewrite Hd in *. rewrite length_app in *. cbn [length] in Hshort.
  apply Forall_app in Hoct. destruct Hoct as [Hlead _].
  exists (SPACE :: repeat 48 (sz_mode - 2 - (length lead + 1)) ++ lead).
  split; [|split].
  - cbn [app]. now rewrite <- !app_assoc.
  - cbn [length]. rewrite length_app, repeat_length. layout. lia.
  - constructor; [unfold SPACE; lia|].
    apply Forall_app; split.
    + apply Forall_forall. intros c Hc. apply repeat_spec in Hc. lia.
    + eapply Forall_impl; [|exact Hlead]. intros c. apply isOctal_not_nul.
Qed.

(** X4. A name of exactly 100 characters (a directory whose own name has
    99) fills the name field, and [strcpy] puts its NUL into the mode
    field, where [putOctal] overwrites it. [readHeader] therefore reads
    the name on into the mode field: 107 characters, the name followed by
    the space and the six digits of the mode. The last of them is a digit,
    not '/', so that a directory written under such a name is not taken
    for a directory when the archive is read. *)
Theorem writeHeader_name_of_100 (fileName : list Z) (statbuf : stat) :
  strlen fileName = TAR_NAME_SIZE ->
  let hp := header_block fileName statbuf in
  strlen hp = 107%nat
  /\ cstring hp
     = cstring fileName
         ++ firstn 7 (stored sz_mode (Z.land (st_mode statbuf) 511))
  /\ index hp (strlen hp - 1) = 48 + Z.land (st_mode statbuf) 511 mod 8
  /\ index hp (strlen hp - 1) <> SLASH.
Proof.
  intros Hname hp.
  assert (Hle : (strlen fileName <= TAR_NAME_SIZE)%nat) by lia.
  destruct (fillHeader_members fileName statbuf Hle)
    as (Hn & Hmode & _).
  pose proof (permission_bits_range (st_mode statbuf)) as Hm.
  destruct (stored_mode_shape _ Hm) as (front & Hshape & Hfl & Hfz).
  set (m := Z.land (st_mode statbuf) 511) in *.
  assert (Hsplit : hp = cstring fileName
                          ++ (front ++ [48 + m mod 8])
                          ++ 0 :: skipn (off_mode + sz_mode)
                                    (fillHeader fileName statbuf)
                               ++ repeat 0 (TAR_BLOCK_SIZE - sizeof_TarHeader)).
  { unfold hp, header_block.
    rewrite (split_at_member (fillHeader fileName statbuf) off_mode sz_mode)
      at 1.
    replace off_mode with (strlen fileName) at 1 by (rewrite Hname; reflexivity).
    rewrite peek_from_start in Hn.
    rewrite peek_from_start_0, Hn, Hmode, Hshape.
    now rewrite <- !app_assoc. }
  assert (Hdigit : 48 + m mod 8 <> 0)
    by (pose proof (Z.mod_pos_bound m 8 ltac:(lia)); lia).
  assert (Hc : cstring hp = cstring fileName ++ front ++ [48 + m mod 8]).
  { rewrite Hsplit, cstring_app by apply cstring_no_nul. f_equal.
    apply cstring_until_nul. apply Forall_app; split; [assumption|].
    now constructor. }
  assert (Hlen : strlen hp = 107%nat).
  { unfold strlen in *. rewrite Hc, !length_app, Hname, Hfl. reflexivity. }
  assert (Hlast : index hp (strlen hp - 1) = 48 + m mod 8).
  { rewrite index_cstring by lia. rewrite Hc, Hlen, app_assoc.
    replace (107 - 1)%nat with (length (cstring fileName ++ front))
      by (rewrite length_app, Hfl; unfold strlen in Hname; rewrite Hname;
          reflexivity).
    apply nth_middle. }
  split; [exact Hlen|]. split; [|split; [exact Hlast|]].
  - rewrite Hc, Hshape. f_equal.
    rewrite app_assoc, firstn_app.
    replace (7 - length (front ++ [(48 + m mod 8)%Z]))%nat with O
      by (rewrite length_app, Hfl; reflexivity).
    rewrite firstn_0, app_nil_r. symmetry. apply firstn_all2.
    rewrite length_app, Hfl. simpl. lia.
  - rewrite Hlast. unfold SLASH.
    pose proof (Z.mod_pos_bound m 8 ltac:(lia)). lia.
Qed.

Lemma writeHeader_name_of_100_witness :
  let hp := header_block long_directory_name sample_stat in
  strlen hp = 107%nat
  /\ index hp (strlen hp - 1) = 52
  /\ index hp (strlen hp - 1) <> SLASH.
Proof.
  destruct (writeHeader_name_of_100 long_directory_name sample_stat)
    as (H1 & _ & H3 & H4).
  - vm_compute. reflexivity.
  - split; [exact H1|]. split; [exact H3 | exact H4].
Defined.

(** ** The end of the archive, as the reader sees it *)

Lemma scanEmpty_all_zero (cc : nat) (outName : list Z) :
  fst (scanEmpty cc outName) = all_zero (firstn cc outName).
Proof.
  revert outName. induction cc as [|cc IH]; intros outName; [reflexivity|].
  cbn [scanEmpty]. destruct outName as [|c outName].
  - cbn [deref hd tl Z.eqb]. rewrite IH. now rewrite !firstn_nil.
  - cbn [deref hd tl firstn]. unfold all_zero. cbn [forallb].
    destruct (c =? 0); [apply IH | reflexivity].
Qed.

Section EntryFrames.
Variable sys : syscall -> Z.

Lemma skipEntry_eof (hp : list Z) (size : Z) (g : globals) :
  eofFlag (skipEntry hp size g) = eofFlag g.
Proof. unfold skipEntry, expectData. by_cases. Qed.

Lemma listEntry_eof (hp : list Z) (size major minor : Z) (g : globals) :
  eofFlag (listEntry hp size major minor g) = eofFlag g.
Proof. unfold listEntry, expectData, log. by_cases. Qed.

Lemma extractEntry_eof (hp : list Z) (size major minor : Z) (g : globals) :
  eofFlag (extractEntry sys hp size major minor g) = eofFlag g.
Proof.
  unfold extractEntry, call, restoreAttributes, expectData, log.
  cbn -[Z.ltb Z.eqb to_int]. by_cases.
Qed.

Lemma handleEntry_eof (hp : list Z) (fileCount : Z) (fileTable : list (list Z))
    (size major minor : Z) (g : globals) :
  eofFlag (handleEntry sys hp fileCount fileTable size major minor g) =
    eofFlag g.
Proof.
  unfold handleEntry.
  destruct (negb (wantFileName (outName g) fileCount fileTable));
    [apply skipEntry_eof|].
  destruct (negb (extractFlag g));
    [apply listEntry_eof | apply extractEntry_eof].
Qed.

Lemma prepareEntry_eof (hp : list Z) (g : globals) :
  eofFlag (prepareEntry hp g) = eofFlag g.
Proof.
  unfold prepareEntry, stripRoot, checkDirectory, decodeFields. by_cases.
Qed.
End EntryFrames.

(** X5. [readHeader] signals the end of the archive exactly for a block of
    512 NUL bytes: the flag is raised by such a block and by no other, and
    is never lowered. *)
Theorem readHeader_end_of_archive
    (sys : syscall -> Z) (hp : list Z) (fileCount : Z)
        (fileTable : list (list Z))
    (g : globals) :
  eofFlag (readHeader sys hp fileCount fileTable g)
  = eofFlag g || all_zero (firstn TAR_BLOCK_SIZE hp).
Proof.
  destruct (Z.eq_dec (deref hp) 0) as [Hz | Hnz].
  - unfold readHeader. cbn [outName set_outName]. rewrite Hz. cbn [Z.eqb].
    pose proof (scanEmpty_all_zero TAR_BLOCK_SIZE hp) as Hscan.
    destruct (scanEmpty TAR_BLOCK_SIZE hp) as [empty rest].
    cbn [fst] in Hscan. rewrite <- Hscan.
    destruct empty; cbn [eofFlag set_eofFlag set_outName];
      [now rewrite orb_true_r | now rewrite orb_false_r].
  - assert (Hnot : all_zero (firstn TAR_BLOCK_SIZE hp) = false).
    { destruct hp as [|c hp]; [now contradiction Hnz|].
      unfold deref in Hnz. cbn [hd] in Hnz.
      unfold TAR_BLOCK_SIZE, all_zero. cbn [firstn forallb].
      apply Z.eqb_neq in Hnz. now rewrite Hnz. }
    rewrite Hnot, orb_false_r.
    destruct (fields_decode hp) eqn:Hok.
    + rewrite readHeader_decodes by assumption.
      now rewrite handleEntry_eof, prepareEntry_eof.
    + now destruct (readHeader_bad sys hp fileCount fileTable g Hnz Hok)
        as (_ & _ & _ & _ & H & _).
Qed.

(** ** Extracting an entry *)

Section Extracting.
Variable sys : syscall -> Z.

Lemma extractEntry_file (hp : list Z) (size major minor : Z) (g : globals) :
  hardLink hp = false -> softLink hp = false ->
  S_ISDIR (mode g) = false
    \/ sys (Sys_createPath (cstring (outName g)) (mode g)) <> 1 ->
  let g' := extractEntry sys hp size major minor g in
  inHeader g' = (size =? 0) /\ dataCc g' = size
  /\ (tostdoutFlag g = true -> outFd g' = 1 /\ skipFileFlag g' = skipFileFlag g).
Proof.
  intros Hh Hs Hdir. unfold extractEntry. rewrite Hh, Hs.
  unfold call, restoreAttributes, expectData, log.
  assert (Hnot : (if S_ISDIR (mode g)
                  then sys (Sys_createPath (cstring (outName g)) (mode g)) =? 1
                  else false) = false).
  { destruct (S_ISDIR (mode g)); [|reflexivity].
    destruct Hdir as [Hd | Hr]; [discriminate | now apply Z.eqb_neq]. }
  destruct (verboseFlag g); cbn -[Z.ltb Z.eqb to_int S_ISDIR];
    (destruct (S_ISDIR (mode g));
     [rewrite Hnot|]; cbn -[Z.ltb Z.eqb to_int];
     (split; [|split]; [by_cases | by_cases |]);
     intros Ht; destruct (size =? 0);
     repeat (rewrite Ht; cbn -[Z.ltb Z.eqb to_int]); by_cases).
Qed.

Lemma extractEntry_directory (hp : list Z) (size major minor : Z)
    (g : globals) :
  hardLink hp = false -> softLink hp = false ->
  S_ISDIR (mode g) = true ->
  sys (Sys_createPath (cstring (outName g)) (mode g)) = 1 ->
  let g' := extractEntry sys hp size major minor g in
  let name := cstring (outName g) in
  inHeader g' = inHeader g /\ dataCc g' = dataCc g /\ outFd g' = outFd g
  /\ skipFileFlag g' = skipFileFlag g
  /\ trace g'
     = trace g ++ (if verboseFlag g then [Extracting name] else [])
         ++ [Call (Sys_umask 0); Call (Sys_createPath name (mode g));
             Call (Sys_utime name (mtime g));
             Call (Sys_chown name (uid g) (gid g));
             Call (Sys_chmod name (mode g))].
Proof.
  intros Hh Hs Hdir Hmade. unfold extractEntry. rewrite Hh, Hs.
  unfold call, restoreAttributes, expectData, log.
  destruct (verboseFlag g); cbn -[Z.ltb Z.eqb to_int S_ISDIR];
    rewrite Hdir, Hmade; cbn -[Z.ltb to_int];
    rewrite <- ?app_assoc; repeat split; reflexivity.
Qed.

Lemma extractEntry_link (hp : list Z) (size major minor : Z) (g : globals) :
  hardLink hp = true \/ softLink hp = true ->
  let g' := extractEntry sys hp size major minor g in
  inHeader g' = inHeader g /\ dataCc g' = dataCc g /\ outFd g' = outFd g
  /\ skipFileFlag g' = skipFileFlag g.
Proof.
  intros Hlink. unfold extractEntry, call, restoreAttributes, log.
  destruct (hardLink hp) eqn:Hh.
  - destruct (verboseFlag g); cbn -[Z.ltb]; by_cases.
  - destruct Hlink as [Hl | Hl]; [discriminate|]. rewrite Hl.
    destruct (verboseFlag g); cbn -[Z.ltb]; by_cases.
Qed.

Lemma skipEntry_link (hp : list Z) (size : Z) (g : globals) :
  hardLink hp = true \/ softLink hp = true ->
  let g' := skipEntry hp size g in
  inHeader g' = inHeader g /\ dataCc g' = dataCc g /\ outFd g' = outFd g.
Proof.
  intros Hlink. unfold skipEntry.
  assert (Hno : negb (hardLink hp) && negb (softLink hp)
                  && carries_data (mode g) = false).
  { destruct Hlink as [-> | ->]; cbn [negb andb];
      [reflexivity | now rewrite andb_false_r]. }
  rewrite Hno. repeat split; reflexivity.
Qed.

Lemma listEntry_link (hp : list Z) (size major minor : Z) (g : globals) :
  hardLink hp = true \/ softLink hp = true ->
  let g' := listEntry hp size major minor g in
  inHeader g' = inHeader g /\ dataCc g' = dataCc g /\ outFd g' = outFd g.
Proof.
  intros Hlink. unfold listEntry, log.
  destruct (hardLink hp) eqn:Hh.
  - destruct (verboseFlag g); repeat split; reflexivity.
  - destruct Hlink as [Hl | Hl]; [discriminate|]. rewrite Hl.
    destruct (verboseFlag g); repeat split; reflexivity.
Qed.
End Extracting.

Lemma prepareEntry_statics (hp : list Z) (g : globals) :
  tostdoutFlag (prepareEntry hp g) = tostdoutFlag g
  /\ verboseFlag (prepareEntry hp g) = verboseFlag g
  /\ outFd (prepareEntry hp g) = outFd g
  /\ skipFileFlag (prepareEntry hp g) = false
  /\ uid (prepareEntry hp g) = to_int (hdr_uid hp)
  /\ gid (prepareEntry hp g) = to_int (hdr_gid hp)
  /\ mtime (prepareEntry hp g) = hdr_mtime hp.
Proof.
  unfold prepareEntry, stripRoot, checkDirectory, decodeFields. by_cases.
Qed.

Lemma prepareEntry_entryMode (hp : list Z) (g : globals) :
  fields_decode hp = true -> mode (prepareEntry hp g) = entryMode hp.
Proof. apply prepareEntry_mode. Qed.

Lemma owner_fields_small (hp : list Z) :
  fields_decode hp = true ->
  to_int (hdr_uid hp) = hdr_uid hp /\ to_int (hdr_gid hp) = hdr_gid hp.
Proof.
  intros Hok. apply fields_decode_true in Hok.
  pose proof (getOctal_range (skipn off_uid hp) sz_uid
                ltac:(layout; lia)) as Hu.
  pose proof (getOctal_range (skipn off_gid hp) sz_gid
                ltac:(layout; lia)) as Hg.
  fold (hdr_uid hp) in Hu. fold (hdr_gid hp) in Hg.
  change (Z.of_nat sz_uid) with 8 in Hu.
  change (Z.of_nat sz_gid) with 8 in Hg.
  split; apply to_int_small; lia.
Qed.

(** X6. Extracting a wanted entry that is no link and is not created as a
    directory: the reader expects as many bytes of data as the size field
    says, whatever file type bits the mode field holds, and this also
    holds for an entry named as a directory whose path cannot be created.
    With [tostdoutFlag] the data goes to descriptor 1 and nothing is
    skipped. *)
Theorem readHeader_extract_expects_data
    (sys : syscall -> Z) (hp : list Z) (fileCount : Z)
        (fileTable : list (list Z))
    (g : globals) :
  deref hp <> 0 -> fields_decode hp = true ->
  extractFlag g = true -> wantFileName (entryName hp) fileCount fileTable =
    true ->
  hardLink hp = false -> softLink hp = false ->
  S_ISDIR (entryMode hp) = false
    \/ sys (Sys_createPath (cstring (entryName hp)) (entryMode hp)) <> 1 ->
  let g' := readHeader sys hp fileCount fileTable g in
  inHeader g' = (hdr_size hp =? 0) /\ dataCc g' = hdr_size hp
  /\ (tostdoutFlag g = true -> outFd g' = 1 /\ skipFileFlag g' = false).
Proof.
  intros Hname Hok Hx Hwant Hh Hs Hdir g'. unfold g'.
  rewrite readHeader_decodes by assumption.
  destruct (prepareEntry_frame hp g) as (Pname & _ & _ & Px).
  destruct (prepareEntry_statics hp g) as (Pout & _ & _ & Pskip & _).
  pose proof (prepareEntry_entryMode hp g Hok) as Pmode.
  unfold handleEntry. rewrite Pname, Hwant, Px, Hx. cbn [negb].
  destruct (extractEntry_file sys hp (hdr_size hp)
              (to_uint (hdr_devMajor hp)) (to_uint (hdr_devMinor hp))
              (prepareEntry hp g) Hh Hs) as (H1 & H2 & H3).
  - rewrite Pname, Pmode. exact Hdir.
  - split; [exact H1|]. split; [exact H2|].
    intros Ht. rewrite Pout, Pskip in H3. now apply H3.
Qed.

Lemma readHeader_extract_expects_data_witness :
  let g' := readHeader sys_readonly directory_block 0 [] extract_globals in
  inHeader g' = false /\ dataCc g' = 4096.
Proof.
  destruct (readHeader_extract_expects_data sys_readonly directory_block 0 []
              extract_globals) as (H1 & H2 & _).
  - vm_compute. discriminate.
  - vm_compute. reflexivity.
  - reflexivity.
  - vm_compute. reflexivity.
  - vm_compute. reflexivity.
  - vm_compute. reflexivity.
  - right. vm_compute. discriminate.
  - split; [rewrite H1 | rewrite H2]; vm_compute; reflexivity.
Defined.

(** X7. Extracting a wanted entry whose mode tests as a directory, when
    [createPath] succeeds: the reader stays in the header state whatever
    the size field says, opens no file, and ends by setting the time, the
    owner and the mode of the directory from the header. *)
Theorem readHeader_extract_directory
    (sys : syscall -> Z) (hp : list Z) (fileCount : Z)
        (fileTable : list (list Z))
    (g : globals) :
  deref hp <> 0 -> fields_decode hp = true ->
  extractFlag g = true -> wantFileName (entryName hp) fileCount fileTable =
    true ->
  hardLink hp = false -> softLink hp = false ->
  S_ISDIR (entryMode hp) = true ->
  sys (Sys_createPath (cstring (entryName hp)) (entryMode hp)) = 1 ->
  let g' := readHeader sys hp fileCount fileTable g in
  let name := cstring (entryName hp) in
  inHeader g' = inHeader g /\ dataCc g' = dataCc g /\ outFd g' = outFd g
  /\ skipFileFlag g' = false
  /\ exists t,
       trace g'
       = t ++ [Call (Sys_createPath name (entryMode hp));
               Call (Sys_utime name (hdr_mtime hp));
               Call (Sys_chown name (hdr_uid hp) (hdr_gid hp));
               Call (Sys_chmod name (entryMode hp))].
Proof.
  intros Hname Hok Hx Hwant Hh Hs Hdir Hmade g' name. unfold g', name.
  rewrite readHeader_decodes by assumption.
  destruct (prepareEntry_frame hp g) as (Pname & Pin & Pcc & Px).
  destruct (prepareEntry_statics hp g)
    as (_ & _ & Pfd & Pskip & Puid & Pgid & Pmtime).
  pose proof (prepareEntry_entryMode hp g Hok) as Pmode.
  destruct (owner_fields_small hp Hok) as [Hu Hg].
  unfold handleEntry. rewrite Pname, Hwant, Px, Hx. cbn [negb].
  destruct (extractEntry_directory sys hp (hdr_size hp)
              (to_uint (hdr_devMajor hp)) (to_uint (hdr_devMinor hp))
              (prepareEntry hp g) Hh Hs) as (H1 & H2 & H3 & H4 & H5).
  - now rewrite Pmode.
  - now rewrite Pname, Pmode.
  - rewrite H1, H2, H3, H4, H5, Pin, Pcc, Pfd, Pskip.
    repeat (split; [reflexivity|]).
    rewrite Pname, Pmode, Puid, Pgid, Pmtime, Hu, Hg.
    exists (trace (prepareEntry hp g)
              ++ (if verboseFlag (prepareEntry hp g)
                  then [Extracting (cstring (entryName hp))] else [])
              ++ [Call (Sys_umask 0)]).
    rewrite <- !app_assoc. reflexivity.
Qed.

Lemma readHeader_extract_directory_witness :
  let g' := readHeader sys_ok directory_block 0 [] extract_globals in
  inHeader g' = inHeader extract_globals /\ hdr_size directory_block = 4096.
Proof.
  destruct (readHeader_extract_directory sys_ok directory_block 0 []
              extract_globals) as (H1 & _).
  - vm_compute. discriminate.
  - vm_compute. reflexivity.
  - reflexivity.
  - vm_compute. reflexivity.
  - vm_compute. reflexivity.
  - vm_compute. reflexivity.
  - vm_compute. reflexivity.
  - reflexivity.
  - split; [exact H1 | vm_compute; reflexivity].
Defined.

(** X8. An entry that is a hard or a symbolic link never carries data:
    whether it is skipped, listed or extracted, and whatever its size
    field says, the reader stays in the state it was in and opens no
    file. *)
Theorem readHeader_link_no_data
    (sys : syscall -> Z) (hp : list Z) (fileCount : Z)
        (fileTable : list (list Z))
    (g : globals) :
  deref hp <> 0 -> fields_decode hp = true ->
  hardLink hp = true \/ softLink hp = true ->
  let g' := readHeader sys hp fileCount fileTable g in
  inHeader g' = inHeader g /\ dataCc g' = dataCc g /\ outFd g' = outFd g.
Proof.
  intros Hname Hok Hlink g'. unfold g'.
  rewrite readHeader_decodes by assumption.
  destruct (prepareEntry_frame hp g) as (_ & Pin & Pcc & _).
  destruct (prepareEntry_statics hp g) as (_ & _ & Pfd & _).
  rewrite <- Pin, <- Pcc, <- Pfd.
  unfold handleEntry.
  destruct (negb (wantFileName (outName (prepareEntry hp g)) fileCount
    fileTable)).
  - now apply skipEntry_link.
  - destruct (negb (extractFlag (prepareEntry hp g))).
    + now apply listEntry_link.
    + destruct (extractEntry_link sys hp (hdr_size hp)
                  (to_uint (hdr_devMajor hp)) (to_uint (hdr_devMinor hp))
                  (prepareEntry hp g) Hlink) as (H1 & H2 & H3 & _).
      now split; [|split].
Qed.

Lemma readHeader_link_no_data_witness :
  let g' := readHeader sys_ok symlink_block 0 [] extract_globals in
  hdr_size symlink_block = 4
  /\ inHeader g' = inHeader extract_globals
  /\ dataCc g' = dataCc extract_globals.
Proof.
  destruct (readHeader_link_no_data sys_ok symlink_block 0 []
              extract_globals) as (H1 & H2 & _).
  - vm_compute. discriminate.
  - vm_compute. reflexivity.
  - right. vm_compute. reflexivity.
  - split; [vm_compute; reflexivity | split; [exact H1 | exact H2]].
Defined.

(** ** The data of an entry *)

Lemma blockAlign_spec (cc : Z) :
  blockAlign cc mod 512 = 0 /\ cc <= blockAlign cc < cc + 512.
Proof.
  unfold blockAlign. change (Z.of_nat TAR_BLOCK_SIZE) with 512.
  pose proof (Z.mod_pos_bound cc 512 ltac:(lia)) as Hr.
  destruct (cc mod 512 =? 0) eqn:E.
  - apply Z.eqb_eq in E. lia.
  - apply Z.eqb_neq in E. split; [|lia].
    rewrite (Z.div_mod cc 512) at 1 by lia.
    replace (512 * (cc / 512) + cc mod 512 + (512 - cc mod 512))
      with ((cc / 512 + 1) * 512) by lia.
    apply Z.mod_mul. lia.
Qed.

Section ReadData.
Variable sys : syscall -> Z.

Lemma readData_counts (cp : list Z) (count : Z) (g : globals) :
  let g' := readData sys cp count g in
  dataCc g' = wrap_long (dataCc g - count)
  /\ inHeader g'
     = (if wrap_long (dataCc g - count) <=? 0 then true else inHeader g).
Proof.
  unfold readData, call, restoreAttributes, log.
  cbn -[Z.ltb Z.leb Z.eqb wrap_long].
  destruct (wrap_long (dataCc g - count) <=? 0);
    cbn -[Z.ltb Z.leb Z.eqb wrap_long]; by_cases.
Qed.

Lemma readData_silent (cp : list Z) (count : Z) (g : globals) :
  extractFlag g = false \/ skipFileFlag g = true ->
  let g' := readData sys cp count g in
  trace g' = trace g /\ outFd g' = outFd g
  /\ skipFileFlag g' = skipFileFlag g.
Proof.
  intros Hquiet. unfold readData.
  cbn -[Z.ltb Z.leb Z.eqb wrap_long].
  assert (Hcond : negb (extractFlag g) || skipFileFlag g = true)
    by (destruct Hquiet as [-> | ->]; [reflexivity | apply orb_true_r]).
  destruct (wrap_long (dataCc g - count) <=? 0);
    cbn -[Z.ltb Z.leb Z.eqb wrap_long]; rewrite Hcond;
    repeat split; reflexivity.
Qed.

Lemma readData_writes (cp : list Z) (count : Z) (g : globals) :
  extractFlag g = true -> skipFileFlag g = false ->
  exists t,
    trace (readData sys cp count g)
    = trace g
        ++ Call (Sys_fullWrite (outFd g) (firstn (Z.to_nat count) cp)) :: t
    /\ extracted_bytes t = [].
Proof.
  intros Hx Hskip. unfold readData, call, restoreAttributes, log.
  cbn -[Z.ltb Z.leb Z.eqb wrap_long].
  destruct (wrap_long (dataCc g - count) <=? 0);
    cbn -[Z.ltb Z.leb Z.eqb wrap_long]; rewrite Hx, Hskip;
    cbn -[Z.ltb Z.leb Z.eqb wrap_long];
    repeat match goal with
           | |- context [if ?b then _ else _] => destruct b
           end;
    cbn -[Z.ltb Z.leb Z.eqb wrap_long];
    eexists; (split; [rewrite <- ?app_assoc; cbn [app]; reflexivity|]);
    reflexivity.
Qed.

Lemma readData_flags (cp : list Z) (count : Z) (g : globals) :
  let g' := readData sys cp count g in
  eofFlag g' = eofFlag g /\ errorFlag g' = errorFlag g
  /\ tostdoutFlag g' = tostdoutFlag g /\ extractFlag g' = extractFlag g.
Proof.
  unfold readData, call, restoreAttributes, log.
  cbn -[Z.ltb Z.leb Z.eqb wrap_long].
  destruct (wrap_long (dataCc g - count) <=? 0);
    cbn -[Z.ltb Z.leb Z.eqb wrap_long];
    repeat match goal with
           | |- context [if ?b then _ else _] => destruct b eqn:?
           end;
    repeat split; first [reflexivity | assumption].
Qed.
End ReadData.

Section DataSteps.
Variable sys : syscall -> Z.
Variable BUF_SIZE : nat.

Lemma readTarFile_step_in_data (fileCount : Z)
    (fileTable : list (list Z)) (r : reader) :
  inHeader (statics r) = false -> 0 < inCc r ->
  let cc := if inCc r >? dataCc (statics r)
            then to_int (dataCc (statics r)) else inCc r in
  readTarFile_step sys BUF_SIZE fileCount fileTable r
  = Continue (mkReader (tarIn r) (buf r)
                (skipn (Z.to_nat (blockAlign cc)) (cp r))
                (inCc r - blockAlign cc)
                (readData sys (cp r) cc (statics r))).
Proof.
  intros Hin Hcc. unfold readTarFile_step.
  replace (inCc r <=? 0) with false by (symmetry; apply Z.leb_gt; lia).
  now rewrite Hin.
Qed.
End DataSteps.

(** X9. A turn of the loop of [readTarFile] in the data state, with data
    in the buffer: no more than the bytes that the entry still expects
    are taken from the buffer, the position moves on by that count
    rounded up to whole blocks, the reader returns to the header state
    exactly when the data of the entry is complete, and nothing is read
    from the archive. The bytes are handed to [fullWrite] when the entry
    is extracted; when it is listed or skipped nothing is called. *)
Theorem readTarFile_step_data
    (sys : syscall -> Z) (BUF_SIZE : nat) (fileCount : Z)
        (fileTable : list (list Z))
    (r : reader) :
  inHeader (statics r) = false ->
  0 < inCc r < 2 ^ 31 -> 0 < dataCc (statics r) <= LONG_MAX ->
  let g := statics r in
  let n := Z.min (inCc r) (dataCc g) in
  exists r' k,
    readTarFile_step sys BUF_SIZE fileCount fileTable r = Continue r'
    /\ tarIn r' = tarIn r /\ buf r' = buf r
    /\ cp r' = skipn (Z.to_nat k) (cp r) /\ inCc r' = inCc r - k
    /\ k mod 512 = 0 /\ n <= k < n + 512
    /\ dataCc (statics r') = dataCc g - n
    /\ inHeader (statics r') = (dataCc g <=? inCc r)
    /\ (extractFlag g = false \/ skipFileFlag g = true ->
        trace (statics r') = trace g)
    /\ (extractFlag g = true -> skipFileFlag g = false ->
        exists t,
          trace (statics r')
          = trace g
              ++ Call (Sys_fullWrite (outFd g) (firstn (Z.to_nat n) (cp r)))
                 :: t).
Proof.
  intros Hin Hcc Hdata g n.
  change (2 ^ 31) with 2147483648 in Hcc. fold g in Hdata.
  assert (Hn : (if inCc r >? dataCc g then to_int (dataCc g) else inCc r)
               = n).
  { unfold n. destruct (inCc r >? dataCc g) eqn:E.
    - apply Z.gtb_lt in E. rewrite Z.min_r by lia.
      unfold to_int. change (2 ^ 31) with 2147483648.
      change (2 ^ 32) with 4294967296.
      rewrite Z.mod_small by lia. lia.
    - rewrite Z.gtb_ltb in E. apply Z.ltb_ge in E. now rewrite Z.min_l. }
  pose proof (readTarFile_step_in_data sys BUF_SIZE fileCount fileTable r Hin
                ltac:(lia)) as Hstep.
  cbv zeta in Hstep. fold g in Hstep. rewrite Hn in Hstep.
  eexists. exists (blockAlign n). split; [exact Hstep|].
  cbn [tarIn buf cp inCc statics].
  destruct (blockAlign_spec n) as [Hk Hr].
  destruct (readData_counts sys (cp r) n g) as [Hdc Hih].
  assert (Hrest : wrap_long (dataCc g - n) = dataCc g - n)
    by (apply wrap_long_small; unfold LONG_MAX in *; lia).
  rewrite Hrest in Hdc, Hih.
  repeat (split; [first [reflexivity | assumption | lia]|]).
  split.
  - rewrite Hih. fold g in Hin.
    destruct (dataCc g - n <=? 0) eqn:E, (dataCc g <=? inCc r) eqn:F;
      try reflexivity; try exact Hin.
    + apply Z.leb_le in E. apply Z.leb_gt in F. lia.
    + apply Z.leb_gt in E. apply Z.leb_le in F. lia.
  - split.
    + intros Hquiet. now apply readData_silent.
    + intros Hx Hskip.
      destruct (readData_writes sys (cp r) n g Hx Hskip) as (t & Ht & _).
      now exists t.
Qed.

Lemma readTarFile_step_data_witness :
  exists r' t,
    readTarFile_step sys_ok 2048 0 [] data_reader = Continue r'
    /\ inCc r' = 512
    /\ inHeader (statics r') = true
    /\ trace (statics r') = Call (Sys_fullWrite 3 (cstr "abcd")) :: t.
Proof.
  destruct (readTarFile_step_data sys_ok 2048 0 [] data_reader)
    as (r' & k & Hstep & _ & _ & _ & Hcc & Hk & Hr & _ & Hin & _ & Hw).
  - reflexivity.
  - vm_compute. split; reflexivity.
  - vm_compute. split; [reflexivity | discriminate].
  - destruct Hw as [t Ht]; [reflexivity | reflexivity |].
    exists r', t. split; [exact Hstep|].
    split; [|split; [exact Hin | exact Ht]].
    rewrite Hcc. change (inCc data_reader) with 1024.
    change (Z.min (inCc data_reader) (dataCc (statics data_reader)))
      with 4 in Hr.
    pose proof (Z.div_mod k 512 ltac:(lia)) as Hdiv.
    rewrite Hk in Hdiv. lia.
Defined.

(** X10. When the buffer is used up and the archive has no more bytes,
    the loop of [readTarFile] ends at once with [errorFlag] set: with the
    message "Unexpected end of file" at the end of the archive, with the
    system's message for the archive when the read fails. This happens in
    the header state as well as in the middle of the data of an entry,
    whose state is left as it is. *)
Theorem readTarFile_step_truncated
    (sys : syscall -> Z) (BUF_SIZE : nat) (fileCount : Z)
        (fileTable : list (list Z))
    (r : reader) :
  (0 < BUF_SIZE)%nat -> inCc r <= 0 -> pending (tarIn r) = [] ->
  exists r',
    readTarFile_step sys BUF_SIZE fileCount fileTable r = Done r'
    /\ errorFlag (statics r') = true
    /\ trace (statics r')
       = trace (statics r)
           ++ [if broken (tarIn r) then Perror (tarName (statics r))
               else msg_unexpected_eof]
    /\ eofFlag (statics r') = eofFlag (statics r)
    /\ inHeader (statics r') = inHeader (statics r)
    /\ dataCc (statics r') = dataCc (statics r)
    /\ outFd (statics r') = outFd (statics r).
Proof.
  intros Hsize Hcc Hend. unfold readTarFile_step, fullRead.
  replace (inCc r <=? 0) with true by (symmetry; now apply Z.leb_le).
  rewrite Hend. cbn [length].
  replace (BUF_SIZE <=? 0)%nat with false
    by (symmetry; apply Nat.leb_gt; exact Hsize).
  destruct (broken (tarIn r)); cbn -[skipn];
    eexists; split; try reflexivity; repeat split; reflexivity.
Qed.

Lemma readTarFile_step_truncated_witness :
  exists r',
    readTarFile_step sys_ok 2048 0 []
      (mkReader (mkSource [] false) [] [] 0 data_reader.(statics)) = Done r'
    /\ errorFlag (statics r') = true
    /\ inHeader (statics r') = false.
Proof.
  destruct (readTarFile_step_truncated sys_ok 2048 0 []
              (mkReader (mkSource [] false) [] [] 0 data_reader.(statics)))
    as (r' & Hstep & Herr & _ & _ & Hin & _).
  - lia.
  - cbn. lia.
  - reflexivity.
  - exists r'. split; [exact Hstep|]. split; [exact Herr|].
    rewrite Hin. reflexivity.
Defined.

(** ** Writing blocks *)

Lemma fullWrite_result (s : sink) (buf : list Z) :
  buf <> [] ->
  exists out,
    written (snd (fullWrite s buf)) = written s ++ out
    /\ failure (snd (fullWrite s buf)) = failure s
    /\ (room s = None ->
        (fst (fullWrite s buf) =? 0) = false
        /\ room (snd (fullWrite s buf)) = None /\ out = buf)
    /\ (room s = Some O ->
        fst (fullWrite s buf) = failure s
        /\ room (snd (fullWrite s buf)) = Some O /\ out = []).
Proof.
  intros Hne.
  assert (Hlen : (0 < length buf)%nat)
    by (destruct buf; [contradiction | simpl; lia]).
  unfold fullWrite. destruct (room s) as [n|].
  - destruct (Nat.leb_spec (length buf) n) as [Hfits | Hfull];
      cbn [fst snd written room failure].
    + eexists. split; [reflexivity|]. split; [reflexivity|].
      split; intros H; [discriminate H|]. injection H as ->. lia.
    + eexists. split; [reflexivity|]. split; [reflexivity|].
      split; intros H; [discriminate H|]. injection H as ->.
      split; [reflexivity|]. now split.
  - cbn [fst snd written room failure].
    exists buf. split; [reflexivity|]. split; [reflexivity|].
    split; intros H; [|discriminate H].
    split; [apply Z.eqb_neq; lia | now split].
Qed.





(** [writeTarBlock] on a descriptor that takes no more bytes: the write
    fails, and the failure is noticed when [fullWrite] gives zero. *)
Lemma writeTarBlock_full (buf : list Z) (len : nat) (g : globals) :
  (0 < len <= length buf)%nat ->
  errorFlag g = false -> room (tarOut g) = Some O ->
  exists s,
    written s = emitted g /\ room s = Some O
    /\ failure s = failure (tarOut g)
    /\ writeTarBlock buf len g
       = if failure (tarOut g) =? 0
         then set_errorFlag true
                (log (Perror (tarName g)) (set_tarOut s g))
         else set_tarOut s g.
Proof.
  intros Hlen Herr Hroom. unfold writeTarBlock, emitted. rewrite Herr.
  pose proof (Nat.Div0.mod_le len TAR_BLOCK_SIZE) as Hple.
  pose proof (Nat.mod_upper_bound len TAR_BLOCK_SIZE ltac:(discriminate))
    as Hpu.
  pose proof (Nat.div_mod_eq len TAR_BLOCK_SIZE) as Hdiv.
  set (pl := (len mod TAR_BLOCK_SIZE)%nat) in *.
  set (cl := (len - pl)%nat) in *.
  assert (Hcl : length (peek buf 0 cl) = cl).
  { unfold peek. simpl skipn. rewrite length_firstn. unfold cl. lia. }
  set (fullBlock := peek buf cl pl ++ repeat 0 (TAR_BLOCK_SIZE - pl)).
  assert (Hfull : length fullBlock = TAR_BLOCK_SIZE).
  { unfold fullBlock, peek.
    rewrite length_app, repeat_length, length_firstn, length_skipn.
    unfold cl. lia. }
  assert (Hfne : fullBlock <> []).
  { intros E. rewrite E in Hfull. discriminate Hfull. }
  unfold tar_fullWrite.
  destruct (Nat.ltb_spec 0 cl) as [Hpos | Hzero].
  - assert (Hne : peek buf 0 cl <> []).
    { intros E. rewrite E in Hcl. simpl in Hcl. lia. }
    destruct (fullWrite_result (tarOut g) _ Hne)
      as (out1 & Hw1 & Hf1 & _ & Hfull1).
    destruct (Hfull1 Hroom) as (Hcc & Hroom1 & ->).
    destruct (fullWrite (tarOut g) (peek buf 0 cl)) as [cc s1].
    cbn [fst snd] in Hw1, Hf1, Hcc, Hroom1. subst cc.
    rewrite app_nil_r in Hw1.
    destruct (failure (tarOut g) =? 0) eqn:Hfail.
    { exists s1. now repeat split. }
    destruct (Nat.eqb_spec pl 0) as [Hp0 | Hp].
    { exists s1. now repeat split. }
    cbn [tarOut set_tarOut].
    destruct (fullWrite_result s1 _ Hfne)
      as (out2 & Hw2 & Hf2 & _ & Hfull2).
    destruct (Hfull2 Hroom1) as (Hcc2 & Hroom2 & ->).
    destruct (fullWrite s1 fullBlock) as [cc2 s2].
    cbn [fst snd] in Hw2, Hf2, Hcc2, Hroom2. subst cc2.
    rewrite app_nil_r in Hw2. rewrite Hf1, Hfail.
    exists s2. split; [congruence|]. split; [exact Hroom2|].
    split; [congruence | now destruct g].
  - assert (Hp : pl <> O) by (unfold cl in Hzero; lia).
    destruct (Nat.eqb_spec pl 0) as [Hp0 | _]; [contradiction|].
    destruct (fullWrite_result (tarOut g) _ Hfne)
      as (out2 & Hw2 & Hf2 & _ & Hfull2).
    destruct (Hfull2 Hroom) as (Hcc2 & Hroom2 & ->).
    destruct (fullWrite (tarOut g) fullBlock) as [cc2 s2].
    cbn [fst snd] in Hw2, Hf2, Hcc2, Hroom2. subst cc2.
    rewrite app_nil_r in Hw2.
    exists s2. split; [exact Hw2|]. split; [exact Hroom2|].
    split; [exact Hf2|]. reflexivity.
Qed.

(** X11. The two callers of [fullWrite] test its result in two ways:
    [writeTarBlock] for zero, [readData] for a value below zero. When the
    archive takes no more bytes nothing is written, and [writeTarBlock]
    sets [errorFlag] and prints its message exactly when the failed
    [fullWrite] gives zero; [readData] gives up the file it extracts
    exactly when [fullWrite] gives a value below zero. So whatever
    [fullWrite] gives for a failed write, one of the two does not notice
    it; a failure reported as a negative value, which [readData] tests
    for, leaves [writeTarBlock] silent with [errorFlag] clear. *)
Theorem writeTarBlock_misses_write_error
    (buf : list Z) (len : nat) (g : globals) :
  (0 < len <= length buf)%nat ->
  errorFlag g = false -> room (tarOut g) = Some O ->
  let g' := writeTarBlock buf len g in
  emitted g' = emitted g
  /\ (errorFlag g' = true <-> failure (tarOut g) = 0)
  /\ trace g'
     = trace g
         ++ (if failure (tarOut g) =? 0 then [Perror (tarName g)] else [])
  /\ (forall (sys : syscall -> Z) (cp : list Z) (count : Z) (gr : globals),
         extractFlag gr = true -> skipFileFlag gr = false ->
         (skipFileFlag (readData sys cp count gr) = true
          <-> sys (Sys_fullWrite (outFd gr) (firstn (Z.to_nat count) cp))
              < 0)).
Proof.
  intros Hlen Herr Hroom g'. unfold g'.
  destruct (writeTarBlock_full buf len g Hlen Herr Hroom)
    as (s & Hw & _ & _ & ->).
  split; [|split; [|split]].
  - unfold emitted in *. now destruct (failure (tarOut g) =? 0).
  - destruct (Z.eqb_spec (failure (tarOut g)) 0) as [H0 | Hn0].
    + split; [intros _; exact H0 | reflexivity].
    + cbn [errorFlag set_tarOut]. rewrite Herr.
      split; [discriminate | contradiction].
  - destruct (failure (tarOut g) =? 0); [reflexivity|].
    cbn [trace set_tarOut]. now rewrite app_nil_r.
  - intros sys cp count gr Hx Hskip. unfold readData.
    set (g1 := set_dataCc (wrap_long (dataCc gr - count)) gr).
    set (g2 := if dataCc g1 <=? 0 then set_inHeader true g1 else g1).
    assert (H2 : extractFlag g2 = true /\ skipFileFlag g2 = false
                 /\ outFd g2 = outFd gr).
    { unfold g2. destruct (dataCc g1 <=? 0); now repeat split. }
    destruct H2 as (Hx2 & Hskip2 & Hfd2).
    rewrite Hx2, Hskip2. cbn [negb orb]. unfold call. rewrite Hfd2.
    destruct (Z.ltb_spec
                (sys (Sys_fullWrite (outFd gr) (firstn (Z.to_nat count) cp)))
                0) as [Hneg | Hpos].
    + split; [intros _; exact Hneg | reflexivity].
    + split; [|lia]. intros Hset. exfalso.
      destruct ((dataCc (log (Call (Sys_fullWrite (outFd gr)
                                      (firstn (Z.to_nat count) cp))) g2)
                 <=? 0)
                && negb (tostdoutFlag
                           (log (Call (Sys_fullWrite (outFd gr)
                                         (firstn (Z.to_nat count) cp)))
                              g2))).
      * destruct (sys (Sys_close _) =? 0);
          cbn in Hset; rewrite Hskip2 in Hset; discriminate Hset.
      * cbn in Hset. rewrite Hskip2 in Hset. discriminate Hset.
Qed.

Lemma writeTarBlock_misses_write_error_witness :
  let g' := writeTarBlock hello_block TAR_BLOCK_SIZE
              (set_tarOut (full_disk (-1)) create_globals) in
  errorFlag g' = false /\ trace g' = [] /\ emitted g' = [].
Proof.
  destruct (writeTarBlock_misses_write_error hello_block TAR_BLOCK_SIZE
              (set_tarOut (full_disk (-1)) create_globals))
    as (H1 & H2 & H3 & _).
  - vm_compute. split; lia.
  - reflexivity.
  - reflexivity.
  - split; [|split; [exact H3 | exact H1]].
    destruct (errorFlag (writeTarBlock hello_block TAR_BLOCK_SIZE
                           (set_tarOut (full_disk (-1)) create_globals)))
      eqn:E; [|reflexivity].
    pose proof (proj1 H2 eq_refl) as Hzero. discriminate Hzero.
Defined.

(** ** The archive grows by whole blocks *)













(** X21. [saveDirectory] builds the path of each entry in [fullName]
    before [saveFile] looks at its length. For the first entry of a
    readable directory that is not "." or "..", and whose path does
    not fit in [fullName] with its NUL, [strcpy] and [strcat] write
    past the end of the array: the run has no defined result. The name
    of the directory itself, which fits in a header, is no protection:
    the name of the entry is as long as the file system allows. *)
Theorem saveDirectory_overruns_fullName
    (NAME_MAX : nat)
    (saveChild : node -> list Z -> bool -> globals -> option globals)
    (dirName : list Z) (statbuf : stat) (d_name : list Z) (child : node)
    (entries : list (list Z * node)) (g : globals) :
  usable g -> (strlen dirName < TAR_NAME_SIZE)%nat ->
  is_dot d_name = false ->
  let needSlash :=
    negb (deref dirName =? 0)
      && negb (index dirName (strlen dirName - 1) =? SLASH) in
  (NAME_MAX
   <= strlen dirName + (if needSlash then 1 else 0) + strlen d_name)%nat ->
  saveDirectory NAME_MAX saveChild dirName statbuf
    (Some ((d_name, child) :: entries)) g = None.
Proof.
  intros Hg Hname Hdot needSlash Hover. unfold saveDirectory.
  destruct (Nat.leb_spec NAME_MAX (length (cstring dirName ++ [SLASH])))
    as [_ | Hfits]; [reflexivity|].
  fold needSlash. cbn [saveEntries].
  assert (Hh : usable (writeHeader (cstring dirName ++ [SLASH]) statbuf g)).
  { eapply extends_usable. apply writeHeader_extends; [exact Hg|].
    rewrite strlen_directory_name. lia. }
  rewrite (proj1 Hh), Hdot.
  destruct (Nat.leb_spec NAME_MAX
              (length (cstring dirName
                         ++ (if needSlash then [SLASH] else [])
                         ++ cstring d_name))) as [_ | Hin]; [reflexivity|].
  exfalso. rewrite !length_app in Hin. unfold strlen in Hover.
  destruct needSlash; cbn [length] in Hin; lia.
Qed.

Lemma saveDirectory_overruns_fullName_witness :
  saveFile 255
    (Node (Some directory_stat) (Some directory_stat) None
       (Some [(repeat 97 254, hello_file)]))
    (cstr "d") false create_globals = None.
Proof.
  pose proof (saveDirectory_overruns_fullName 255 (saveFile 255) (cstr "d")
                directory_stat (repeat 97 254) hello_file []
                (set_mode (to_int (st_mode directory_stat)) create_globals))
    as H.
  cbv zeta in H. apply H.
  - split; reflexivity.
  - vm_compute. lia.
  - reflexivity.
  - vm_compute. lia.
Defined.

(** X13. The files that [saveFile] leaves out: a name of 100 characters
    or more, a file that [stat] does not find, the archive itself, a file
    that is neither a directory nor a regular file, and a regular file
    that cannot be opened. For each of them one message is printed,
    nothing is written to the archive, and [errorFlag] is not set. *)
Theorem saveFile_skips
    (NAME_MAX : nat) (nstat nlstat : option stat) (nopen : option source)
    (ndir : option (list (list Z * node)))
    (fileName : list Z) (seeLinks : bool) (g : globals) :
  (TAR_NAME_SIZE <= strlen fileName)%nat
  \/ (if seeLinks then nlstat else nstat) = None
  \/ (exists statbuf,
        (if seeLinks then nlstat else nstat) = Some statbuf
        /\ ((st_dev statbuf = tarDev g /\ st_ino statbuf = tarInode g)
            \/ (S_ISDIR (to_int (st_mode statbuf)) = false
                /\ S_ISREG (to_int (st_mode statbuf)) = false)
            \/ (S_ISDIR (to_int (st_mode statbuf)) = false
                /\ nopen = None))) ->
  exists g',
    saveFile NAME_MAX (Node nstat nlstat nopen ndir) fileName seeLinks g
    = Some g'
    /\ tarOut g' = tarOut g /\ errorFlag g' = errorFlag g
    /\ exists e,
         trace g'
         = trace g ++ (if verboseFlag g then [Archiving fileName] else [])
             ++ [e].
Proof.
  intros Hskip. cbn [saveFile].
  set (g0 := if verboseFlag g then log (Archiving fileName) g else g).
  assert (H0 : tarOut g0 = tarOut g /\ errorFlag g0 = errorFlag g
               /\ tarDev g0 = tarDev g /\ tarInode g0 = tarInode g
               /\ trace g0
                  = trace g
                      ++ (if verboseFlag g then [Archiving fileName] else [])).
  { unfold g0. destruct (verboseFlag g); cbn; rewrite ?app_nil_r;
      repeat split; reflexivity. }
  destruct H0 as (Hout & Herr & Hdev & Hino & Htr).
  assert (Hlog : forall e g1,
             tarOut g1 = tarOut g0 -> errorFlag g1 = errorFlag g0 ->
             trace g1 = trace g0 ->
             exists g',
               Some (log e g1) = Some g'
               /\ tarOut g' = tarOut g
               /\ errorFlag g' = errorFlag g
               /\ exists e',
                    trace g'
                    = trace g
                        ++ (if verboseFlag g then [Archiving fileName]
                            else [])
                        ++ [e']).
  { intros e g1 H1 H2 H3. exists (log e g1). split; [reflexivity|].
    unfold log. cbn [tarOut errorFlag trace set_trace].
    split; [congruence|]. split; [congruence|].
    exists e. now rewrite H3, Htr, app_assoc. }
  clearbody g0.
  destruct (Nat.leb_spec TAR_NAME_SIZE (strlen fileName)) as [Hlong | Hfits];
    [now apply Hlog|].
  destruct Hskip as [Hlong | Hskip]; [lia|].
  destruct (if seeLinks then nlstat else nstat) as [statbuf|];
    [|now apply Hlog].
  destruct Hskip as [Hnone | (sb & Hsb & Hcase)]; [discriminate|].
  injection Hsb as <-.
  destruct ((st_dev statbuf =? tarDev g0) && (st_ino statbuf =? tarInode g0))
    eqn:Hself; [now apply Hlog|].
  destruct Hcase as [[Hd Hi] | Hcase].
  { rewrite Hdev, Hino, Hd, Hi, !Z.eqb_refl in Hself. discriminate. }
  cbn [mode set_mode].
  destruct Hcase as [[Hdir Hreg] | [Hdir Hopen]]; rewrite Hdir.
  - rewrite Hreg. now apply Hlog.
  - destruct (S_ISREG (to_int (st_mode statbuf))); [|now apply Hlog].
    rewrite Hopen. unfold saveRegularFile. now apply Hlog.
Qed.

Lemma saveFile_skips_witness :
  exists g',
    saveFile 255 missing_file (cstr "nowhere") false create_globals = Some g'
    /\ emitted g' = [] /\ errorFlag g' = false.
Proof.
  destruct (saveFile_skips 255 None None None None (cstr "nowhere") false
              create_globals) as (g' & Hrun & H1 & H2 & _).
  - right. left. reflexivity.
  - exists g'. split; [exact Hrun|]. unfold emitted.
    split; [rewrite H1 | rewrite H2]; reflexivity.
Defined.

(** X14. A field of at most 21 bytes (the fields of a header have 8 or
    12) decodes to -1 or to a value below [8 ^ len]: the accumulation in
    a [long] does not overflow, and no negative value other than -1
    results. The bytes after the field are not looked at. *)
Theorem getOctal_bounded_and_local (cp rest : list Z) (len : nat) :
  (len <= 21)%nat -> (len <= length cp)%nat ->
  (getOctal cp len = -1 \/ 0 <= getOctal cp len < 8 ^ Z.of_nat len)
  /\ getOctal (cp ++ rest) len = getOctal cp len.
Proof.
  intros Hlen Hcp. split; [now apply getOctal_range | now apply getOctal_within].
Qed.

Lemma getOctal_bounded_and_local_witness :
  getOctal (cstr "0000644" ++ cstr "1750") 7 = getOctal (cstr "0000644") 7
  /\ 0 <= getOctal (cstr "0000644") 7 < 8 ^ 7.
Proof.
  destruct (getOctal_bounded_and_local (cstr "0000644") (cstr "1750") 7)
    as [[Hbad | Hrange] Hlocal].
  - lia.
  - simpl. lia.
  - vm_compute in Hbad. discriminate Hbad.
  - split; [exact Hlocal | exact Hrange].
Defined.

(** ** Absolute names *)

Section EntryTraces.
Variable sys : syscall -> Z.

Ltac appended :=
  repeat match goal with
         | |- context [if ?b then _ else _] => destruct b
         end;
  cbn -[Z.ltb Z.leb Z.eqb to_int];
  first [ exists []; split; [symmetry; apply app_nil_r | split; reflexivity]
        | eexists; split;
          [rewrite <- ?app_assoc; reflexivity | split; reflexivity] ].

Lemma skipEntry_trace (hp : list Z) (size : Z) (g : globals) :
  trace (skipEntry hp size g) = trace g
  /\ warnedRoot (skipEntry hp size g) = warnedRoot g.
Proof. unfold skipEntry, expectData. by_cases. Qed.

Lemma listEntry_trace (hp : list Z) (size major minor : Z) (g : globals) :
  (exists t, trace (listEntry hp size major minor g) = trace g ++ t
             /\ no_stderr t = true /\ extracted_bytes t = [])
  /\ warnedRoot (listEntry hp size major minor g) = warnedRoot g.
Proof.
  split.
  - unfold listEntry, expectData, log. appended.
  - unfold listEntry, expectData, log. by_cases.
Qed.

Lemma extractEntry_trace (hp : list Z) (size major minor : Z) (g : globals) :
  (exists t, trace (extractEntry sys hp size major minor g) = trace g ++ t
             /\ no_stderr t = true /\ extracted_bytes t = [])
  /\ warnedRoot (extractEntry sys hp size major minor g) = warnedRoot g.
Proof.
  split.
  - unfold extractEntry, call, restoreAttributes, expectData, log.
    cbn -[Z.ltb Z.eqb to_int]. appended.
  - unfold extractEntry, call, restoreAttributes, expectData, log.
    cbn -[Z.ltb Z.eqb to_int]. by_cases.
Qed.

Lemma handleEntry_trace (hp : list Z) (fileCount : Z)
    (fileTable : list (list Z))
    (size major minor : Z) (g : globals) :
  (exists t,
      trace (handleEntry sys hp fileCount fileTable size major minor g) =
        trace g ++ t
      /\ no_stderr t = true /\ extracted_bytes t = [])
  /\ warnedRoot (handleEntry sys hp fileCount fileTable size major minor g)
     = warnedRoot g.
Proof.
  unfold handleEntry.
  destruct (negb (wantFileName (outName g) fileCount fileTable)).
  - destruct (skipEntry_trace hp size g) as [H1 H2].
    split; [|exact H2]. exists []. rewrite app_nil_r.
    split; [exact H1 | split; reflexivity].
  - destruct (negb (extractFlag g));
      [apply listEntry_trace | apply extractEntry_trace].
Qed.
End EntryTraces.

Lemma stripRoot_root (g : globals) :
  warnedRoot (stripRoot g) = warnedRoot g || (deref (outName g) =? SLASH)
  /\ trace (stripRoot g)
     = trace g ++ (if (deref (outName g) =? SLASH) && negb (warnedRoot g)
                   then [msg_absolute_path] else []).
Proof.
  unfold stripRoot, log.
  destruct (deref (outName g) =? SLASH); cbn [andb].
  - cbn [warnedRoot trace set_warnedRoot set_outName set_trace].
    rewrite orb_true_r.
    destruct (warnedRoot g); cbn [negb trace set_trace set_outName];
      rewrite ?app_nil_r; split; reflexivity.
  - rewrite orb_false_r, app_nil_r. split; reflexivity.
Qed.

Lemma checkDirectory_root (g : globals) :
  warnedRoot (checkDirectory g) = warnedRoot g.
Proof. unfold checkDirectory. by_cases. Qed.

Lemma prepareEntry_root (hp : list Z) (g : globals) :
  warnedRoot (prepareEntry hp g) = warnedRoot g || (deref hp =? SLASH)
  /\ trace (prepareEntry hp g)
     = trace g ++ (if (deref hp =? SLASH) && negb (warnedRoot g)
                   then [msg_absolute_path] else []).
Proof.
  unfold prepareEntry.
  destruct (stripRoot_root
              (checkDirectory
                 (set_skipFileFlag false
                    (set_badHeader false (decodeFields hp g)))))
    as [Hw Ht].
  destruct (checkDirectory_frame
              (set_skipFileFlag false
                 (set_badHeader false (decodeFields hp g))))
    as (K1 & _ & _ & _ & _ & K6).
  rewrite Hw, Ht, K1, K6, checkDirectory_root. split; reflexivity.
Qed.

Lemma skipSlashes_head (name : list Z) : deref (skipSlashes name) <> SLASH.
Proof.
  induction name as [|c name IH]; [discriminate|].
  cbn [skipSlashes]. destruct (c =? SLASH) eqn:E; [exact IH|].
  now apply Z.eqb_neq in E.
Qed.

Lemma skipSlashes_entryName (hp : list Z) : entryName hp = skipSlashes hp.
Proof.
  unfold entryName. destruct hp as [|c hp]; [reflexivity|].
  cbn [deref hd skipSlashes]. now destruct (c =? SLASH).
Qed.

Lemma handleEntry_outName (sys : syscall -> Z) (hp : list Z)
    (fileCount : Z) (fileTable : list (list Z)) (size major minor : Z)
    (g : globals) :
  outName (handleEntry sys hp fileCount fileTable size major minor g)
  = outName g.
Proof.
  unfold handleEntry, skipEntry, listEntry, extractEntry, call,
    restoreAttributes, expectData, log.
  cbn -[Z.ltb Z.eqb to_int wantFileName].
  repeat match goal with
         | |- context [if ?b then _ else _] => destruct b eqn:?
         end;
    cbn -[Z.ltb Z.eqb to_int]; reflexivity.
Qed.

(** A listing prints the name that [outName] points to. *)
Lemma listEntry_names (hp : list Z) (size major minor : Z) (g : globals) :
  exists t1 t2,
    trace (listEntry hp size major minor g)
    = trace g ++ t1 ++ ListName (cstring (outName g)) :: t2.
Proof.
  unfold listEntry, expectData, log.
  destruct (verboseFlag g);
    [exists [ListVerbose (mode g) (uid g) (gid g)
               (if S_ISCHR (mode g) || S_ISBLK (mode g)
                then Some (major, minor) else None) size (mtime g)]
    | exists []];
    cbn -[S_ISCHR S_ISBLK carries_data];
    destruct (hardLink hp); [| destruct (softLink hp);
                               [| destruct (carries_data (mode g))] | |
                             destruct (softLink hp);
                               [| destruct (carries_data (mode g))]];
    cbn -[S_ISCHR S_ISBLK]; eexists; rewrite <- ?app_assoc; reflexivity.
Qed.

(** X15. Absolute names. [readHeader] handles an entry under its name
    without the leading slashes: that is where [outName] points when it
    returns, and the name that a listing prints. The warning about
    absolute paths is printed for the first such entry only,
    [warnedRoot] then stays set, and handling the entry prints no message
    of the program's own to standard error. *)
Theorem readHeader_absolute_path
    (sys : syscall -> Z) (hp : list Z) (fileCount : Z)
    (fileTable : list (list Z)) (g : globals) :
  deref hp <> 0 -> fields_decode hp = true ->
  let g' := readHeader sys hp fileCount fileTable g in
  outName g' = skipSlashes hp
  /\ deref (outName g') <> SLASH
  /\ warnedRoot g' = warnedRoot g || (deref hp =? SLASH)
  /\ exists t,
       trace g'
       = trace g
           ++ (if (deref hp =? SLASH) && negb (warnedRoot g)
               then [msg_absolute_path] else [])
           ++ t
       /\ no_stderr t = true
       /\ (extractFlag g = false ->
           wantFileName (skipSlashes hp) fileCount fileTable = true ->
           In (ListName (cstring (skipSlashes hp))) t).
Proof.
  intros Hname Hok g'. unfold g'.
  rewrite readHeader_decodes by assumption.
  destruct (prepareEntry_root hp g) as [Hw Ht].
  destruct (prepareEntry_frame hp g) as (Pname & _ & _ & Px).
  rewrite skipSlashes_entryName in Pname.
  destruct (handleEntry_trace sys hp fileCount fileTable (hdr_size hp)
              (to_uint (hdr_devMajor hp)) (to_uint (hdr_devMinor hp))
              (prepareEntry hp g)) as [(t & Htrace & Hquiet & _) Hwarned].
  rewrite handleEntry_outName, Pname.
  split; [reflexivity|]. split; [apply skipSlashes_head|].
  split; [now rewrite Hwarned|].
  exists t. split; [now rewrite Htrace, Ht, app_assoc|].
  split; [exact Hquiet|].
  intros Hlist Hwant. unfold handleEntry in Htrace.
  rewrite Pname, Hwant, Px, Hlist in Htrace. cbn [negb] in Htrace.
  destruct (listEntry_names hp (hdr_size hp) (to_uint (hdr_devMajor hp))
              (to_uint (hdr_devMinor hp)) (prepareEntry hp g))
    as (t1 & t2 & Hnames).
  rewrite Hnames, Pname in Htrace. apply app_inv_head in Htrace.
  subst t. apply in_or_app. right. now left.
Qed.

Lemma readHeader_absolute_path_witness :
  let hp := header_block (cstr "/etc/motd") sample_stat in
  let g1 := readHeader sys_ok hp 0 [] list_globals in
  let g2 := readHeader sys_ok hp 0 [] g1 in
  cstring (outName g1) = cstr "etc/motd"
  /\ warnedRoot g1 = true
  /\ exists t,
       trace g2 = trace g1 ++ t /\ no_stderr t = true
       /\ In (ListName (cstr "etc/motd")) t.
Proof.
  intros hp g1 g2.
  destruct (readHeader_absolute_path sys_ok hp 0 [] list_globals)
    as (H0 & _ & H1 & _); [vm_compute; discriminate | vm_compute; reflexivity|].
  destruct (readHeader_absolute_path sys_ok hp 0 [] g1)
    as (_ & _ & _ & t & Ht & Hquiet & Hlisted);
    [vm_compute; discriminate | vm_compute; reflexivity|].
  split; [fold g1 in H0; rewrite H0; vm_compute; reflexivity|].
  split; [exact H1|].
  exists t. split; [|split; [exact Hquiet|]].
  - fold g2 in Ht. rewrite Ht. fold g1 in H1. rewrite H1. reflexivity.
  - assert (Hname : cstring (skipSlashes hp) = cstr "etc/motd")
      by (vm_compute; reflexivity).
    rewrite <- Hname. apply Hlisted; vm_compute; reflexivity.
Defined.

(** ** The command line *)

Lemma parseOptions_flags (options : list Z) :
  forall g argc argv g' argc' argv',
    launched (parseOptions options g argc argv) = Some (g', argc', argv') ->
    listFlag g' = listFlag g || has LETTER_t (cstring options)
    /\ extractFlag g' = extractFlag g || has LETTER_x (cstring options)
    /\ createFlag g' = createFlag g || has LETTER_c (cstring options)
    /\ verboseFlag g' = verboseFlag g || has LETTER_v (cstring options)
    /\ tostdoutFlag g' = tostdoutFlag g || has LETTER_O (cstring options)
    /\ ((modeCount g <= 1)%nat -> (modeCount g' <= 1)%nat)
    /\ errorFlag g' = errorFlag g
    /\ trace g' = trace g
    /\ writes (parseOptions options g argc argv) = createFlag g'.
Proof.
  unfold has, LETTER_f, LETTER_t, LETTER_x, LETTER_c, LETTER_v, LETTER_O, DASH.
  induction options as [|c options IH]; intros g argc argv g' argc' argv' H.
  - cbn in H |- *. destruct (createFlag g) eqn:Ec; cbn in H;
      injection H as <- <- <-; rewrite ?orb_false_r, ?Ec;
      repeat split; auto.
  - cbn [parseOptions cstring] in H |- *.
    destruct (c =? 0) eqn:E0.
    { cbn in H |- *. destruct (createFlag g) eqn:Ec; cbn in H;
        injection H as <- <- <-; rewrite ?orb_false_r, ?Ec;
        repeat split; auto. }
    unfold LETTER_f, LETTER_t, LETTER_x, LETTER_c, LETTER_v, LETTER_O, DASH
      in H |- *.
    repeat match type of H with
           | context [if ?c =? ?k then _ else _] =>
               let E := fresh "E" in
               destruct (c =? k) eqn:E;
               [apply Z.eqb_eq in E; subst c; clear E0|]
           end;
      try discriminate H;
      cbn [existsb Z.eqb Pos.eqb orb].
    + (* f *)
      destruct (tarName g); [discriminate H|].
      destruct argv as [[|name rest]|]; [| |discriminate H];
        apply IH in H; exact H.
    + (* t *)
      destruct (extractFlag g) eqn:Ex, (createFlag g) eqn:Ec;
        try discriminate H.
      cbn [orb] in H |- *. apply IH in H.
      destruct H as (H1 & H2 & H3 & H4 & H5 & H6 & H7 & H8 & H9).
      unfold modeCount in *.
      cbn [listFlag extractFlag createFlag verboseFlag tostdoutFlag
           errorFlag trace set_listFlag orb] in *.
      rewrite Ex, Ec in *. rewrite ?orb_true_r.
      repeat split; try assumption. intros _. apply H6. simpl. lia.
    + (* x *)
      destruct (listFlag g) eqn:El, (createFlag g) eqn:Ec;
        try discriminate H.
      cbn [orb] in H |- *. apply IH in H.
      destruct H as (H1 & H2 & H3 & H4 & H5 & H6 & H7 & H8 & H9).
      unfold modeCount in *.
      cbn [listFlag extractFlag createFlag verboseFlag tostdoutFlag
           errorFlag trace set_extractFlag orb] in *.
      rewrite El, Ec in *. rewrite ?orb_true_r.
      repeat split; try assumption. intros _. apply H6. simpl. lia.
    + (* c *)
      destruct (extractFlag g) eqn:Ex, (listFlag g) eqn:El;
        try discriminate H.
      cbn [orb] in H |- *. apply IH in H.
      destruct H as (H1 & H2 & H3 & H4 & H5 & H6 & H7 & H8 & H9).
      unfold modeCount in *.
      cbn [listFlag extractFlag createFlag verboseFlag tostdoutFlag
           errorFlag trace set_createFlag orb] in *.
      rewrite Ex, El in *. rewrite ?orb_true_r.
      repeat split; try assumption. intros _. apply H6. simpl. lia.
    + (* v *)
      apply IH in H.
      destruct H as (H1 & H2 & H3 & H4 & H5 & H6 & H7 & H8 & H9).
      unfold modeCount in *.
      cbn [listFlag extractFlag createFlag verboseFlag tostdoutFlag
           errorFlag trace set_verboseFlag orb] in *.
      rewrite ?orb_true_r. repeat split; assumption.
    + (* O *)
      apply IH in H.
      destruct H as (H1 & H2 & H3 & H4 & H5 & H6 & H7 & H8 & H9).
      unfold modeCount in *.
      cbn [listFlag extractFlag createFlag verboseFlag tostdoutFlag
           errorFlag trace set_tostdoutFlag orb] in *.
      rewrite ?orb_true_r. repeat split; assumption.
Qed.

Lemma parseOptions_args (options : list Z) :
  forall g argc argv g' argc' argv',
    launched (parseOptions options g argc argv) = Some (g', argc', argv') ->
    if has LETTER_f (cstring options)
    then tarName g = None
         /\ match argv with
            | Some (name :: rest) =>
                tarName g' = Some name /\ argv' = Some rest
                /\ argc' = argc - 1
            | Some [] => tarName g' = None /\ argv' = None /\ argc' = argc - 1
            | None => False
            end
    else tarName g' = tarName g /\ argv' = argv /\ argc' = argc.
Proof.
  unfold has, LETTER_f.
  induction options as [|c options IH]; intros g argc argv g' argc' argv' H.
  - cbn in H |- *. destruct (createFlag g); cbn in H;
      injection H as <- <- <-; repeat split; reflexivity.
  - cbn [parseOptions cstring] in H |- *.
    destruct (c =? 0) eqn:E0.
    { cbn in H |- *. destruct (createFlag g); cbn in H;
        injection H as <- <- <-; repeat split; reflexivity. }
    unfold LETTER_f, LETTER_t, LETTER_x, LETTER_c, LETTER_v, LETTER_O, DASH
      in H |- *.
    repeat match type of H with
           | context [if ?c =? ?k then _ else _] =>
               let E := fresh "E" in
               destruct (c =? k) eqn:E;
               [apply Z.eqb_eq in E; subst c; clear E0|]
           end;
      try discriminate H;
      cbn [existsb Z.eqb Pos.eqb orb].
    + (* f *)
      destruct (tarName g) eqn:Hname; [discriminate H|].
      split; [reflexivity|].
      destruct argv as [[|name rest]|]; [| |discriminate H];
        apply IH in H;
        destruct (existsb (fun d => d =? 102) (cstring options));
        cbn [tarName set_tarName] in H.
      * now destruct H as [_ []].
      * exact H.
      * now destruct H as [H _].
      * exact H.
    + destruct (extractFlag g || createFlag g); [discriminate H|].
      apply IH in H. exact H.
    + destruct (listFlag g || createFlag g); [discriminate H|].
      apply IH in H. exact H.
    + destruct (extractFlag g || listFlag g); [discriminate H|].
      apply IH in H. exact H.
    + apply IH in H. exact H.
    + apply IH in H. exact H.
Qed.

(** X16. When [tar_main] gets as far as writing or reading the archive,
    each of the five flags is set exactly when its letter is among the
    options, [errorFlag] is clear, and at most one of [listFlag],
    [extractFlag] and [createFlag] is set. None of them need be set: the
    archive is written when [createFlag] is set and read in every other
    case. *)
Theorem tar_main_modes
    (args : list (list Z)) (g : globals) (argc : Z)
    (argv : option (list (list Z))) :
  launched (tar_main args) = Some (g, argc, argv) ->
  let letters := optionLetters args in
  listFlag g = has LETTER_t letters
  /\ extractFlag g = has LETTER_x letters
  /\ createFlag g = has LETTER_c letters
  /\ verboseFlag g = has LETTER_v letters
  /\ tostdoutFlag g = has LETTER_O letters
  /\ (modeCount g <= 1)%nat
  /\ errorFlag g = false
  /\ writes (tar_main args) = createFlag g.
Proof.
  intros H letters. unfold letters. clear letters.
  destruct args as [|word rest]; [discriminate H|].
  unfold tar_main, optionLetters in *. cbv zeta in H |- *.
  destruct (parseOptions_flags _ _ _ _ _ _ _ H)
    as (H1 & H2 & H3 & H4 & H5 & H6 & H7 & _ & H9).
  unfold startup, modeCount in H1, H2, H3, H4, H5, H6, H7.
  cbn [listFlag extractFlag createFlag verboseFlag tostdoutFlag errorFlag
       orb] in H1, H2, H3, H4, H5, H6, H7.
  repeat (split; [assumption|]).
  split; [apply H6; simpl; lia|]. split; assumption.
Qed.

Lemma tar_main_modes_witness :
  exists g argc argv,
    tar_main bare_command = ReadTarFile g argc argv
    /\ listFlag g = false /\ extractFlag g = false.
Proof.
  assert (E : launched (tar_main bare_command)
              = Some (set_tarName (Some (cstr "a.tar"))
                        (set_verboseFlag true
                           (startup false false false false false None
                              fresh_sink)),
                      0, Some [])) by reflexivity.
  destruct (tar_main_modes _ _ _ _ E) as (H1 & H2 & _).
  eexists _, _, _. split; [reflexivity|].
  split; [exact H1 | exact H2].
Defined.

(** X17. The archive named on the command line is the argument that
    follows the option word, wherever the letter 'f' stands among the
    options, and the arguments after it are the files; without 'f', all
    the arguments after the option word are files and [tarName] stays
    NULL. When 'f' is given and no argument follows, [tarName] is NULL as
    well, [argc] is -1 and [argv] points past the argument vector. *)
Theorem tar_main_arguments
    (word : list Z) (rest : list (list Z)) (g : globals) (argc : Z)
    (argv : option (list (list Z))) :
  launched (tar_main (word :: rest)) = Some (g, argc, argv) ->
  if has LETTER_f (optionLetters (word :: rest))
  then match rest with
       | name :: files =>
           tarName g = Some name /\ argv = Some files
           /\ argc = Z.of_nat (length files)
       | [] => tarName g = None /\ argv = None /\ argc = -1
       end
  else tarName g = None /\ argv = Some rest
       /\ argc = Z.of_nat (length rest).
Proof.
  intros H. unfold tar_main, optionLetters in *. cbv zeta in H.
  apply parseOptions_args in H.
  destruct (has LETTER_f
              (cstring (if deref word =? DASH then tl word else word))).
  - destruct H as [_ H]. destruct rest as [|name files].
    + destruct H as (H1 & H2 & H3). repeat split; assumption.
    + destruct H as (H1 & H2 & H3). repeat split; [assumption..|].
      rewrite H3. cbn [length]. lia.
  - exact H.
Qed.

Lemma tar_main_arguments_witness :
  exists g,
    tar_main nameless_command = ReadTarFile g (-1) None
    /\ tarName g = None.
Proof.
  assert (E : launched (tar_main nameless_command)
              = Some (set_extractFlag true
                        (startup false false false false false None
                           fresh_sink),
                      -1, None)) by reflexivity.
  pose proof (tar_main_arguments _ _ _ _ _ E) as H.
  cbn in H. destruct H as (H1 & _).
  eexists. split; [reflexivity | exact H1].
Defined.

(** ** Selecting a directory *)

(** X18. A directory given with a trailing slash selects the entry of the
    directory itself but none of the files below it, because the byte
    that follows the prefix in their names is not a slash; given without
    the slash it selects the directory and all that is below it. *)
Theorem wantFileName_directory_prefix (dir rest : list Z) (c : Z) :
  Forall (fun d => d <> 0) dir -> c <> 0 -> c <> SLASH ->
  let below := dir ++ SLASH :: c :: rest in
  wantFileName below 1 [dir ++ [SLASH]] = false
  /\ wantFileName (dir ++ [SLASH]) 1 [dir ++ [SLASH]] = true
  /\ wantFileName below 1 [dir] = true
  /\ wantFileName (dir ++ [SLASH]) 1 [dir] = true.
Proof.
  intros Hdir Hc Hslash below.
  assert (Hcz : (c =? 0) = false) by now apply Z.eqb_neq.
  assert (Hbelow : cstring below = dir ++ SLASH :: c :: cstring rest).
  { unfold below. rewrite cstring_app by assumption.
    cbn [cstring]. change (SLASH =? 0) with false. cbn iota.
    now rewrite Hcz. }
  assert (Hd : cstring (dir ++ [SLASH]) = dir ++ [SLASH])
    by now rewrite cstring_app.
  assert (Hd0 : cstring dir = dir).
  { rewrite <- (app_nil_r dir) at 1. rewrite cstring_app by assumption.
    cbn [cstring]. apply app_nil_r. }
  unfold wantFileName. change (1 =? 0) with false. cbn iota.
  split; [|split; [|split]].
  - destruct (wantFileName_loop below (strlen below) 1 [dir ++ [SLASH]])
      eqn:E; [|reflexivity].
    apply wantFileName_loop_iff in E.
    destruct E as (p & r & [<- | []] & Hr & Hnext).
    rewrite Hbelow, Hd, <- app_assoc in Hr.
    apply app_inv_head in Hr. cbn [app] in Hr. injection Hr as <-.
    destruct Hnext as [Hnil | Hnext]; [discriminate Hnil|].
    now contradiction Hslash.
  - apply wantFileName_loop_iff. exists (dir ++ [SLASH]), [].
    split; [now left|]. split; [now rewrite app_nil_r | now left].
  - apply wantFileName_loop_iff. exists dir, (SLASH :: c :: cstring rest).
    split; [now left|]. split; [now rewrite Hbelow, Hd0 | now right].
  - apply wantFileName_loop_iff. exists dir, [SLASH].
    split; [now left|]. split; [now rewrite Hd, Hd0 | now right].
Qed.

Lemma wantFileName_directory_prefix_witness :
  wantFileName (cstr "dir/file") 1 [cstr "dir/"] = false
  /\ wantFileName (cstr "dir/file") 1 [cstr "dir"] = true.
Proof.
  destruct (wantFileName_directory_prefix (cstr "dir") (cstr "ile") 102)
    as (H1 & _ & H3 & _).
  - repeat constructor; discriminate.
  - discriminate.
  - discriminate.
  - split; [exact H1 | exact H3].
Defined.

(** ** From the writer to the reader *)

Lemma data_blocks_whole (data : list Z) :
  data_blocks (length data) false (mkSource data false)
  = data ++ repeat 0 (padding (length data)).
Proof.
  unfold data_blocks. cbn [pending]. rewrite firstn_all.
  f_equal. f_equal. lia.
Qed.

(** What [writeTarFile] writes for one regular file. *)
Lemma writeTarFile_one_file
    (NAME_MAX : nat) (fileName : list Z) (statbuf : stat) (data : list Z)
    (t : target) (tarStat : stat) (g : globals) :
  errorFlag g = false ->
  written (target_out t) = [] -> room (target_out t) = None ->
  target_stat t = Some tarStat ->
  st_dev statbuf <> st_dev tarStat \/ st_ino statbuf <> st_ino tarStat ->
  (strlen fileName < TAR_NAME_SIZE)%nat ->
  S_ISDIR (to_int (st_mode statbuf)) = false ->
  S_ISREG (to_int (st_mode statbuf)) = true ->
  st_size statbuf = Z.of_nat (length data) ->
  exists g',
    writeTarFile NAME_MAX 1 [(fileName, regular_file statbuf data)] (Some t) g
    = Some g'
    /\ emitted g' = archive_of fileName statbuf data.
Proof.
  intros Herr Hwritten Hroom Hstat Hself Hname Hdir Hreg Hsize.
  unfold writeTarFile. rewrite Hstat. change (1 <=? 0) with false.
  cbv iota.
  set (g1 := match tarName g with
             | Some name =>
                 if strcmp_eq name (cstr "-") then set_tostdoutFlag true g
                 else g
             | None => set_tostdoutFlag true g
             end).
  assert (Herr1 : errorFlag g1 = false).
  { unfold g1. destruct (tarName g) as [name|];
      [destruct (strcmp_eq name (cstr "-"))|]; exact Herr. }
  set (g2 := set_tarInode (st_ino tarStat)
               (set_tarDev (st_dev tarStat)
                  (set_tarOut (target_out t) g1))).
  assert (Hg2 : usable g2) by (split; [exact Herr1 | exact Hroom]).
  assert (He2 : emitted g2 = []) by exact Hwritten.
  assert (Hdev : tarDev g2 = st_dev tarStat) by reflexivity.
  assert (Hino : tarInode g2 = st_ino tarStat) by reflexivity.
  clearbody g2. clear g1 Herr1.
  cbn [saveFiles]. rewrite (proj1 Hg2). change (1 >? 0) with true.
  cbv iota.
  unfold regular_file. cbn [saveFile].
  set (g3 := if verboseFlag g2 then log (Archiving fileName) g2 else g2).
  assert (Hg3 : usable g3 /\ emitted g3 = [] /\ tarDev g3 = st_dev tarStat
                /\ tarInode g3 = st_ino tarStat).
  { unfold g3. destruct (verboseFlag g2); repeat split;
      solve [apply Hg2 | assumption]. }
  destruct Hg3 as (Hu3 & He3 & Hdev3 & Hino3). clearbody g3.
  replace (TAR_NAME_SIZE <=? strlen fileName)%nat with false
    by (symmetry; apply Nat.leb_gt; exact Hname).
  replace ((st_dev statbuf =? tarDev g3) && (st_ino statbuf =? tarInode g3))
    with false.
  2: { symmetry. rewrite Hdev3, Hino3. apply andb_false_iff.
       destruct Hself as [H | H]; [left | right]; now apply Z.eqb_neq. }
  cbn [mode set_mode]. rewrite Hdir, Hreg.
  set (g4 := set_mode (to_int (st_mode statbuf)) g3).
  assert (Hu4 : usable g4) by exact Hu3.
  assert (He4 : emitted g4 = []) by exact He3.
  clearbody g4.
  eexists. split; [reflexivity|].
  unfold saveRegularFile, writeHeader.
  pose proof (fillHeader_length fileName statbuf ltac:(lia)) as Hlen.
  destruct (writeTarBlock_emits (fillHeader fileName statbuf)
              sizeof_TarHeader g4 Hu4 ltac:(rewrite Hlen; lia)) as [Hu5 He5].
  rewrite <- Hlen in He5 at 2. rewrite firstn_all in He5.
  change (padding sizeof_TarHeader) with 12%nat in He5.
  rewrite Hsize.
  assert (Hfuel : (length data
                   <= (Z.to_nat (Z.of_nat (length data) / sizeof_data) + 1)
                      * chunk)%nat).
  { pose proof (saveData_fuel (Z.of_nat (length data)) ltac:(lia)) as H.
    now rewrite Nat2Z.id in H. }
  destruct (saveData_emits _ fileName (length data) false
              (mkSource data false) _ Hu5 (or_introl eq_refl) Hfuel)
    as [Hu6 He6].
  destruct (end_marker_emitted _ Hu6) as [_ He7].
  rewrite He7, He6, He5, He4, data_blocks_whole, app_nil_l.
  unfold archive_of, header_block.
  rewrite <- !app_assoc. reflexivity.
Qed.

Lemma cstring_prefix (h more : list Z) :
  (strlen h < length h)%nat -> cstring (h ++ more) = cstring h.
Proof.
  unfold strlen. induction h as [|c h IH]; cbn [cstring length app].
  - lia.
  - destruct (c =? 0); [reflexivity|]. cbn [length]. intros H.
    f_equal. apply IH. lia.
Qed.

Lemma member_then_more (h more : list Z) (off len : nat) :
  (off + len <= length h)%nat ->
  getOctal (skipn off (h ++ more)) len = getOctal (skipn off h) len.
Proof.
  intros H. rewrite skipn_app.
  replace (off - length h)%nat with O by lia. cbn [skipn].
  apply getOctal_within. rewrite length_skipn. lia.
Qed.

Lemma index_then_more (h more : list Z) (k : nat) :
  (k < length h)%nat -> index (h ++ more) k = index h k.
Proof. intros H. unfold index. now apply app_nth1. Qed.

Lemma permission_bits_not_directory (m : Z) : S_ISDIR (Z.land m 511) = false.
Proof.
  unfold S_ISDIR. rewrite <- Z.land_assoc.
  change (Z.land 511 S_IFMT) with 0. now rewrite Z.land_0_r.
Qed.

Lemma members_then_more (h more : list Z) :
  length h = TAR_BLOCK_SIZE ->
  hdr_mode (h ++ more) = hdr_mode h /\ hdr_uid (h ++ more) = hdr_uid h
  /\ hdr_gid (h ++ more) = hdr_gid h /\ hdr_size (h ++ more) = hdr_size h
  /\ hdr_typeFlag (h ++ more) = hdr_typeFlag h.
Proof.
  intros Hlen. unfold hdr_mode, hdr_uid, hdr_gid, hdr_size, hdr_typeFlag.
  rewrite !member_then_more by (rewrite Hlen; layout; lia).
  rewrite index_then_more by (rewrite Hlen; layout; lia).
  repeat split; reflexivity.
Qed.

(** The numeric members of a written header, as they decode. *)
Lemma header_block_numbers (fileName : list Z) (statbuf : stat) :
  (strlen fileName < TAR_NAME_SIZE)%nat ->
  0 <= st_uid statbuf < 8 ^ 8 -> 0 <= st_gid statbuf < 8 ^ 8 ->
  0 <= st_size statbuf < 8 ^ 12 ->
  let hp := header_block fileName statbuf in
  hdr_mode hp = Z.land (st_mode statbuf) 511
  /\ hdr_uid hp = st_uid statbuf /\ hdr_gid hp = st_gid statbuf
  /\ hdr_size hp = st_size statbuf.
Proof.
  intros Hname Hu Hg Hs hp.
  assert (Hle : (strlen fileName <= TAR_NAME_SIZE)%nat) by lia.
  destruct (fillHeader_members fileName statbuf Hle)
    as (_ & Hmode & Huid & Hgid & Hsize & _).
  unfold hdr_mode, hdr_uid, hdr_gid, hdr_size, hp.
  rewrite !member_decoded by (layout; lia).
  rewrite Hmode, Huid, Hgid, Hsize.
  pose proof (permission_bits_range (st_mode statbuf)) as Hm.
  repeat split; (apply stored_fits; [layout; lia|]);
    [change (8 ^ Z.of_nat sz_mode) with 16777216; lia | assumption..].
Qed.


(** ** The data of a regular file *)




(** A written header followed by more bytes, as [readHeader] sees it. *)
Lemma header_then_more (fileName : list Z) (statbuf : stat) (more : list Z) :
  (0 < strlen fileName < TAR_NAME_SIZE)%nat ->
  index fileName (strlen fileName - 1) <> SLASH ->
  0 <= st_uid statbuf < 8 ^ 8 -> 0 <= st_gid statbuf < 8 ^ 8 ->
  0 <= st_size statbuf < 8 ^ 12 ->
  let hp := header_block fileName statbuf ++ more in
  deref hp <> 0 /\ fields_decode hp = true
  /\ hardLink hp = false /\ softLink hp = false
  /\ hdr_size hp = st_size statbuf
  /\ S_ISDIR (entryMode hp) = false.
Proof.
  intros Hname Hlast Hu Hg Hs hp.
  assert (Hle : (strlen fileName <= TAR_NAME_SIZE)%nat) by lia.
  pose proof (header_block_length fileName statbuf Hle) as Hlen.
  pose proof (header_block_name fileName statbuf ltac:(lia)) as Hcs.
  destruct (header_block_numbers fileName statbuf ltac:(lia) Hu Hg Hs)
    as (Nm & Nu & Ng & Ns).
  pose proof (header_block_typeFlag fileName statbuf Hle) as Hflag.
  assert (Hstr : cstring hp = cstring fileName).
  { unfold hp. rewrite cstring_prefix; [exact Hcs|].
    unfold strlen. rewrite Hcs, Hlen. unfold strlen in Hname.
    unfold TAR_NAME_SIZE, TAR_BLOCK_SIZE in *. lia. }
  destruct (members_then_more (header_block fileName statbuf) more Hlen)
    as (Mm & Mu & Mg & Ms & Mt).
  fold hp in Mm, Mu, Mg, Ms, Mt.
  assert (Hmode : hdr_mode hp = Z.land (st_mode statbuf) 511)
    by (rewrite Mm; exact Nm).
  assert (Huid : hdr_uid hp = st_uid statbuf) by (rewrite Mu; exact Nu).
  assert (Hgid : hdr_gid hp = st_gid statbuf) by (rewrite Mg; exact Ng).
  assert (Hsize : hdr_size hp = st_size statbuf) by (rewrite Ms; exact Ns).
  assert (Htype : hdr_typeFlag hp = TAR_TYPE_REGULAR)
    by (rewrite Mt; exact Hflag).
  pose proof (permission_bits_range (st_mode statbuf)) as Hm.
  split.
  { apply cstring_deref. rewrite Hstr. intros E.
    unfold strlen in Hname. rewrite E in Hname. simpl in Hname. lia. }
  split.
  { apply fields_decode_true. rewrite Hmode, Huid, Hgid, Hsize. lia. }
  split; [unfold hardLink; rewrite Htype; reflexivity|].
  split; [unfold softLink; rewrite Htype; reflexivity|].
  split; [exact Hsize|].
  unfold entryMode.
  assert (Hend : index hp (strlen hp - 1) = index fileName (strlen fileName - 1)).
  { rewrite !index_cstring by lia. unfold strlen. now rewrite Hstr. }
  rewrite Hend.
  destruct (index fileName (strlen fileName - 1) =? SLASH) eqn:E;
    [apply Z.eqb_eq in E; contradiction|].
  rewrite Hmode. apply permission_bits_not_directory.
Qed.

Section RoundTrip.
Variable sys : syscall -> Z.

Lemma handleEntry_flags (hp : list Z) (fileCount : Z)
    (fileTable : list (list Z))
    (size major minor : Z) (g : globals) :
  let g' := handleEntry sys hp fileCount fileTable size major minor g in
  extractFlag g' = extractFlag g /\ tostdoutFlag g' = tostdoutFlag g
  /\ errorFlag g' = errorFlag g.
Proof.
  unfold handleEntry, skipEntry, listEntry, extractEntry, call,
    restoreAttributes, expectData, log.
  cbn -[Z.ltb Z.eqb to_int wantFileName].
  repeat match goal with
         | |- context [if ?b then _ else _] => destruct b eqn:?
         end;
    cbn -[Z.ltb Z.eqb to_int];
    repeat split; first [reflexivity | assumption].
Qed.

Lemma prepareEntry_errorFlag (hp : list Z) (g : globals) :
  errorFlag (prepareEntry hp g) = errorFlag g.
Proof.
  unfold prepareEntry, stripRoot, checkDirectory, decodeFields. by_cases.
Qed.

Lemma extracted_bytes_app (t1 t2 : list event) :
  extracted_bytes (t1 ++ t2) = extracted_bytes t1 ++ extracted_bytes t2.
Proof.
  induction t1 as [|e t1 IH]; [reflexivity|].
  destruct e as [| | | | | | | | | |c]; cbn [app extracted_bytes];
    try exact IH.
  destruct c; cbn [extracted_bytes]; try exact IH.
  now rewrite IH, app_assoc.
Qed.

(** The header of a regular file, read by "tar xO". *)
Lemma header_extracted (fileName : list Z) (statbuf : stat) (more : list Z)
    (g : globals) :
  (0 < strlen fileName < TAR_NAME_SIZE)%nat ->
  index fileName (strlen fileName - 1) <> SLASH ->
  0 <= st_uid statbuf < 8 ^ 8 -> 0 <= st_gid statbuf < 8 ^ 8 ->
  0 <= st_size statbuf < 8 ^ 12 ->
  extractFlag g = true -> tostdoutFlag g = true ->
  let g' := readHeader sys (header_block fileName statbuf ++ more) 0 [] g in
  inHeader g' = (st_size statbuf =? 0) /\ dataCc g' = st_size statbuf
  /\ outFd g' = 1 /\ skipFileFlag g' = false
  /\ extractFlag g' = true /\ tostdoutFlag g' = true
  /\ eofFlag g' = eofFlag g /\ errorFlag g' = errorFlag g
  /\ exists t, trace g' = trace g ++ t /\ extracted_bytes t = [].
Proof.
  intros Hname Hlast Hu Hg Hs Hx Hto g'. unfold g'. clear g'.
  destruct (header_then_more fileName statbuf more Hname Hlast Hu Hg Hs)
    as (Hne & Hok & Hh & Hsl & Hsize & Hdir).
  set (hp := header_block fileName statbuf ++ more) in *.
  rewrite readHeader_decodes by assumption.
  destruct (prepareEntry_frame hp g) as (Pname & _ & _ & Px).
  destruct (prepareEntry_statics hp g) as (Pout & _ & _ & Pskip & _).
  pose proof (prepareEntry_entryMode hp g Hok) as Pmode.
  destruct (prepareEntry_root hp g) as [_ Ptrace].
  pose proof (handleEntry_eof sys hp 0 [] (hdr_size hp)
                (to_uint (hdr_devMajor hp)) (to_uint (hdr_devMinor hp))
                (prepareEntry hp g)) as Heof.
  destruct (handleEntry_flags hp 0 [] (hdr_size hp)
              (to_uint (hdr_devMajor hp)) (to_uint (hdr_devMinor hp))
              (prepareEntry hp g)) as (Fx & Fto & Ferr).
  destruct (handleEntry_trace sys hp 0 [] (hdr_size hp)
              (to_uint (hdr_devMajor hp)) (to_uint (hdr_devMinor hp))
              (prepareEntry hp g)) as [(t & Htrace & _ & Hbytes) _].
  assert (Hentry : handleEntry sys hp 0 [] (hdr_size hp)
                     (to_uint (hdr_devMajor hp)) (to_uint (hdr_devMinor hp))
                     (prepareEntry hp g)
                   = extractEntry sys hp (hdr_size hp)
                       (to_uint (hdr_devMajor hp))
                       (to_uint (hdr_devMinor hp)) (prepareEntry hp g)).
  { unfold handleEntry. cbn [wantFileName negb]. now rewrite Px, Hx. }
  destruct (extractEntry_file sys hp (hdr_size hp)
              (to_uint (hdr_devMajor hp)) (to_uint (hdr_devMinor hp))
              (prepareEntry hp g) Hh Hsl) as (H1 & H2 & H3).
  { left. now rewrite Pmode. }
  rewrite <- Hentry in H1, H2, H3.
  destruct H3 as [H3 H4]; [now rewrite Pout|].
  rewrite H1, H2, H3, H4, Pskip, Fx, Fto, Ferr, Heof, Px, Pout, Hx, Hto.
  rewrite prepareEntry_eof, prepareEntry_errorFlag, Htrace, Ptrace, Hsize.
  repeat (split; [reflexivity|]).
  exists ((if (deref hp =? SLASH) && negb (warnedRoot g)
           then [msg_absolute_path] else []) ++ t).
  split; [now rewrite app_assoc|].
  rewrite extracted_bytes_app, Hbytes.
  now destruct ((deref hp =? SLASH) && negb (warnedRoot g)).
Qed.

(** The block of zeroes that ends the archive. *)
Lemma readHeader_end_block (hp : list Z) (fileCount : Z)
    (fileTable : list (list Z))
    (g : globals) :
  all_zero (firstn TAR_BLOCK_SIZE hp) = true ->
  exists rest,
    readHeader sys hp fileCount fileTable g = set_eofFlag true (set_outName
      rest g).
Proof.
  intros Hzero. unfold readHeader. cbn [outName set_outName].
  assert (Hd : deref hp = 0).
  { destruct hp as [|c hp]; [reflexivity|].
    unfold all_zero, TAR_BLOCK_SIZE in Hzero. cbn [firstn forallb] in Hzero.
    apply andb_true_iff in Hzero. destruct Hzero as [Hc _].
    now apply Z.eqb_eq in Hc. }
  rewrite Hd. cbn [Z.eqb].
  pose proof (scanEmpty_all_zero TAR_BLOCK_SIZE hp) as Hscan.
  destruct (scanEmpty TAR_BLOCK_SIZE hp) as [empty rest].
  cbn [fst] in Hscan. rewrite Hzero in Hscan. subst empty.
  now exists rest.
Qed.
End RoundTrip.

Section ReadingBack.
Variable sys : syscall -> Z.
Variable BUF_SIZE : nat.

Lemma fullRead_all (l : list Z) (len : nat) :
  (length l <= len)%nat ->
  fullRead (mkSource l false) len
  = (Z.of_nat (length l), l, mkSource [] false).
Proof.
  intros H. unfold fullRead. cbn [pending broken].
  destruct (Nat.leb_spec len (length l)) as [Hfull | Hshort];
    [|reflexivity].
  replace len with (length l) by lia.
  now rewrite firstn_all, skipn_all.
Qed.

Lemma readTarFile_step_refill (fileCount : Z)
    (fileTable : list (list Z)) (r : reader)
    (n : Z) (bytes : list Z) (src : source) :
  inCc r <= 0 -> fullRead (tarIn r) BUF_SIZE = (n, bytes, src) -> 0 < n ->
  readTarFile_step sys BUF_SIZE fileCount fileTable r
  = readTarFile_step sys BUF_SIZE fileCount fileTable
      (mkReader src (bytes ++ skipn (length bytes) (buf r))
         (bytes ++ skipn (length bytes) (buf r)) n
         (set_outName
            (repoint (buf r) (bytes ++ skipn (length bytes) (buf r))
               (outName (statics r)))
            (statics r))).
Proof.
  intros Hcc Hread Hn. unfold readTarFile_step. cbn [inCc].
  replace (inCc r <=? 0) with true by (symmetry; apply Z.leb_le; lia).
  rewrite Hread.
  replace (n <? 0) with false by (symmetry; apply Z.ltb_ge; lia).
  replace (n =? 0) with false by (symmetry; apply Z.eqb_neq; lia).
  replace (n <=? 0) with false by (symmetry; apply Z.leb_gt; lia).
  reflexivity.
Qed.

Lemma readTarFile_loop_step (fuel : nat) (fileCount : Z)
    (fileTable : list (list Z))
    (r r' : reader) :
  eofFlag (statics r) = false ->
  readTarFile_step sys BUF_SIZE fileCount fileTable r = Continue r' ->
  readTarFile_loop sys BUF_SIZE (S fuel) fileCount fileTable r
  = readTarFile_loop sys BUF_SIZE fuel fileCount fileTable r'.
Proof. intros Heof Hstep. cbn [readTarFile_loop]. now rewrite Heof, Hstep. Qed.

Lemma readTarFile_loop_done (fuel : nat) (fileCount : Z)
    (fileTable : list (list Z))
    (r : reader) :
  eofFlag (statics r) = true ->
  readTarFile_loop sys BUF_SIZE (S fuel) fileCount fileTable r = Some r.
Proof. intros Heof. cbn [readTarFile_loop]. now rewrite Heof. Qed.

Lemma skipn_block (h more : list Z) (k : nat) :
  length h = k -> skipn k (h ++ more) = more.
Proof.
  intros <-. rewrite skipn_app, skipn_all, Nat.sub_diag. reflexivity.
Qed.

Lemma blockAlign_padding (n : nat) :
  blockAlign (Z.of_nat n) = Z.of_nat (n + padding n).
Proof.
  unfold blockAlign, padding.
  rewrite <- Nat2Z.inj_mod.
  pose proof (Nat.mod_upper_bound n TAR_BLOCK_SIZE ltac:(discriminate)) as Hm.
  destruct (Nat.eqb_spec (n mod TAR_BLOCK_SIZE) 0) as [E | E].
  - rewrite E. cbn [Z.of_nat Z.eqb]. lia.
  - replace (Z.of_nat (n mod TAR_BLOCK_SIZE) =? 0) with false
      by (symmetry; apply Z.eqb_neq; lia).
    lia.
Qed.

Lemma all_zero_block (more : list Z) :
  all_zero (firstn TAR_BLOCK_SIZE (repeat 0 TAR_BLOCK_SIZE ++ more)) = true.
Proof.
  rewrite firstn_app, repeat_length, Nat.sub_diag.
  rewrite firstn_all2 by (rewrite repeat_length; lia).
  cbn [firstn]. rewrite app_nil_r. unfold all_zero.
  apply forallb_forall. intros c Hc. apply repeat_spec in Hc. now subst c.
Qed.

Lemma readTarFile_loop_end (fuel : nat) (fileCount : Z)
    (fileTable : list (list Z))
    (r : reader) (more : list Z) :
  cp r = repeat 0 TAR_BLOCK_SIZE ++ more ->
  inHeader (statics r) = true -> 0 < inCc r ->
  eofFlag (statics r) = false ->
  exists r' rest,
    readTarFile_loop sys BUF_SIZE (S (S fuel)) fileCount fileTable r = Some r'
    /\ statics r' = set_eofFlag true (set_outName rest (statics r)).
Proof.
  intros Hcp Hin Hcc Heof.
  destruct (readHeader_end_block sys (cp r) fileCount fileTable (statics r))
    as [rest Hend]; [rewrite Hcp; apply all_zero_block|].
  eexists. exists rest.
  rewrite (readTarFile_loop_step (S fuel) fileCount fileTable r _ Heof
             (readTarFile_step_header sys BUF_SIZE fileCount fileTable r Hin
                 Hcc)).
  rewrite readTarFile_loop_done; [|cbn [statics]; now rewrite Hend].
  split; [reflexivity|]. cbn [statics]. exact Hend.
Qed.

(** The last turn of the loop and the end of [readTarFile], when the
    files go to standard output. *)
Lemma readTarFile_finish (fuel : nat) (fileCount : Z)
    (fileTable : list (list Z))
    (r : reader) (more : list Z) :
  cp r = repeat 0 TAR_BLOCK_SIZE ++ more ->
  inHeader (statics r) = true -> 0 < inCc r ->
  eofFlag (statics r) = false -> tostdoutFlag (statics r) = true ->
  exists g',
    match readTarFile_loop sys BUF_SIZE (S (S fuel)) fileCount fileTable r with
    | Some r =>
        Some (if negb (tostdoutFlag (statics r)) && (0 <=? outFd (statics r))
              then log (Call (Sys_close (outFd (statics r)))) (statics r)
              else statics r)
    | None => None
    end = Some g'
    /\ eofFlag g' = true /\ errorFlag g' = errorFlag (statics r)
    /\ trace g' = trace (statics r).
Proof.
  intros Hcp Hin Hcc Heof Hto.
  destruct (readTarFile_loop_end fuel fileCount fileTable r more Hcp Hin Hcc
    Heof)
    as (r' & rest & Hloop & Hst).
  rewrite Hloop, Hst.
  cbn [statics tostdoutFlag set_eofFlag set_outName].
  rewrite Hto. cbn [negb andb]. eexists. split; [reflexivity|].
  repeat split; reflexivity.
Qed.

(** The turn of the loop that examines the header of a regular file. *)
Lemma readTarFile_step_file_header
    (fileName : list Z) (statbuf : stat) (more : list Z) (r : reader) :
  (0 < strlen fileName < TAR_NAME_SIZE)%nat ->
  index fileName (strlen fileName - 1) <> SLASH ->
  0 <= st_uid statbuf < 8 ^ 8 -> 0 <= st_gid statbuf < 8 ^ 8 ->
  0 <= st_size statbuf < 8 ^ 12 ->
  cp r = header_block fileName statbuf ++ more ->
  inHeader (statics r) = true -> 0 < inCc r ->
  extractFlag (statics r) = true -> tostdoutFlag (statics r) = true ->
  exists g1,
    readTarFile_step sys BUF_SIZE 0 [] r
    = Continue (mkReader (tarIn r) (buf r) more
                  (inCc r - Z.of_nat TAR_BLOCK_SIZE) g1)
    /\ inHeader g1 = (st_size statbuf =? 0) /\ dataCc g1 = st_size statbuf
    /\ outFd g1 = 1 /\ skipFileFlag g1 = false
    /\ extractFlag g1 = true /\ tostdoutFlag g1 = true
    /\ eofFlag g1 = eofFlag (statics r)
    /\ errorFlag g1 = errorFlag (statics r)
    /\ exists t, trace g1 = trace (statics r) ++ t /\ extracted_bytes t = [].
Proof.
  intros Hname Hlast Hu Hg Hs Hcp Hin Hcc Hx Hto.
  pose proof (header_block_length fileName statbuf ltac:(lia)) as Hlen.
  exists (readHeader sys (header_block fileName statbuf ++ more) 0 []
            (statics r)).
  split.
  - rewrite readTarFile_step_header by assumption.
    now rewrite Hcp, (skipn_block _ more _ Hlen).
  - now apply header_extracted.
Qed.

(** The turn of the loop that takes the data of a file, when all of it
    is in the buffer. *)
Lemma readTarFile_step_file_data
    (data pad rest : list Z) (r : reader) :
  data <> [] -> length pad = padding (length data) ->
  Z.of_nat (length data) < 2 ^ 31 ->
  cp r = data ++ pad ++ rest ->
  inHeader (statics r) = false ->
  dataCc (statics r) = Z.of_nat (length data) ->
  Z.of_nat (length data) < inCc r ->
  extractFlag (statics r) = true -> skipFileFlag (statics r) = false ->
  exists g2,
    readTarFile_step sys BUF_SIZE 0 [] r
    = Continue (mkReader (tarIn r) (buf r) rest
                  (inCc r - Z.of_nat (length data + padding (length data)))
                  g2)
    /\ inHeader g2 = true
    /\ eofFlag g2 = eofFlag (statics r)
    /\ errorFlag g2 = errorFlag (statics r)
    /\ tostdoutFlag g2 = tostdoutFlag (statics r)
    /\ exists t,
         trace g2
         = trace (statics r)
             ++ Call (Sys_fullWrite (outFd (statics r)) data) :: t
         /\ extracted_bytes t = [].
Proof.
  intros Hne Hpad Hint Hcp Hin Hdc Hcc Hx Hskip.
  change (2 ^ 31) with 2147483648 in Hint.
  assert (Hn : (0 < length data)%nat)
    by (destruct data; [contradiction | simpl; lia]).
  exists (readData sys (cp r) (Z.of_nat (length data)) (statics r)).
  destruct (readData_counts sys (cp r) (Z.of_nat (length data)) (statics r))
    as [_ Hin2].
  destruct (readData_flags sys (cp r) (Z.of_nat (length data)) (statics r))
    as (Heof2 & Herr2 & Hto2 & _).
  destruct (readData_writes sys (cp r) (Z.of_nat (length data)) (statics r)
              Hx Hskip) as (t2 & Htr2 & Hb2).
  split.
  - rewrite readTarFile_step_in_data by (assumption || lia).
    rewrite Hdc.
    replace (inCc r >? Z.of_nat (length data)) with true
      by (symmetry; apply Z.gtb_lt; lia).
    replace (to_int (Z.of_nat (length data))) with (Z.of_nat (length data))
      by (unfold to_int; change (2 ^ 31) with 2147483648;
          change (2 ^ 32) with 4294967296; rewrite Z.mod_small; lia).
    rewrite blockAlign_padding, Nat2Z.id.
    replace (skipn (length data + padding (length data)) (cp r)) with rest;
      [reflexivity|].
    rewrite Hcp, app_assoc. symmetry. apply skipn_block.
    rewrite length_app, Hpad. reflexivity.
  - rewrite Hdc, Z.sub_diag in Hin2.
    change (wrap_long 0 <=? 0) with true in Hin2.
    split; [exact Hin2|]. split; [exact Heof2|]. split; [exact Herr2|].
    split; [exact Hto2|]. exists t2. split; [|exact Hb2].
    rewrite Htr2.
    rewrite Nat2Z.id, Hcp, firstn_app, firstn_all, Nat.sub_diag.
    cbn [firstn]. now rewrite app_nil_r.
Qed.

Lemma archive_of_blocks (fileName : list Z) (statbuf : stat) (data : list Z) :
  archive_of fileName statbuf data
  = header_block fileName statbuf
      ++ data ++ repeat 0 (padding (length data))
      ++ repeat 0 TAR_BLOCK_SIZE.
Proof. unfold archive_of. reflexivity. Qed.

(** Reading the archive of one regular file with "tar xO", from the
    buffer that holds all of it. *)
Lemma readTarFile_loop_one_file
    (fuel : nat) (fileName : list Z) (statbuf : stat) (data junk : list Z)
    (r : reader) :
  (0 < strlen fileName < TAR_NAME_SIZE)%nat ->
  index fileName (strlen fileName - 1) <> SLASH ->
  0 <= st_uid statbuf < 8 ^ 8 -> 0 <= st_gid statbuf < 8 ^ 8 ->
  st_size statbuf = Z.of_nat (length data) ->
  Z.of_nat (length data) < 2 ^ 31 ->
  cp r = archive_of fileName statbuf data ++ junk ->
  inCc r = Z.of_nat (length (archive_of fileName statbuf data)) ->
  inHeader (statics r) = true -> eofFlag (statics r) = false ->
  extractFlag (statics r) = true -> tostdoutFlag (statics r) = true ->
  exists g',
    match readTarFile_loop sys BUF_SIZE (S (S (S (S fuel)))) 0 [] r with
    | Some r =>
        Some (if negb (tostdoutFlag (statics r)) && (0 <=? outFd (statics r))
              then log (Call (Sys_close (outFd (statics r)))) (statics r)
              else statics r)
    | None => None
    end = Some g'
    /\ errorFlag g' = errorFlag (statics r) /\ eofFlag g' = true
    /\ exists t,
         trace g' = trace (statics r) ++ t /\ extracted_bytes t = data.
Proof.
  intros Hname Hlast Hu Hg Hsize Hint Hcp Hcc Hin Heof Hx Hto.
  assert (Hs : 0 <= st_size statbuf < 8 ^ 12).
  { rewrite Hsize. change (2 ^ 31) with 2147483648 in Hint.
    change (8 ^ 12) with 68719476736. lia. }
  pose proof (header_block_length fileName statbuf ltac:(lia)) as Hlen.
  assert (HlenA : length (archive_of fileName statbuf data)
                  = (TAR_BLOCK_SIZE + length data + padding (length data)
                     + TAR_BLOCK_SIZE)%nat).
  { unfold archive_of. rewrite !length_app, !repeat_length, Hlen. lia. }
  rewrite HlenA in Hcc.
  rewrite archive_of_blocks, <- !app_assoc in Hcp.
  destruct (readTarFile_step_file_header fileName statbuf _ r
              Hname Hlast Hu Hg Hs Hcp Hin
              ltac:(rewrite Hcc; unfold TAR_BLOCK_SIZE; lia) Hx Hto)
    as (g1 & Hstep1 & Hin1 & Hcc1 & Hfd1 & Hskip1 & Hx1 & Hto1 & Heof1
        & Herr1 & t1 & Htr1 & Hb1).
  rewrite (readTarFile_loop_step _ 0 [] r _ Heof Hstep1).
  rewrite Hsize in Hin1, Hcc1.
  destruct data as [|d data'].
  - (* An empty file: the end of the archive follows the header. *)
    destruct (readTarFile_finish (S fuel) 0 []
                (mkReader (tarIn r) (buf r)
                   ([] ++ repeat 0 (padding (length (@nil Z)))
                       ++ repeat 0 TAR_BLOCK_SIZE ++ junk)
                   (inCc r - Z.of_nat TAR_BLOCK_SIZE) g1) junk)
      as (g' & Hfin & Heof' & Herr' & Htr');
      [reflexivity | exact Hin1
      | cbn [inCc]; rewrite Hcc; unfold TAR_BLOCK_SIZE; lia
      | cbn [statics]; now rewrite Heof1 | exact Hto1 |].
    cbn [statics] in Herr', Htr'.
    exists g'. split; [exact Hfin|].
    split; [now rewrite Herr', Herr1|]. split; [exact Heof'|].
    exists t1. split; [now rewrite Htr', Htr1 | exact Hb1].
  - (* The data of the file, then the end of the archive. *)
    set (data := d :: data') in *.
    assert (Hne : data <> []) by discriminate.
    assert (Hin1' : inHeader g1 = false).
    { rewrite Hin1. apply Z.eqb_neq. unfold data. cbn [length]. lia. }
    set (r1 := mkReader (tarIn r) (buf r)
                 (data ++ repeat 0 (padding (length data))
                    ++ repeat 0 TAR_BLOCK_SIZE ++ junk)
                 (inCc r - Z.of_nat TAR_BLOCK_SIZE) g1) in *.
    assert (Heof1' : eofFlag (statics r1) = false)
      by (unfold r1; cbn [statics]; now rewrite Heof1).
    destruct (readTarFile_step_file_data data
                (repeat 0 (padding (length data)))
                (repeat 0 TAR_BLOCK_SIZE ++ junk) r1
                Hne (repeat_length _ _) Hint eq_refl Hin1' Hcc1)
      as (g2 & Hstep2 & Hin2 & Heof2 & Herr2 & Hto2 & t2 & Htr2 & Hb2);
      [unfold r1; cbn [inCc]; rewrite Hcc; unfold TAR_BLOCK_SIZE; lia
      | exact Hx1 | exact Hskip1 |].
    rewrite (readTarFile_loop_step _ 0 [] r1 _ Heof1' Hstep2).
    unfold r1 in Heof2, Herr2, Hto2, Htr2.
    cbn [tarIn buf inCc statics] in Heof2, Herr2, Hto2, Htr2.
    unfold r1. cbn [tarIn buf inCc statics].
    destruct (readTarFile_finish fuel 0 []
                (mkReader (tarIn r) (buf r)
                   (repeat 0 TAR_BLOCK_SIZE ++ junk)
                   (inCc r - Z.of_nat TAR_BLOCK_SIZE
                    - Z.of_nat (length data + padding (length data))) g2)
                junk)
      as (g' & Hfin & Heof' & Herr' & Htr');
      [reflexivity | exact Hin2
      | cbn [inCc]; rewrite Hcc; unfold TAR_BLOCK_SIZE; lia
      | cbn [statics]; now rewrite Heof2, Heof1
      | cbn [statics]; now rewrite Hto2 |].
    cbn [statics] in Herr', Htr'.
    exists g'. split; [exact Hfin|].
    split; [now rewrite Herr', Herr2, Herr1|]. split; [exact Heof'|].
    exists (t1 ++ Call (Sys_fullWrite 1 data) :: t2).
    split; [now rewrite Htr', Htr2, Htr1, Hfd1, <- app_assoc|].
    rewrite extracted_bytes_app, Hb1. cbn [app extracted_bytes].
    rewrite Hb2. apply app_nil_r.
Qed.

Lemma reader_fields (src : source) (b c : list Z) (i : Z) (g : globals) :
  cp (mkReader src b c i g) = c /\ inCc (mkReader src b c i g) = i
  /\ statics (mkReader src b c i g) = g.
Proof. repeat split; reflexivity. Qed.

(** The first turn of the loop, which fills the buffer. *)
Lemma readTarFile_loop_refill (fuel : nat) (fileCount : Z)
    (fileTable : list (list Z))
    (src0 : source) (b0 c0 : list Z) (g0 : globals)
    (n : Z) (bytes : list Z) (src : source) :
  eofFlag g0 = false -> fullRead src0 BUF_SIZE = (n, bytes, src) -> 0 < n ->
  readTarFile_loop sys BUF_SIZE (S fuel) fileCount fileTable (mkReader src0 b0
    c0 0 g0)
  = readTarFile_loop sys BUF_SIZE (S fuel) fileCount fileTable
      (mkReader src (bytes ++ skipn (length bytes) b0)
         (bytes ++ skipn (length bytes) b0) n
         (set_outName
            (repoint b0 (bytes ++ skipn (length bytes) b0) (outName g0))
            g0)).
Proof.
  intros Heof Hread Hn. cbn [readTarFile_loop statics].
  change (eofFlag (set_outName
                     (repoint b0 (bytes ++ skipn (length bytes) b0)
                        (outName g0)) g0)) with (eofFlag g0).
  rewrite Heof.
  rewrite (readTarFile_step_refill fileCount fileTable (mkReader src0 b0 c0 0
    g0)
             n bytes src); [reflexivity | cbn [inCc]; lia | exact Hread
                           | exact Hn].
Qed.

(** The same, from the archive on: the first turn of the loop reads all
    of it into the buffer. *)
Lemma readTarFile_loop_archive_of
    (fuel : nat) (fileName : list Z) (statbuf : stat) (data buf0 : list Z)
    (g0 : globals) :
  (0 < strlen fileName < TAR_NAME_SIZE)%nat ->
  index fileName (strlen fileName - 1) <> SLASH ->
  0 <= st_uid statbuf < 8 ^ 8 -> 0 <= st_gid statbuf < 8 ^ 8 ->
  st_size statbuf = Z.of_nat (length data) ->
  Z.of_nat (length data) < 2 ^ 31 ->
  inHeader g0 = true -> eofFlag g0 = false ->
  extractFlag g0 = true -> tostdoutFlag g0 = true ->
  (length (archive_of fileName statbuf data) <= BUF_SIZE)%nat ->
  exists g',
    match
      readTarFile_loop sys BUF_SIZE (S (S (S (S fuel)))) 0 []
        (mkReader (mkSource (archive_of fileName statbuf data) false)
           buf0 buf0 0 g0)
    with
    | Some r =>
        Some (if negb (tostdoutFlag (statics r)) && (0 <=? outFd (statics r))
              then log (Call (Sys_close (outFd (statics r)))) (statics r)
              else statics r)
    | None => None
    end = Some g'
    /\ errorFlag g' = errorFlag g0 /\ eofFlag g' = true
    /\ exists t, trace g' = trace g0 ++ t /\ extracted_bytes t = data.
Proof.
  intros Hname Hlast Hu Hg Hsize Hint Hin Heof Hx Hto Hfits.
  pose proof (header_block_length fileName statbuf ltac:(lia)) as Hlen.
  assert (Hpos : 0 < Z.of_nat (length (archive_of fileName statbuf data))).
  { rewrite archive_of_blocks, length_app, Hlen. unfold TAR_BLOCK_SIZE. lia. }
  rewrite (readTarFile_loop_refill _ 0 [] _ buf0 buf0 g0 _ _ _ Heof
             (fullRead_all (archive_of fileName statbuf data) BUF_SIZE Hfits)
             Hpos).
  destruct (reader_fields (mkSource [] false)
              (archive_of fileName statbuf data
                 ++ skipn (length (archive_of fileName statbuf data)) buf0)
              (archive_of fileName statbuf data
                 ++ skipn (length (archive_of fileName statbuf data)) buf0)
              (Z.of_nat (length (archive_of fileName statbuf data)))
              (set_outName
                 (repoint buf0
                    (archive_of fileName statbuf data
                       ++ skipn (length (archive_of fileName statbuf data))
                            buf0)
                    (outName g0))
                 g0))
    as (Rcp & Rcc & Rst).
  destruct (readTarFile_loop_one_file fuel fileName statbuf data
              (skipn (length (archive_of fileName statbuf data)) buf0)
              _ Hname Hlast Hu Hg Hsize Hint Rcp Rcc)
    as (g' & Hfin & Herr' & Heof' & t & Htr' & Hb');
    [rewrite Rst; exact Hin | rewrite Rst; exact Heof
    | rewrite Rst; exact Hx | rewrite Rst; exact Hto |].
  rewrite Rst in Herr', Htr'.
  exists g'. split; [exact Hfin|]. split; [exact Herr'|].
  split; [exact Heof'|]. exists t. now split.
Qed.
End ReadingBack.

(** X19. What "tar c" writes for a regular file, "tar xO" reads back.
    For a file whose name has fewer than 100 characters and does not end
    with a slash, whose uid and gid fit their fields and whose size is
    the number of bytes it holds, the archive that [writeTarFile] writes
    is read by [readTarFile], when it fits the buffer, up to the end
    marker and without error, and the bytes handed to [fullWrite] are
    those of the file. *)
Theorem tar_roundtrip_to_stdout
    (sys : syscall -> Z) (NAME_MAX BUF_SIZE fuel : nat)
    (fileName : list Z) (statbuf : stat) (data buf0 : list Z)
    (t : target) (tarStat : stat) (gw gr : globals) :
  errorFlag gw = false ->
  written (target_out t) = [] -> room (target_out t) = None ->
  target_stat t = Some tarStat ->
  st_dev statbuf <> st_dev tarStat \/ st_ino statbuf <> st_ino tarStat ->
  (0 < strlen fileName < TAR_NAME_SIZE)%nat ->
  index fileName (strlen fileName - 1) <> SLASH ->
  S_ISDIR (to_int (st_mode statbuf)) = false ->
  S_ISREG (to_int (st_mode statbuf)) = true ->
  0 <= st_uid statbuf < 8 ^ 8 -> 0 <= st_gid statbuf < 8 ^ 8 ->
  st_size statbuf = Z.of_nat (length data) ->
  Z.of_nat (length data) < 2 ^ 31 ->
  extractFlag gr = true -> tostdoutFlag gr = true ->
  (4 <= fuel)%nat ->
  exists gw',
    writeTarFile NAME_MAX 1 [(fileName, regular_file statbuf data)] (Some t)
      gw = Some gw'
    /\ let archive := emitted gw' in
       ((length archive <= BUF_SIZE)%nat ->
        exists gr',
          readTarFile sys BUF_SIZE fuel 0 [] (Some (mkSource archive false))
            buf0 gr
          = Some gr'
          /\ errorFlag gr' = errorFlag gr /\ eofFlag gr' = true
          /\ exists events,
               trace gr' = trace gr ++ events
               /\ extracted_bytes events = data).
Proof.
  intros Herr Hwritten Hroom Hstat Hself Hname Hlast Hdir Hreg Hu Hg Hsize
    Hint Hx Hto Hfuel.
  destruct (writeTarFile_one_file NAME_MAX fileName statbuf data t tarStat gw
              Herr Hwritten Hroom Hstat Hself ltac:(lia) Hdir Hreg Hsize)
    as (gw' & Hrun & Harchive).
  exists gw'. split; [exact Hrun|]. cbv zeta. rewrite Harchive.
  intros Hfits.
  destruct fuel as [|[|[|[|fuel]]]]; try lia.
  unfold readTarFile. cbv beta iota zeta.
  destruct (readTarFile_loop_archive_of sys BUF_SIZE fuel fileName statbuf
              data buf0
              (set_outFd (-1)
                 (set_dataCc 0
                    (set_inHeader true
                       (set_eofFlag false
                          (set_warnedRoot false
                             (set_badHeader false
                                (set_skipFileFlag false gr)))))))
              Hname Hlast Hu Hg Hsize Hint eq_refl eq_refl Hx Hto Hfits)
    as (g' & Hfin & Herr' & Heof' & events & Htr' & Hb').
  exists g'. split; [exact Hfin|]. split; [exact Herr'|].
  split; [exact Heof'|]. exists events. split; [exact Htr' | exact Hb'].
Qed.

Lemma tar_roundtrip_to_stdout_witness :
  exists gr',
    readTarFile sys_ok 2048 4 0 []
      (Some (mkSource own_archive false)) []
      (startup false true false false true None fresh_sink)
    = Some gr'
    /\ errorFlag gr' = false
    /\ exists events,
         trace gr' = events /\ extracted_bytes events = cstr "abcd".
Proof.
  destruct (tar_roundtrip_to_stdout sys_ok 255 2048 4 (cstr "hello.txt")
              sample_stat (cstr "abcd") []
              new_archive (mkStat 1 99 33188 1000 1000 0 946684800)
              create_globals
              (startup false true false false true None fresh_sink))
    as (gw' & Hw & Hread).
  - reflexivity.
  - reflexivity.
  - reflexivity.
  - reflexivity.
  - right. simpl. lia.
  - vm_compute. lia.
  - vm_compute. discriminate.
  - reflexivity.
  - reflexivity.
  - simpl. lia.
  - simpl. lia.
  - reflexivity.
  - simpl. lia.
  - reflexivity.
  - reflexivity.
  - lia.
  - assert (Harchive : own_archive = emitted gw').
    { unfold own_archive.
      change hello_file with (regular_file sample_stat (cstr "abcd")).
      now rewrite Hw. }
    cbv zeta in Hread. rewrite <- Harchive in Hread.
    destruct Hread as (gr' & Hrun & Herr & _ & events & Htr & Hb).
    + vm_compute. lia.
    + exists gr'. split; [exact Hrun|]. split; [exact Herr|].
      exists events. split; [exact Htr | exact Hb].
Defined.

(** ** The name after the buffer is filled again *)

(** X20. [outName] points into the buffer of [readTarFile]. When the
    buffer is filled again before the last data of an extracted file,
    the bytes at the place of the name are those that were just read:
    the data are written, the file is closed, and [utime], [chown] and
    [chmod] are called with the string that now starts there, not with
    the name under which the file was created. *)
Theorem readTarFile_name_after_refill
    (sys : syscall -> Z) (BUF_SIZE : nat) (fileCount : Z)
    (fileTable : list (list Z)) (r : reader)
    (n : Z) (bytes : list Z) (src : source) :
  inCc r <= 0 -> fullRead (tarIn r) BUF_SIZE = (n, bytes, src) ->
  0 < n < 2 ^ 31 ->
  let g := statics r in
  let buf' := bytes ++ skipn (length bytes) (buf r) in
  let name := cstring (skipn (length (buf r) - length (outName g)) buf') in
  inHeader g = false -> extractFlag g = true -> skipFileFlag g = false ->
  tostdoutFlag g = false -> 0 < dataCc g <= n ->
  0 <= sys (Sys_fullWrite (outFd g) (firstn (Z.to_nat (dataCc g)) buf')) ->
  sys (Sys_close (outFd g)) = 0 ->
  exists r',
    readTarFile_step sys BUF_SIZE fileCount fileTable r = Continue r'
    /\ inHeader (statics r') = true
    /\ trace (statics r')
       = trace g
           ++ [Call (Sys_fullWrite (outFd g)
                       (firstn (Z.to_nat (dataCc g)) buf'));
               Call (Sys_close (outFd g));
               Call (Sys_utime name (mtime g));
               Call (Sys_chown name (uid g) (gid g));
               Call (Sys_chmod name (mode g))].
Proof.
  intros Hcc Hread Hn g buf' name Hin Hx Hskip Hto Hdata Hwrite Hclose.
  change (2 ^ 31) with 2147483648 in Hn.
  rewrite (readTarFile_step_refill sys BUF_SIZE fileCount fileTable r n bytes
             src Hcc Hread ltac:(lia)).
  fold buf' g.
  set (g1 := set_outName (repoint (buf r) buf' (outName g)) g).
  rewrite (readTarFile_step_in_data sys BUF_SIZE fileCount fileTable
             (mkReader src buf' buf' n g1) Hin ltac:(cbn [inCc]; lia)).
  cbn [inCc statics cp tarIn buf].
  change (dataCc g1) with (dataCc g).
  assert (Hcount : (if n >? dataCc g then to_int (dataCc g) else n)
                   = dataCc g).
  { destruct (n >? dataCc g) eqn:E.
    - unfold to_int. change (2 ^ 31) with 2147483648.
      change (2 ^ 32) with 4294967296. rewrite Z.mod_small by lia. lia.
    - rewrite Z.gtb_ltb in E. apply Z.ltb_ge in E. lia. }
  rewrite Hcount. eexists. split; [reflexivity|].
  cbn [statics]. unfold readData, call, restoreAttributes, log.
  cbn -[Z.ltb Z.leb Z.eqb wrap_long repoint firstn].
  rewrite Z.sub_diag. change (wrap_long 0 <=? 0) with true. cbv iota.
  cbn -[Z.ltb Z.leb Z.eqb wrap_long repoint firstn].
  rewrite Hx, Hskip. cbn [negb orb].
  replace (sys (Sys_fullWrite (outFd g) (firstn (Z.to_nat (dataCc g)) buf'))
           <? 0) with false by (symmetry; apply Z.ltb_ge; exact Hwrite).
  rewrite Hto. cbn [negb andb]. rewrite Hclose. cbn [Z.eqb].
  cbn -[repoint firstn]. split; [reflexivity|].
  rewrite <- !app_assoc. reflexivity.
Qed.

Lemma readTarFile_name_after_refill_witness :
  cstring (outName (statics refill_reader)) = cstr "hello.txt"
  /\ exists r',
       readTarFile_step sys_ok 512 0 [] refill_reader = Continue r'
       /\ trace (statics r')
          = trace (statics refill_reader)
              ++ [Call (Sys_fullWrite 3 (cstr "abcd")); Call (Sys_close 3);
                  Call (Sys_utime (cstr "abcd") 946684800);
                  Call (Sys_chown (cstr "abcd") 1000 1000);
                  Call (Sys_chmod (cstr "abcd") 420)].
Proof.
  split; [vm_compute; reflexivity|].
  destruct (readTarFile_name_after_refill sys_ok 512 0 [] refill_reader 512
              (firstn 512 (skipn 512 own_archive))
              (mkSource (skipn 1024 own_archive) false))
    as (r' & Hstep & _ & Htrace).
  - vm_compute. discriminate.
  - vm_compute. reflexivity.
  - split; reflexivity.
  - vm_compute. reflexivity.
  - vm_compute. reflexivity.
  - vm_compute. reflexivity.
  - vm_compute. reflexivity.
  - vm_compute. split; [reflexivity | discriminate].
  - vm_compute. discriminate.
  - vm_compute. reflexivity.
  - exists r'. split; [exact Hstep|]. rewrite Htrace.
    vm_compute. reflexivity.
Defined.
